(** * Audio system of the hubs client: src/systems/audio-system.js

    A shallow embedding of the audio graph orchestration (class [AudioSystem])
    and of the Chrome echo-cancellation loopback ([enableChromeAEC],
    [performDelayedReconnect]), followed by the properties established
    about them. *)

From Stdlib Require Import QArith.
From stdpp Require Import gmap strings list fin_maps.

Close Scope Q_scope.

Set Default Proof Using "Type".

(** ** JavaScript completions

    A call either returns normally or throws; what it did to the state
    before throwing stays done. *)

Inductive JSError :=
  | TypeError
  | OperationError (name : string).

Inductive Completion (A : Type) :=
  | Normal (a : A)
  | Throw (e : JSError).
Arguments Normal {A} a.
Arguments Throw {A} e.

Definition JS (S A : Type) : Type := S → Completion A * S.

Global Instance JS_ret {S} : MRet (JS S) := λ A a s, (Normal a, s).
Global Instance JS_bind {S} : MBind (JS S) := λ A B f m s,
  match m s with
  | (Normal a, s') => f a s'
  | (Throw e, s') => (Throw e, s')
  end.

Definition throw {S A} (e : JSError) : JS S A := λ s, (Throw e, s).
Definition get {S} : JS S S := λ s, (Normal s, s).
Definition modify {S} (f : S → S) : JS S unit := λ s, (Normal tt, f s).

(** ** The Web Audio graph of [APP.audioCtx]

    Nodes are numbered in creation order; [edges] holds the connections
    [(source, destination)].  [connect] on an existing connection is ignored
    by Web Audio, [disconnect()] without argument drops every outgoing
    connection of the node. *)

Inductive NodeKind :=
  | AudioDestinationNode
  | GainNode
  | AnalyserNode
  | MediaStreamAudioDestinationNode
  | MediaStreamAudioSourceNode (mediaStream : nat).

Record AudioContext := mkAudioContext {
  nodes : list NodeKind;
  edges : list (nat * nat)
}.

Definition createNode (k : NodeKind) (ctx : AudioContext) : nat * AudioContext :=
  (length (nodes ctx), {| nodes := nodes ctx ++ [k]; edges := edges ctx |}).

Definition createGain := createNode GainNode.
Definition createAnalyser := createNode AnalyserNode.
Definition createMediaStreamDestination := createNode MediaStreamAudioDestinationNode.
(** A media stream is known by a number; it is taken to carry an audio
    track, as [createMediaStreamSource] requires of its argument. *)
Definition createMediaStreamSource (mediaStream : nat) :=
  createNode (MediaStreamAudioSourceNode mediaStream).

Definition connect (a b : nat) (ctx : AudioContext) : AudioContext :=
  if bool_decide ((a, b) ∈ edges ctx) then ctx
  else {| nodes := nodes ctx; edges := edges ctx ++ [(a, b)] |}.

Definition disconnect (a : nat) (ctx : AudioContext) : AudioContext :=
  {| nodes := nodes ctx; edges := filter (λ e, e.1 ≠ a) (edges ctx) |}.

(** The destinations a node is connected to. *)
Definition outputs (a : nat) (ctx : AudioContext) : list nat :=
  snd <$> filter (λ e, e.1 = a) (edges ctx).

(** The context as the page creates it: node 0 is [audioCtx.destination]. *)
Definition newAudioContext : AudioContext :=
  {| nodes := [AudioDestinationNode]; edges := [] |}.
Definition ctx_destination : nat := 0.

(** ** Calls the audio system issues on host objects *)

Inductive Effect :=
  | ENodeDisconnect (n : nat)
  | ENodeConnect (a b : nat)
  | EParamSetValue (n : nat) (value : Q)
  | EParamSetTargetAtTime (n : nat) (target startTime timeConstant : Q)
  | EElementPause (el : nat)
  | EElementPlay (el : nat)
  | EElementSetSinkId (el : nat) (sinkId : string)
  | ESwapAudioType (elOrEid : nat)
  | EUpdatePannerNode (elOrEid : nat)
  | EUpdateAudioSettings (elOrEid : nat).

(** A hidden [Audio] element. A fresh element has the empty sink id (the
    default device) and is paused. *)
Record AudioElement := mkAudioElement {
  sinkId : string;
  srcObject : option nat;
  paused : bool
}.

Definition newAudio : AudioElement :=
  {| sinkId := ""; srcObject := None; paused := true |}.

(** ** Imported constants and collaborators

    [SourceType], [AudioType] and [GAIN_TIME_CONST] come from
    components/audio-params, which is outside this file: the keys of the
    enumeration and the time constant are taken as given. *)

Record SourceTypeEnum := mkSourceType {
  AVATAR_AUDIO_SOURCE : string;
  MEDIA_VIDEO : string;
  AUDIO_TARGET : string;
  SFX : string
}.

Inductive AudioType := Stereo | PannerNode.

Global Instance AudioType_eq_dec : EqDecision AudioType.
Proof. solve_decision. Defined.

(** [APP.store.state.preferences], the fields read here. *)
Record Preferences := mkPreferences {
  globalVoiceVolume : Q;
  globalMediaVolume : Q;
  globalSFXVolume : Q;
  pref_disableLeftRightPanning : bool;
  pref_audioPanningQuality : string
}.

(** [APP.mediaDevicesManager], the fields read here. *)
Record MediaDevicesManager := mkMediaDevicesManager {
  selectedSpeakersDeviceId : string;
  defaultOutputDeviceId : string
}.

(** An entry of [APP.audios]: a THREE.PositionalAudio or a THREE.Audio. *)
Record Audio := mkAudio {
  isPositionalAudio : bool
}.

(** What [updatePrefs] reads from its surroundings when it runs. *)
Record Env := mkEnv {
  SourceType : SourceTypeEnum;
  GAIN_TIME_CONST : Q;
  preferences : Preferences;
  isAudioOutputSelectEnabled : bool;
  mediaDevicesManager : option MediaDevicesManager;
  currentTime : Q;
  audios : list (nat * Audio);
  getCurrentAudioSettings : nat → AudioType;
  swapAudioType : nat → Audio → Audio
}.

(** ** The [AudioSystem] object *)

Record AudioSystem := mkAudioSystem {
  audioContext : AudioContext;
  audioNodes : gmap string (nat * nat);
  mediaStreamDestinationNode : nat;
  destinationGain : nat;
  audioDestination : nat;
  outboundGainNode : nat;
  outboundAnalyser : nat;
  mediaGain : nat;
  mixer : gmap string nat;
  mixerAnalyser : nat;
  outputMediaAudio : option nat;
  disableLeftRightPanning : bool;
  audioPanningQuality : string;
  (* host objects the system holds on to, and the calls issued so far *)
  elements : list AudioElement;
  sinkRequests : list (nat * string);
  effects : list Effect
}.

Definition set_audioContext (f : AudioContext → AudioContext) (s : AudioSystem) :=
  mkAudioSystem (f (audioContext s)) (audioNodes s) (mediaStreamDestinationNode s)
    (destinationGain s) (audioDestination s) (outboundGainNode s) (outboundAnalyser s)
    (mediaGain s) (mixer s) (mixerAnalyser s) (outputMediaAudio s)
    (disableLeftRightPanning s) (audioPanningQuality s)
    (elements s) (sinkRequests s) (effects s).

Definition set_audioNodes (f : gmap string (nat * nat) → gmap string (nat * nat))
    (s : AudioSystem) :=
  mkAudioSystem (audioContext s) (f (audioNodes s)) (mediaStreamDestinationNode s)
    (destinationGain s) (audioDestination s) (outboundGainNode s) (outboundAnalyser s)
    (mediaGain s) (mixer s) (mixerAnalyser s) (outputMediaAudio s)
    (disableLeftRightPanning s) (audioPanningQuality s)
    (elements s) (sinkRequests s) (effects s).

Definition set_outputMediaAudio (o : option nat) (s : AudioSystem) :=
  mkAudioSystem (audioContext s) (audioNodes s) (mediaStreamDestinationNode s)
    (destinationGain s) (audioDestination s) (outboundGainNode s) (outboundAnalyser s)
    (mediaGain s) (mixer s) (mixerAnalyser s) o
    (disableLeftRightPanning s) (audioPanningQuality s)
    (elements s) (sinkRequests s) (effects s).

Definition set_panning (d : bool) (q : string) (s : AudioSystem) :=
  mkAudioSystem (audioContext s) (audioNodes s) (mediaStreamDestinationNode s)
    (destinationGain s) (audioDestination s) (outboundGainNode s) (outboundAnalyser s)
    (mediaGain s) (mixer s) (mixerAnalyser s) (outputMediaAudio s)
    d q (elements s) (sinkRequests s) (effects s).

Definition set_elements (f : list AudioElement → list AudioElement) (s : AudioSystem) :=
  mkAudioSystem (audioContext s) (audioNodes s) (mediaStreamDestinationNode s)
    (destinationGain s) (audioDestination s) (outboundGainNode s) (outboundAnalyser s)
    (mediaGain s) (mixer s) (mixerAnalyser s) (outputMediaAudio s)
    (disableLeftRightPanning s) (audioPanningQuality s)
    (f (elements s)) (sinkRequests s) (effects s).

Definition set_sinkRequests (f : list (nat * string) → list (nat * string))
    (s : AudioSystem) :=
  mkAudioSystem (audioContext s) (audioNodes s) (mediaStreamDestinationNode s)
    (destinationGain s) (audioDestination s) (outboundGainNode s) (outboundAnalyser s)
    (mediaGain s) (mixer s) (mixerAnalyser s) (outputMediaAudio s)
    (disableLeftRightPanning s) (audioPanningQuality s)
    (elements s) (f (sinkRequests s)) (effects s).

Definition emit (e : Effect) (s : AudioSystem) :=
  mkAudioSystem (audioContext s) (audioNodes s) (mediaStreamDestinationNode s)
    (destinationGain s) (audioDestination s) (outboundGainNode s) (outboundAnalyser s)
    (mediaGain s) (mixer s) (mixerAnalyser s) (outputMediaAudio s)
    (disableLeftRightPanning s) (audioPanningQuality s)
    (elements s) (sinkRequests s) (effects s ++ [e]).

(** *** Host calls, as steps of the system *)

(** [n.disconnect()] *)
Definition node_disconnect (n : nat) : JS AudioSystem unit :=
  modify (λ s, emit (ENodeDisconnect n) (set_audioContext (disconnect n) s)).

(** [a.connect(b)] for an audio node [b] *)
Definition node_connect (a b : nat) : JS AudioSystem unit :=
  modify (λ s, emit (ENodeConnect a b) (set_audioContext (connect a b) s)).

(** [n.gain.setTargetAtTime(target, startTime, timeConstant)] *)
Definition gain_setTargetAtTime (n : nat) (target startTime timeConstant : Q)
    : JS AudioSystem unit :=
  modify (emit (EParamSetTargetAtTime n target startTime timeConstant)).

(** What [this.mixer[key]] evaluates to. The mixer is an object literal, so
    a key it does not own is looked up on [Object.prototype]: the result is
    then [undefined] or an inherited member, in no case an audio node. *)
Inductive JSValue :=
  | JSUndefined
  | JSInherited
  | JSAudioNode (n : nat).

Definition Object_prototype_keys : list string :=
  ["constructor"; "hasOwnProperty"; "isPrototypeOf"; "propertyIsEnumerable";
   "toLocaleString"; "toString"; "valueOf"; "__proto__";
   "__defineGetter__"; "__defineSetter__"; "__lookupGetter__"; "__lookupSetter__"].

Definition mixer_get (m : gmap string nat) (key : string) : JSValue :=
  match m !! key with
  | Some n => JSAudioNode n
  | None => if bool_decide (key ∈ Object_prototype_keys) then JSInherited else JSUndefined
  end.

(** Using [this.mixer[key]] as an audio node: [connect] with anything else,
    or reading [.gain] or calling [.disconnect] on it, throws a TypeError. *)
Definition mixer_node (key : string) : JS AudioSystem nat :=
  s ← get;
  match mixer_get (mixer s) key with
  | JSAudioNode n => mret n
  | _ => throw TypeError
  end.

(** *** constructor (sceneEl), the part that builds the graph *)

Definition own (m : gmap string nat) (key : string) : nat := default 0 (m !! key).

Definition AudioSystem_constructor (st : SourceTypeEnum) (prefs : Preferences)
    (ctx : AudioContext) : AudioSystem :=
  let '(mediaStreamDestinationNode, ctx) := createMediaStreamDestination ctx in
  let '(destinationGain, ctx) := createGain ctx in
  let ctx := connect destinationGain ctx_destination ctx in
  let '(audioDestination, ctx) := createMediaStreamDestination ctx in
  let '(outboundGainNode, ctx) := createGain ctx in
  let '(outboundAnalyser, ctx) := createAnalyser ctx in
  let ctx := connect outboundGainNode outboundAnalyser ctx in
  let ctx := connect outboundAnalyser mediaStreamDestinationNode ctx in
  let '(mediaGain, ctx) := createGain ctx in
  let '(avatarGain, ctx) := createGain ctx in
  let '(sfxGain, ctx) := createGain ctx in
  let mixer : gmap string nat :=
    <[SFX st := sfxGain]> (<[AUDIO_TARGET st := mediaGain]>
      (<[MEDIA_VIDEO st := mediaGain]> (<[AVATAR_AUDIO_SOURCE st := avatarGain]> ∅))) in
  let ctx := connect (own mixer (AVATAR_AUDIO_SOURCE st)) destinationGain ctx in
  let ctx := connect (own mixer (MEDIA_VIDEO st)) destinationGain ctx in
  let ctx := connect (own mixer (SFX st)) destinationGain ctx in
  let '(mixerAnalyser, ctx) := createAnalyser ctx in
  let ctx := connect (own mixer (AVATAR_AUDIO_SOURCE st)) mixerAnalyser ctx in
  let ctx := connect (own mixer (MEDIA_VIDEO st)) mixerAnalyser ctx in
  let ctx := connect (own mixer (SFX st)) mixerAnalyser ctx in
  {| audioContext := ctx;
     audioNodes := ∅;
     mediaStreamDestinationNode := mediaStreamDestinationNode;
     destinationGain := destinationGain;
     audioDestination := audioDestination;
     outboundGainNode := outboundGainNode;
     outboundAnalyser := outboundAnalyser;
     mediaGain := mediaGain;
     mixer := mixer;
     mixerAnalyser := mixerAnalyser;
     outputMediaAudio := None;
     disableLeftRightPanning := pref_disableLeftRightPanning prefs;
     audioPanningQuality := pref_audioPanningQuality prefs;
     elements := [];
     sinkRequests := [];
     effects := [] |}.

(** *** removeStreamFromOutboundAudio (id) *)

Definition removeStreamFromOutboundAudio (id : string) : JS AudioSystem unit :=
  s ← get;
  match audioNodes s !! id with
  | Some (sourceNode, gainNode) =>
      node_disconnect sourceNode;;
      node_disconnect gainNode;;
      modify (set_audioNodes (delete id))
  | None => mret tt
  end.

(** *** addStreamToOutboundAudio (id, mediaStream) *)

Definition addStreamToOutboundAudio (id : string) (mediaStream : nat)
    : JS AudioSystem unit :=
  s ← get;
  (if bool_decide (is_Some (audioNodes s !! id))
   then removeStreamFromOutboundAudio id else mret tt);;
  s ← get;
  let '(sourceNode, ctx) := createMediaStreamSource mediaStream (audioContext s) in
  let '(gainNode, ctx) := createGain ctx in
  modify (set_audioContext (λ _, ctx));;
  node_connect sourceNode gainNode;;
  s ← get;
  node_connect gainNode (outboundGainNode s);;
  modify (set_audioNodes (<[id := (sourceNode, gainNode)]>)).

(** *** getListenerInput () *)

Definition getListenerInput (s : AudioSystem) : nat := destinationGain s.

(** *** addAudio ({ node, sourceType }) *)

Definition addAudio (node : nat) (sourceType : string) : JS AudioSystem unit :=
  node_disconnect node;;
  dest ← mixer_node sourceType;
  node_connect node dest.

(** *** removeAudio ({ node }) *)

Definition removeAudio (node : nat) : JS AudioSystem unit :=
  node_disconnect node.

(** *** updatePrefs () *)

(** [this.mixer[key].disconnect()] and [this.mixer[key].connect(dest)] *)
Definition mixer_disconnect (key : string) : JS AudioSystem unit :=
  n ← mixer_node key; node_disconnect n.

Definition mixer_connect (key : string) (dest : nat) : JS AudioSystem unit :=
  n ← mixer_node key; node_connect n dest.

(** [this.mixer[key].gain.setTargetAtTime(newGain, currentTime, GAIN_TIME_CONST)] *)
Definition mixer_setTargetAtTime (env : Env) (key : string) (newGain : Q)
    : JS AudioSystem unit :=
  n ← mixer_node key;
  gain_setTargetAtTime n newGain (currentTime env) (GAIN_TIME_CONST env).

(** [this.outputMediaAudio?.sinkId]: [None] stands for [undefined]. *)
Definition outputMediaAudio_sinkId (s : AudioSystem) : option string :=
  el ← outputMediaAudio s; sinkId <$> elements s !! el.

Definition element_pause (a : AudioElement) : AudioElement :=
  {| sinkId := sinkId a; srcObject := srcObject a; paused := true |}.
Definition element_play (a : AudioElement) : AudioElement :=
  {| sinkId := sinkId a; srcObject := srcObject a; paused := false |}.
Definition element_set_srcObject (o : option nat) (a : AudioElement) : AudioElement :=
  {| sinkId := sinkId a; srcObject := o; paused := paused a |}.
Definition element_set_sinkId (sid : string) (a : AudioElement) : AudioElement :=
  {| sinkId := sid; srcObject := srcObject a; paused := paused a |}.

(** The test that guards the re-routing:
    [(this.outputMediaAudio || !isDefault) && sinkId !== this.outputMediaAudio?.sinkId] *)
Definition shouldReroute (s : AudioSystem) (mdm : MediaDevicesManager) : bool :=
  let sinkId := selectedSpeakersDeviceId mdm in
  let isDefault := bool_decide (sinkId = defaultOutputDeviceId mdm) in
  (bool_decide (is_Some (outputMediaAudio s)) || negb isDefault)
  && bool_decide (Some sinkId ≠ outputMediaAudio_sinkId s).

(** The body of that [if]. *)
Definition rerouteOutput (env : Env) (mdm : MediaDevicesManager) : JS AudioSystem unit :=
  let st := SourceType env in
  let sinkId := selectedSpeakersDeviceId mdm in
  let isDefault := bool_decide (sinkId = defaultOutputDeviceId mdm) in
  s ← get;
  let sink := if isDefault then destinationGain s else audioDestination s in
  mixer_disconnect (AVATAR_AUDIO_SOURCE st);;
  mixer_connect (AVATAR_AUDIO_SOURCE st) sink;;
  mixer_connect (AVATAR_AUDIO_SOURCE st) (mixerAnalyser s);;
  mixer_disconnect (MEDIA_VIDEO st);;
  mixer_connect (MEDIA_VIDEO st) sink;;
  mixer_connect (MEDIA_VIDEO st) (mixerAnalyser s);;
  mixer_disconnect (SFX st);;
  mixer_connect (SFX st) sink;;
  mixer_connect (SFX st) (mixerAnalyser s);;
  if isDefault then
    match outputMediaAudio s with
    | Some el =>
        modify (λ s, emit (EElementPause el) (set_elements (alter element_pause el) s));;
        modify (set_elements (alter (element_set_srcObject None) el));;
        modify (set_outputMediaAudio None)
    | None => mret tt
    end
  else
    (match outputMediaAudio s with
     | None =>
         modify (λ s, set_outputMediaAudio (Some (length (elements s)))
                        (set_elements (λ l, l ++ [newAudio]) s));;
         s ← get;
         modify (set_elements
                   (alter (element_set_srcObject (Some (audioDestination s)))
                          (default 0 (outputMediaAudio s))))
     | Some _ => mret tt
     end);;
    s ← get;
    if bool_decide (outputMediaAudio_sinkId s ≠ Some sinkId) then
      (* setSinkId(sinkId) starts; its promise settles later, see
         [settleSetSinkId] *)
      modify (λ s, emit (EElementSetSinkId (default 0 (outputMediaAudio s)) sinkId)
                     (set_sinkRequests
                        (λ l, l ++ [(default 0 (outputMediaAudio s), sinkId)]) s))
    else mret tt.

(** The callback of [APP.audios.forEach]. [audio] is the value the map
    holds for [elOrEid] when the entry is visited; [swapAudioType] replaces
    that value, and [APP.audios.get(elOrEid)] then reads the new one. *)
Definition updateAudio (env : Env) (shouldRecreateAudio shouldUpdateAudioSettings : bool)
    (elOrEid : nat) (audio : Audio) : JS AudioSystem unit :=
  if shouldRecreateAudio then
    let audioType := getCurrentAudioSettings env elOrEid in
    if (negb (isPositionalAudio audio) && bool_decide (audioType = PannerNode))
       || (isPositionalAudio audio && bool_decide (audioType = Stereo))
    then
      modify (emit (ESwapAudioType elOrEid));;
      let audio := swapAudioType env elOrEid audio in
      if isPositionalAudio audio
      then modify (emit (EUpdatePannerNode elOrEid))
      else mret tt
    else mret tt
  else if shouldUpdateAudioSettings then
    modify (emit (EUpdateAudioSettings elOrEid))
  else mret tt.

(** The statement
    [if (MediaDevicesManager.isAudioOutputSelectEnabled && APP.mediaDevicesManager) { ... }] *)
Definition routeOutput (env : Env) : JS AudioSystem unit :=
  if isAudioOutputSelectEnabled env then
    match mediaDevicesManager env with
    | Some mdm =>
        s ← get;
        if shouldReroute s mdm then rerouteOutput env mdm else mret tt
    | None => mret tt
    end
  else mret tt.

Fixpoint forEach {S A} (l : list A) (f : A → JS S unit) : JS S unit :=
  match l with
  | [] => mret tt
  | x :: l => f x;; forEach l f
  end.

Definition updatePrefs (env : Env) : JS AudioSystem unit :=
  let st := SourceType env in
  let prefs := preferences env in
  let newGain := (globalMediaVolume prefs / 100)%Q in
  mixer_setTargetAtTime env (MEDIA_VIDEO st) newGain;;
  let newGain := (globalSFXVolume prefs / 100)%Q in
  mixer_setTargetAtTime env (SFX st) newGain;;
  let newGain := (globalVoiceVolume prefs / 100)%Q in
  mixer_setTargetAtTime env (AVATAR_AUDIO_SOURCE st) newGain;;
  routeOutput env;;
  let newDisableLeftRightPanning := pref_disableLeftRightPanning prefs in
  let newAudioPanningQuality := pref_audioPanningQuality prefs in
  s ← get;
  let shouldRecreateAudio :=
    bool_decide (disableLeftRightPanning s ≠ newDisableLeftRightPanning) in
  let shouldUpdateAudioSettings :=
    bool_decide (audioPanningQuality s ≠ newAudioPanningQuality) in
  modify (set_panning newDisableLeftRightPanning newAudioPanningQuality);;
  forEach (audios env)
    (λ '(elOrEid, audio),
       updateAudio env shouldRecreateAudio shouldUpdateAudioSettings elOrEid audio).

(** The promise of the [i]-th pending [setSinkId] settles. When it is
    fulfilled the element is on the requested sink and the [then] callback
    runs [this.outputMediaAudio.play()], which throws inside the callback
    when the field is null by then. When it is rejected nothing runs: the
    chain has no rejection handler. *)
Definition settleSetSinkId (i : nat) (fulfilled : bool) (s : AudioSystem) : AudioSystem :=
  match sinkRequests s !! i with
  | None => s
  | Some (el, sid) =>
      let s := set_sinkRequests (delete i) s in
      if fulfilled then
        let s := set_elements (alter (element_set_sinkId sid) el) s in
        match outputMediaAudio s with
        | Some cur => emit (EElementPlay cur) (set_elements (alter element_play cur) s)
        | None => s
        end
      else s
  end.

(** ** The Chrome echo-cancellation loopback

    [enableChromeAEC] is an async function. It runs to its next [await]
    without interruption; a promise it does not await settles at some later
    turn of the event loop, during one of the function's suspensions or
    after the function has come to its end, never in the middle of a run of
    synchronous statements. *)

Inductive Conn := Outbound | Inbound.
Inductive SdpType := Offer | Answer.
Inductive IceConnectionState :=
  | IceNew | IceChecking | IceConnected | IceCompleted
  | IceFailed | IceDisconnected | IceClosed.

Global Instance Conn_eq_dec : EqDecision Conn.
Proof. solve_decision. Defined.
Global Instance SdpType_eq_dec : EqDecision SdpType.
Proof. solve_decision. Defined.
Global Instance IceConnectionState_eq_dec : EqDecision IceConnectionState.
Proof. solve_decision. Defined.

(** A session description. The sdp text is kept in the form
    sdp-transform parses it to, cut down to what the rewrite touches: for
    each media section, the [config] of each of its fmtp lines. *)
Record SessionDescription := mkSessionDescription {
  sd_type : SdpType;
  sdp : list (list string)
}.

(** The steps of the negotiation that can fail. *)
Inductive Step :=
  | AddTrack
  | CreateOffer
  | CreateAnswer
  | SdpParse
  | SdpWrite
  | SetLocalDescription (c : Conn) (d : SessionDescription)
  | SetRemoteDescription (c : Conn) (d : SessionDescription).

(** How the browser answers one activation: which steps fail, what the
    offer and the answer hold, and, for a promise that is not awaited, how
    many suspensions of the function pass before it settles. *)
Record Oracle := mkOracle {
  failure : Step → option JSError;
  latency : Step → nat;
  offer_sdp : list (list string);
  answer_sdp : list (list string)
}.

Inductive AecEvent :=
  | Called (st : Step) (ok : bool)
  | Started (st : Step)
  | Settled (st : Step) (ok : bool)
  | GainDisconnect (gainNode : nat)
  | GainConnect (gainNode dest : nat)
  | ConsoleWarn
  | ConsoleError (e : JSError).

Record Promise := mkPromise {
  promise_step : Step;
  promise_ok : bool;
  promise_latency : nat
}.

Record Timeout := mkTimeout {
  handle : positive;
  delay : Z;
  timeout_gainNode : nat
}.

(** One loopback: what one call of [enableChromeAEC] creates, with the
    [gainNode] its listeners close over. *)
Record Session := mkSession {
  session_gainNode : nat;
  audioEl : nat;
  loopbackDestination : nat;
  outboundPeerConnection : nat;
  inboundPeerConnection : nat
}.

(** The module-level state of audio-system.js and the host state its
    functions act on. [timeouts] is the host's table of timeouts that are
    scheduled and have neither fired nor been cleared; [sessions] holds
    every loopback created, in creation order: no statement of the file
    closes a peer connection or removes a listener. *)
Record Page := mkPage {
  page_ctx : AudioContext;
  delayedReconnectTimeout : option positive;
  timeouts : list Timeout;
  next_handle : positive;
  sessions : list Session;
  host_objects : nat;
  pending : list Promise;
  trace : list AecEvent
}.

Definition set_page_ctx (f : AudioContext → AudioContext) (p : Page) :=
  mkPage (f (page_ctx p)) (delayedReconnectTimeout p) (timeouts p) (next_handle p)
    (sessions p) (host_objects p) (pending p) (trace p).
Definition set_delayedReconnectTimeout (v : option positive) (p : Page) :=
  mkPage (page_ctx p) v (timeouts p) (next_handle p)
    (sessions p) (host_objects p) (pending p) (trace p).
Definition set_timeouts (f : list Timeout → list Timeout) (p : Page) :=
  mkPage (page_ctx p) (delayedReconnectTimeout p) (f (timeouts p)) (next_handle p)
    (sessions p) (host_objects p) (pending p) (trace p).
Definition set_next_handle (h : positive) (p : Page) :=
  mkPage (page_ctx p) (delayedReconnectTimeout p) (timeouts p) h
    (sessions p) (host_objects p) (pending p) (trace p).
Definition set_sessions (f : list Session → list Session) (p : Page) :=
  mkPage (page_ctx p) (delayedReconnectTimeout p) (timeouts p) (next_handle p)
    (f (sessions p)) (host_objects p) (pending p) (trace p).
Definition set_host_objects (n : nat) (p : Page) :=
  mkPage (page_ctx p) (delayedReconnectTimeout p) (timeouts p) (next_handle p)
    (sessions p) n (pending p) (trace p).
Definition set_pending (f : list Promise → list Promise) (p : Page) :=
  mkPage (page_ctx p) (delayedReconnectTimeout p) (timeouts p) (next_handle p)
    (sessions p) (host_objects p) (f (pending p)) (trace p).
Definition record (e : AecEvent) (p : Page) :=
  mkPage (page_ctx p) (delayedReconnectTimeout p) (timeouts p) (next_handle p)
    (sessions p) (host_objects p) (pending p) (trace p ++ [e]).
Definition record_all (es : list AecEvent) (p : Page) :=
  mkPage (page_ctx p) (delayedReconnectTimeout p) (timeouts p) (next_handle p)
    (sessions p) (host_objects p) (pending p) (trace p ++ es).

Definition initialPage (ctx : AudioContext) : Page :=
  {| page_ctx := ctx; delayedReconnectTimeout := None; timeouts := [];
     next_handle := 1%positive; sessions := []; host_objects := 0;
     pending := []; trace := [] |}.

(** *** Timers of the host *)

(** [setTimeout(callback, delay)]: the handle is a positive integer. *)
Definition setTimeout (gainNode : nat) (ms : Z) (p : Page) : positive * Page :=
  let h := next_handle p in
  (h, set_next_handle (Pos.succ h)
        (set_timeouts (λ l, l ++ [mkTimeout h ms gainNode]) p)).

(** [clearTimeout(h)]: nothing happens when [h] is not scheduled. *)
Definition clearTimeout (h : positive) (p : Page) : Page :=
  set_timeouts (filter (λ t, handle t ≠ h)) p.

(** *** Steps of an async function *)

Definition try_catch {S A} (body : JS S A) (handler : JSError → JS S A) : JS S A :=
  λ s, match body s with
       | (Throw e, s') => handler e s'
       | r => r
       end.

Definition step_ok (o : Oracle) (st : Step) : bool :=
  bool_decide (failure o st = None).

(** A synchronous call. *)
Definition call (o : Oracle) (st : Step) : JS Page unit :=
  modify (record (Called st (step_ok o st)));;
  match failure o st with
  | Some e => throw e
  | None => mret tt
  end.

(** A call whose promise is dropped. *)
Definition fire (o : Oracle) (st : Step) : JS Page unit :=
  modify (λ p, set_pending (λ l, l ++ [mkPromise st (step_ok o st) (latency o st)])
                 (record (Started st) p)).

(** One suspension of the function: the dropped promises that are due
    settle, the others come one suspension closer. *)
Definition suspend (p : Page) : Page :=
  let due := filter (λ q, promise_latency q = 0) (pending p) in
  let later := filter (λ q, promise_latency q ≠ 0) (pending p) in
  set_pending
    (λ _, (λ q, mkPromise (promise_step q) (promise_ok q) (pred (promise_latency q)))
            <$> later)
    (record_all ((λ q, Settled (promise_step q) (promise_ok q)) <$> due) p).

(** [await] of a call: the function resumes once the promise has settled,
    with a throw when it was rejected. *)
Definition await (o : Oracle) (st : Step) : JS Page unit :=
  modify (record (Started st));;
  modify suspend;;
  modify (record (Settled st (step_ok o st)));;
  match failure o st with
  | Some e => throw e
  | None => mret tt
  end.

(** After the function has come to its end, what is still pending settles. *)
Definition settle_pending (p : Page) : Page :=
  set_pending (λ _, [])
    (record_all ((λ q, Settled (promise_step q) (promise_ok q)) <$> pending p) p).

(** *** performDelayedReconnect (gainNode) *)

Definition performDelayedReconnect (gainNode : nat) (p : Page) : Page :=
  let p := match delayedReconnectTimeout p with
           | Some h => clearTimeout h p
           | None => p
           end in
  let '(h, p) := setTimeout gainNode 10000%Z p in
  set_delayedReconnectTimeout (Some h) p.

(** *** enableChromeAEC (gainNode) *)

(** The rewrite of the answer: every fmtp config of every media section
    gets the stereo and bitrate parameters appended. *)
Definition rewriteSdp (media : list (list string)) : list (list string) :=
  map (map (λ config, config +:+ ";stereo=1;cbr=0;maxaveragebitrate=510000;")) media.

Definition onError (e : JSError) : JS Page unit :=
  modify (record (ConsoleError e)).

Definition gainNode_disconnect (gainNode : nat) : JS Page unit :=
  modify (λ p, record (GainDisconnect gainNode) (set_page_ctx (disconnect gainNode) p)).

Definition gainNode_connect (gainNode dest : nat) : JS Page unit :=
  modify (λ p, record (GainConnect gainNode dest) (set_page_ctx (connect gainNode dest) p)).

(** The body of the [try] block. *)
Definition negotiate (o : Oracle) (gainNode loopbackDestination : nat) : JS Page unit :=
  call o AddTrack;;
  await o CreateOffer;;
  let offer := mkSessionDescription Offer (offer_sdp o) in
  fire o (SetLocalDescription Outbound offer);;
  await o (SetRemoteDescription Inbound offer);;
  await o CreateAnswer;;
  let answer := mkSessionDescription Answer (answer_sdp o) in
  call o SdpParse;;
  let parsedSdp := rewriteSdp (sdp answer) in
  call o SdpWrite;;
  let answer := mkSessionDescription Answer parsedSdp in
  fire o (SetLocalDescription Inbound answer);;
  fire o (SetRemoteDescription Outbound answer);;
  gainNode_disconnect gainNode;;
  gainNode_connect gainNode loopbackDestination.

(** What runs before the [try] block: the audio element, the loopback
    sink, the two peer connections and their listeners. From here on the
    session reacts to the events of its connections. *)
Definition createSession (gainNode : nat) (p : Page) : Session * Page :=
  let audioEl := host_objects p in
  let '(loopbackDestination, ctx) := createMediaStreamDestination (page_ctx p) in
  let outboundPeerConnection := S audioEl in
  let inboundPeerConnection := S (S audioEl) in
  let sess := mkSession gainNode audioEl loopbackDestination
                outboundPeerConnection inboundPeerConnection in
  (sess, set_sessions (λ l, l ++ [sess])
           (set_host_objects (S (S (S audioEl))) (set_page_ctx (λ _, ctx) p))).

Definition enableChromeAEC (o : Oracle) (gainNode : nat) : JS Page unit :=
  λ p,
    let '(sess, p) := createSession gainNode p in
    try_catch (negotiate o gainNode (loopbackDestination sess)) onError p.

(** One activation from the call to the point where every promise it
    started has settled. *)
Definition activate (o : Oracle) (gainNode : nat) (p : Page) : Page :=
  settle_pending (enableChromeAEC o gainNode p).2.

(** *** The listeners of a session *)

(** "iceconnectionstatechange" on either connection; [state] is the
    connection's [iceConnectionState] when the listener runs. Both
    listeners have the same body. *)
Definition on_iceconnectionstatechange (sess : Session) (c : Conn)
    (state : IceConnectionState) (p : Page) : Page :=
  let p := record ConsoleWarn p in
  let p := if bool_decide (state = IceDisconnected)
           then performDelayedReconnect (session_gainNode sess) p else p in
  if bool_decide (state = IceConnected) then
    match delayedReconnectTimeout p with
    | Some h => clearTimeout h p
    | None => p
    end
  else p.

(** "icecandidate" on either connection: the candidate goes to the other
    connection, a rejection is logged. *)
Definition on_icecandidate (sess : Session) (c : Conn) (accepted : bool) (p : Page) : Page :=
  if accepted then p else record (ConsoleError (OperationError "addIceCandidate")) p.

(** The callback [performDelayedReconnect] hands to [setTimeout]. *)
Definition delayedReconnect_callback (o : Oracle) (gainNode : nat) (p : Page) : Page :=
  let p := set_delayedReconnectTimeout None p in
  let p := record ConsoleWarn p in
  activate o gainNode p.

(** *** The page as a machine driven by the host's events

    An event is handled once the activation before it has come to its end:
    what an activation does at its suspension points touches neither the
    timers nor the list of sessions, which are all the listeners act on. *)

Inductive PageEvent :=
  | Activate (o : Oracle) (gainNode : nat)
  | IceConnectionStateChange (session : nat) (c : Conn) (state : IceConnectionState)
  | IceCandidate (session : nat) (c : Conn) (accepted : bool)
  | TimeoutFires (h : positive) (o : Oracle).

Definition page_step (ev : PageEvent) (p : Page) : Page :=
  match ev with
  | Activate o gainNode => activate o gainNode p
  | IceConnectionStateChange i c state =>
      match sessions p !! i with
      | Some sess => on_iceconnectionstatechange sess c state p
      | None => p
      end
  | IceCandidate i c accepted =>
      match sessions p !! i with
      | Some sess => on_icecandidate sess c accepted p
      | None => p
      end
  | TimeoutFires h o =>
      match filter (λ t, handle t = h) (timeouts p) with
      | t :: _ => delayedReconnect_callback o (timeout_gainNode t) (clearTimeout h p)
      | [] => p
      end
  end.

Definition page_run (evs : list PageEvent) (p : Page) : Page :=
  foldl (λ p ev, page_step ev p) p evs.

(** The steps of the negotiation whose failure reaches the [catch]: the
    synchronous calls and the awaited ones, in program order. *)
Definition caught_steps (o : Oracle) : list Step :=
  [AddTrack; CreateOffer;
   SetRemoteDescription Inbound (mkSessionDescription Offer (offer_sdp o));
   CreateAnswer; SdpParse; SdpWrite].

(** The first of them to fail, if any. *)
Definition first_failure (o : Oracle) : option JSError :=
  foldr (λ st later, match failure o st with Some e => Some e | None => later end)
    None (caught_steps o).

(** The sessions that are live. A session ends when its peer connections
    are closed; the file closes none, so every session created is live. *)
Definition liveSessions (p : Page) : list Session := sessions p.

(** ** Predicates used in the statements *)

(** At most one timeout is scheduled, and it is the one the module
    variable refers to. *)
Definition timer_inv (p : Page) : Prop :=
  timeouts p = [] ∨
  ∃ t, timeouts p = [t] ∧ delayedReconnectTimeout p = Some (handle t).

(** The pages the host's events lead to, from a page on which nothing has
    been activated yet. *)
Definition reachable (ctx : AudioContext) (p : Page) : Prop :=
  ∃ evs, p = page_run evs (initialPage ctx).

(** A step leaves an observation of the state as it was. *)
Definition keeps {S X A : Type} (f : S → X) (m : JS S A) : Prop :=
  ∀ s, f (m s).2 = f s.

(** What the negotiation never touches. *)
Definition reconnect_state (p : Page) :=
  (delayedReconnectTimeout p, timeouts p, next_handle p, sessions p, host_objects p).

(** *** Observations of the audio system *)

Definition emit_all (es : list Effect) (s : AudioSystem) :=
  mkAudioSystem (audioContext s) (audioNodes s) (mediaStreamDestinationNode s)
    (destinationGain s) (audioDestination s) (outboundGainNode s) (outboundAnalyser s)
    (mediaGain s) (mixer s) (mixerAnalyser s) (outputMediaAudio s)
    (disableLeftRightPanning s) (audioPanningQuality s)
    (elements s) (sinkRequests s) (effects s ++ es).

(** The calls a step issues when it runs from [s]. *)
Definition issued {A} (m : JS AudioSystem A) (s : AudioSystem) : list Effect :=
  drop (length (effects s)) (effects (m s).2).

(** Calls that change the topology of the graph. *)
Definition is_node_call (e : Effect) : bool :=
  match e with
  | ENodeDisconnect _ | ENodeConnect _ _ => true
  | _ => false
  end.

(** Calls on an AudioParam, instantaneous or smoothed. *)
Definition is_param_call (e : Effect) : bool :=
  match e with
  | EParamSetValue _ _ | EParamSetTargetAtTime _ _ _ _ => true
  | _ => false
  end.

(** Calls to the emitter system. *)
Definition is_panning_call (e : Effect) : bool :=
  match e with
  | ESwapAudioType _ | EUpdatePannerNode _ | EUpdateAudioSettings _ => true
  | _ => false
  end.

(** Every connection of the graph leaves a node that exists. *)
Definition ctx_wf (ctx : AudioContext) : Prop :=
  Forall (λ e, e.1 < length (nodes ctx)) (edges ctx).

(** The three distinct category nodes are there under their keys. *)
Definition mixer_wired (env : Env) (s : AudioSystem) (a m f : nat) : Prop :=
  mixer s !! AVATAR_AUDIO_SOURCE (SourceType env) = Some a
  ∧ mixer s !! MEDIA_VIDEO (SourceType env) = Some m
  ∧ mixer s !! SFX (SourceType env) = Some f.

(** The nine calls that move the category nodes to [sink]. *)
Definition reroute_calls (a m f sink analyser : nat) : list Effect :=
  [ENodeDisconnect a; ENodeConnect a sink; ENodeConnect a analyser;
   ENodeDisconnect m; ENodeConnect m sink; ENodeConnect m analyser;
   ENodeDisconnect f; ENodeConnect f sink; ENodeConnect f analyser].

(** The output is where the selection wants it: selection is off, or
    the hidden element is on the selected sink already, or there is no
    hidden element and the default device is selected. *)
Definition output_in_place (env : Env) (s : AudioSystem) : Prop :=
  isAudioOutputSelectEnabled env = false
  ∨ match mediaDevicesManager env with
    | None => True
    | Some mdm =>
        outputMediaAudio_sinkId s = Some (selectedSpeakersDeviceId mdm)
        ∨ (outputMediaAudio s = None
           ∧ selectedSpeakersDeviceId mdm = defaultOutputDeviceId mdm)
    end.

(** The source's technique is not the one its settings ask for. *)
Definition technique_mismatch (env : Env) (elOrEid : nat) (audio : Audio) : bool :=
  (negb (isPositionalAudio audio)
   && bool_decide (getCurrentAudioSettings env elOrEid = PannerNode))
  || (isPositionalAudio audio
      && bool_decide (getCurrentAudioSettings env elOrEid = Stereo)).

(** The calls [updateAudio] issues for one entry of [APP.audios]. *)
Definition audio_calls (env : Env) (shouldRecreateAudio shouldUpdateAudioSettings : bool)
    (entry : nat * Audio) : list Effect :=
  let '(elOrEid, audio) := entry in
  if shouldRecreateAudio then
    if technique_mismatch env elOrEid audio then
      ESwapAudioType elOrEid
      :: (if isPositionalAudio (swapAudioType env elOrEid audio)
          then [EUpdatePannerNode elOrEid] else [])
    else []
  else if shouldUpdateAudioSettings then [EUpdateAudioSettings elOrEid]
  else [].

(** ** Concrete inputs *)

(** Four distinct keys, named after the categories they stand for. *)
Definition hubs_SourceType : SourceTypeEnum :=
  {| AVATAR_AUDIO_SOURCE := "avatar-audio-source";
     MEDIA_VIDEO := "media-video";
     AUDIO_TARGET := "audio-target";
     SFX := "sfx" |}.

Definition prefs0 : Preferences :=
  {| globalVoiceVolume := 100; globalMediaVolume := 50; globalSFXVolume := 0;
     pref_disableLeftRightPanning := false; pref_audioPanningQuality := "High" |}.

(** The system right after construction: [destinationGain] is node 2 and
    feeds [audioCtx.destination], node 0. *)
Definition sys0 : AudioSystem :=
  AudioSystem_constructor hubs_SourceType prefs0 newAudioContext.

Definition page0 : Page := initialPage (audioContext sys0).

Definition opus_fmtp : list (list string) := [["minptime=10;useinbandfec=1"]].

(** Every step of the negotiation succeeds. *)
Definition all_ok : Oracle :=
  {| failure := λ _, None; latency := λ _, 0;
     offer_sdp := opus_fmtp; answer_sdp := opus_fmtp |}.

(** The inbound connection rejects the rewritten answer as its local
    description; every other step succeeds. *)
Definition answer_rejected : Oracle :=
  {| failure := λ st,
       match st with
       | SetLocalDescription Inbound (mkSessionDescription Answer _) =>
           Some (OperationError "InvalidModificationError")
       | _ => None
       end;
     latency := λ _, 0;
     offer_sdp := opus_fmtp; answer_sdp := opus_fmtp |}.

(** A page on which the loopback was activated and then lost its inbound
    connection: one session, the reconnect timer scheduled under handle 1. *)
Definition page_disconnected : Page :=
  page_run [Activate all_ok (destinationGain sys0);
            IceConnectionStateChange 0 Inbound IceDisconnected] page0.

Definition the_offer : SessionDescription := mkSessionDescription Offer opus_fmtp.
Definition the_answer : SessionDescription :=
  mkSessionDescription Answer
    [["minptime=10;useinbandfec=1;stereo=1;cbr=0;maxaveragebitrate=510000;"]].

(** The page after the user has picked the output device "speakers-1";
    one positional source is playing. *)
Definition env_explicit : Env :=
  {| SourceType := hubs_SourceType; GAIN_TIME_CONST := (2 # 10)%Q;
     preferences := prefs0;
     isAudioOutputSelectEnabled := true;
     mediaDevicesManager :=
       Some {| selectedSpeakersDeviceId := "speakers-1";
               defaultOutputDeviceId := "default" |};
     currentTime := 0%Q;
     audios := [(0, mkAudio true)];
     getCurrentAudioSettings := λ _, PannerNode;
     swapAudioType := λ _ audio, mkAudio (negb (isPositionalAudio audio)) |}.

(** The page after the user has moved the media volume slider; nothing
    else differs from the state the system was built from. *)
Definition env_volume : Env :=
  {| SourceType := hubs_SourceType; GAIN_TIME_CONST := (2 # 10)%Q;
     preferences :=
       {| globalVoiceVolume := 100; globalMediaVolume := 30; globalSFXVolume := 0;
          pref_disableLeftRightPanning := false; pref_audioPanningQuality := "High" |};
     isAudioOutputSelectEnabled := true;
     mediaDevicesManager := None;
     currentTime := 0%Q;
     audios := [(0, mkAudio true)];
     getCurrentAudioSettings := λ _, PannerNode;
     swapAudioType := λ _ audio, mkAudio (negb (isPositionalAudio audio)) |}.

(** The page after the user has switched left/right panning off; the
    source that is playing is positional and its settings now ask for
    stereo. *)
Definition env_panning : Env :=
  {| SourceType := hubs_SourceType; GAIN_TIME_CONST := (2 # 10)%Q;
     preferences :=
       {| globalVoiceVolume := 100; globalMediaVolume := 50; globalSFXVolume := 0;
          pref_disableLeftRightPanning := true; pref_audioPanningQuality := "High" |};
     isAudioOutputSelectEnabled := true;
     mediaDevicesManager := None;
     currentTime := 0%Q;
     audios := [(0, mkAudio true)];
     getCurrentAudioSettings := λ _, Stereo;
     swapAudioType := λ _ audio, mkAudio (negb (isPositionalAudio audio)) |}.

(** The page after the user has switched left/right panning off; the
    source that is playing is a stereo one already, as its settings ask. *)
Definition env_panning_stereo : Env :=
  {| SourceType := hubs_SourceType; GAIN_TIME_CONST := (2 # 10)%Q;
     preferences :=
       {| globalVoiceVolume := 100; globalMediaVolume := 50; globalSFXVolume := 0;
          pref_disableLeftRightPanning := true; pref_audioPanningQuality := "High" |};
     isAudioOutputSelectEnabled := true;
     mediaDevicesManager := None;
     currentTime := 0%Q;
     audios := [(0, mkAudio false)];
     getCurrentAudioSettings := λ _, Stereo;
     swapAudioType := λ _ audio, mkAudio (negb (isPositionalAudio audio)) |}.

(** The system after the microphone stream was added, and after it was
    added a second time with another stream. *)
Definition sys_mic1 : AudioSystem := (addStreamToOutboundAudio "microphone" 1 sys0).2.
Definition sys_mic2 : AudioSystem := (addStreamToOutboundAudio "microphone" 2 sys_mic1).2.

(** The system after an emitter has created the gain node it will hand to
    [addAudio]: node 10. *)
Definition sys_emitter : AudioSystem :=
  set_audioContext (λ ctx, (createGain ctx).2) sys0.

(** ** Resuming the context, and the interruption fix

    [_resumeAudioContext] is registered on [document.body] for "touchend"
    and "mouseup"; [_safariMobileAudioInterruptionFix] installs the
    context's [onstatechange] handler. *)

Inductive LogMessageType := audioSuspended | audioResumed.

Global Instance LogMessageType_eq_dec : EqDecision LogMessageType.
Proof. solve_decision. Defined.

(** What the callback of [_resumeAudioContext] reads from the host. *)
Record Device := mkDevice {
  isMobile : bool;                  (* AFRAME.utils.device.isMobile() *)
  userAgent : string;               (* navigator.userAgent *)
  disableEchoCancellation : bool    (* preferences.disableEchoCancellation *)
}.

Definition toLower (c : Ascii.ascii) : Ascii.ascii :=
  let n := Ascii.nat_of_ascii c in
  if (65 <=? n) && (n <=? 90) then Ascii.ascii_of_nat (n + 32) else c.

Fixpoint matches_at (pattern s : string) : bool :=
  match pattern, s with
  | EmptyString, _ => true
  | String a pattern, String b s =>
      bool_decide (toLower a = toLower b) && matches_at pattern s
  | String _ _, EmptyString => false
  end.

(** [/pattern/i.test(s)] for a pattern of plain letters. *)
Fixpoint regexp_i_test (pattern s : string) : bool :=
  matches_at pattern s
  || match s with
     | EmptyString => false
     | String _ s => regexp_i_test pattern s
     end.

(** The part of the page these two methods act on: the state of the
    context, the flag of the interruption fix, whether [_resumeAudioContext]
    is registered for each of the two events, the calls of
    [audioContext.resume()] made, the zero-delay timeouts scheduled and not
    yet run, and the messages logged. A listener registered twice with the
    same arguments is registered once. *)
Record Document := mkDocument {
  doc_page : Page;
  audioContext_state : string;
  audioContextNeedsToBeResumed : bool;
  touchend_listener : bool;
  mouseup_listener : bool;
  resume_calls : nat;
  resume_timeouts : nat;
  messages : list LogMessageType;
  console_log : list string
}.

Definition set_doc_page (f : Page → Page) (d : Document) :=
  mkDocument (f (doc_page d)) (audioContext_state d) (audioContextNeedsToBeResumed d)
    (touchend_listener d) (mouseup_listener d) (resume_calls d) (resume_timeouts d)
    (messages d) (console_log d).
Definition set_audioContext_state (st : string) (d : Document) :=
  mkDocument (doc_page d) st (audioContextNeedsToBeResumed d)
    (touchend_listener d) (mouseup_listener d) (resume_calls d) (resume_timeouts d)
    (messages d) (console_log d).
Definition set_audioContextNeedsToBeResumed (b : bool) (d : Document) :=
  mkDocument (doc_page d) (audioContext_state d) b
    (touchend_listener d) (mouseup_listener d) (resume_calls d) (resume_timeouts d)
    (messages d) (console_log d).
Definition set_touchend_listener (b : bool) (d : Document) :=
  mkDocument (doc_page d) (audioContext_state d) (audioContextNeedsToBeResumed d)
    b (mouseup_listener d) (resume_calls d) (resume_timeouts d)
    (messages d) (console_log d).
Definition set_mouseup_listener (b : bool) (d : Document) :=
  mkDocument (doc_page d) (audioContext_state d) (audioContextNeedsToBeResumed d)
    (touchend_listener d) b (resume_calls d) (resume_timeouts d)
    (messages d) (console_log d).
Definition set_resume_calls (n : nat) (d : Document) :=
  mkDocument (doc_page d) (audioContext_state d) (audioContextNeedsToBeResumed d)
    (touchend_listener d) (mouseup_listener d) n (resume_timeouts d)
    (messages d) (console_log d).
Definition set_resume_timeouts (n : nat) (d : Document) :=
  mkDocument (doc_page d) (audioContext_state d) (audioContextNeedsToBeResumed d)
    (touchend_listener d) (mouseup_listener d) (resume_calls d) n
    (messages d) (console_log d).
Definition messageDispatch_log (m : LogMessageType) (d : Document) :=
  mkDocument (doc_page d) (audioContext_state d) (audioContextNeedsToBeResumed d)
    (touchend_listener d) (mouseup_listener d) (resume_calls d) (resume_timeouts d)
    (messages d ++ [m]) (console_log d).
Definition console_log_add (line : string) (d : Document) :=
  mkDocument (doc_page d) (audioContext_state d) (audioContextNeedsToBeResumed d)
    (touchend_listener d) (mouseup_listener d) (resume_calls d) (resume_timeouts d)
    (messages d) (console_log d ++ [line]).

(** The document as the constructor leaves it: the flag is off and
    [_resumeAudioContext] is registered for both events. *)
Definition initialDocument (ctx : AudioContext) (st : string) : Document :=
  {| doc_page := initialPage ctx; audioContext_state := st;
     audioContextNeedsToBeResumed := false;
     touchend_listener := true; mouseup_listener := true;
     resume_calls := 0; resume_timeouts := 0; messages := []; console_log := [] |}.

(** [_resumeAudioContext]: the call of [resume()], whose promise is
    dropped, and the [setTimeout(..., 0)]. *)
Definition _resumeAudioContext (d : Document) : Document :=
  let d := set_resume_calls (S (resume_calls d)) d in
  set_resume_timeouts (S (resume_timeouts d)) d.

(** The callback [_resumeAudioContext] hands to [setTimeout]. *)
Definition resume_callback (dev : Device) (o : Oracle) (destinationGain : nat)
    (d : Document) : Document :=
  if bool_decide (audioContext_state d = "running") then
    let d :=
      if negb (isMobile dev) && regexp_i_test "chrome" (userAgent dev)
         && negb (disableEchoCancellation dev)
      then set_doc_page (activate o destinationGain) d
      else d in
    let d := set_touchend_listener false d in
    set_mouseup_listener false d
  else d.

(** The handler [_safariMobileAudioInterruptionFix] installs. *)
Definition onstatechange (d : Document) : Document :=
  let d := console_log_add ("AudioContext state changed to " +:+ audioContext_state d) d in
  if bool_decide (audioContext_state d = "suspended") then
    let d := messageDispatch_log audioSuspended d in
    let d := set_touchend_listener true d in
    let d := set_mouseup_listener true d in
    set_audioContextNeedsToBeResumed true d
  else if bool_decide (audioContext_state d = "running") && audioContextNeedsToBeResumed d
  then
    let d := set_audioContextNeedsToBeResumed false d in
    messageDispatch_log audioResumed d
  else d.

(** The events of the host these methods react to. An event of a loopback
    session is handled as [page_step] does; a call of [enableChromeAEC] is no
    event of the host. *)
Inductive DocEvent :=
  | Touchend
  | Mouseup
  | ResumeTimeoutFires (o : Oracle)
  | StateChange (newState : string)
  | Loopback (ev : PageEvent).

Definition doc_step (dev : Device) (destinationGain : nat) (ev : DocEvent)
    (d : Document) : Document :=
  match ev with
  | Touchend => if touchend_listener d then _resumeAudioContext d else d
  | Mouseup => if mouseup_listener d then _resumeAudioContext d else d
  | ResumeTimeoutFires o =>
      match resume_timeouts d with
      | S n => resume_callback dev o destinationGain (set_resume_timeouts n d)
      | 0 => d
      end
  | StateChange newState => onstatechange (set_audioContext_state newState d)
  | Loopback (Activate _ _) => d
  | Loopback ev => set_doc_page (page_step ev) d
  end.

Definition doc_run (dev : Device) (destinationGain : nat) (evs : list DocEvent)
    (d : Document) : Document :=
  foldl (λ d ev, doc_step dev destinationGain ev d) d evs.

(** ** Further notions used in the statements *)

(** *** Sequences of calls on the registry of outbound streams *)

Inductive StreamOp :=
  | AddStream (id : string) (mediaStream : nat)
  | RemoveStream (id : string).

Definition stream_step (op : StreamOp) (s : AudioSystem) : AudioSystem :=
  match op with
  | AddStream id mediaStream => (addStreamToOutboundAudio id mediaStream s).2
  | RemoveStream id => (removeStreamFromOutboundAudio id s).2
  end.

Definition stream_run (ops : list StreamOp) (s : AudioSystem) : AudioSystem :=
  foldl (λ s op, stream_step op s) s ops.

(** Every registered pair is wired: a source node that feeds its gain node
    alone, which feeds the outbound gain node alone. *)
Definition registry_wired (s : AudioSystem) : Prop :=
  ∀ id src g, audioNodes s !! id = Some (src, g) →
    (∃ ms, nodes (audioContext s) !! src = Some (MediaStreamAudioSourceNode ms))
    ∧ nodes (audioContext s) !! g = Some GainNode
    ∧ outputs src (audioContext s) = [g]
    ∧ outputs g (audioContext s) = [outboundGainNode s].

(** Two identifiers never share a node. *)
Definition registry_disjoint (s : AudioSystem) : Prop :=
  ∀ id1 id2 src1 g1 src2 g2,
    id1 ≠ id2 →
    audioNodes s !! id1 = Some (src1, g1) → audioNodes s !! id2 = Some (src2, g2) →
    src1 ≠ src2 ∧ src1 ≠ g2 ∧ g1 ≠ src2 ∧ g1 ≠ g2.

Definition registry_inv (s : AudioSystem) : Prop :=
  ctx_wf (audioContext s) ∧ registry_wired s ∧ registry_disjoint s.

(** *** Routing, the loopback, the log of the interruption fix *)

(** The graph once the three category nodes have been moved to [sink]. *)
Definition rerouted (a m f sink analyser : nat) (ctx : AudioContext) : AudioContext :=
  connect f analyser (connect f sink (disconnect f
    (connect m analyser (connect m sink (disconnect m
      (connect a analyser (connect a sink (disconnect a ctx)))))))).

(** Every [Activate] of a run is a call with the gain node [g]. *)
Definition activates_only (g : nat) (ev : PageEvent) : Prop :=
  match ev with
  | Activate _ g' => g' = g
  | _ => True
  end.

(** What a run of the page keeps when [g] is the only node the loopback is
    ever activated for: the sessions and timers are for [g], no other node's
    connections change, [g] feeds what it fed at the start or the loopback
    sink of one of the sessions alone, and every session has left one
    destination node in the graph. *)
Definition loopback_inv (g : nat) (ctx : AudioContext) (p : Page) : Prop :=
  Forall (λ sess, session_gainNode sess = g) (sessions p)
  ∧ Forall (λ t, timeout_gainNode t = g) (timeouts p)
  ∧ (∀ c, c ≠ g → outputs c (page_ctx p) = outputs c ctx)
  ∧ (outputs g (page_ctx p) = outputs g ctx
     ∨ ∃ sess, sess ∈ sessions p
               ∧ outputs g (page_ctx p) = [loopbackDestination sess])
  ∧ nodes (page_ctx p)
    = nodes ctx ++ replicate (length (sessions p)) MediaStreamAudioDestinationNode.

(** Whether the callback starts the loopback on this device. *)
Definition usesChromeAEC (dev : Device) : bool :=
  negb (isMobile dev) && regexp_i_test "chrome" (userAgent dev)
  && negb (disableEchoCancellation dev).

(** Every [audioResumed] of the log comes right after an
    [audioSuspended]. *)
Definition resumed_after_suspended (log : list LogMessageType) : Prop :=
  ∀ pre post, log = pre ++ audioResumed :: post → last pre = Some audioSuspended.

Definition is_gesture (ev : DocEvent) : Prop := ev = Touchend ∨ ev = Mouseup.

(** The flag is on only while the last message is [audioSuspended]. *)
Definition log_inv (d : Document) : Prop :=
  resumed_after_suspended (messages d)
  ∧ (audioContextNeedsToBeResumed d = true → last (messages d) = Some audioSuspended).

(** ** Further concrete inputs *)

(** The page after the user has gone back to the default output device. *)
Definition env_default : Env :=
  {| SourceType := hubs_SourceType; GAIN_TIME_CONST := (2 # 10)%Q;
     preferences := prefs0;
     isAudioOutputSelectEnabled := true;
     mediaDevicesManager :=
       Some {| selectedSpeakersDeviceId := "default";
               defaultOutputDeviceId := "default" |};
     currentTime := 0%Q;
     audios := [(0, mkAudio true)];
     getCurrentAudioSettings := λ _, PannerNode;
     swapAudioType := λ _ audio, mkAudio (negb (isPositionalAudio audio)) |}.

(** The same on a host whose default output device has the empty id. *)
Definition env_default_empty : Env :=
  {| SourceType := hubs_SourceType; GAIN_TIME_CONST := (2 # 10)%Q;
     preferences := prefs0;
     isAudioOutputSelectEnabled := true;
     mediaDevicesManager :=
       Some {| selectedSpeakersDeviceId := ""; defaultOutputDeviceId := "" |};
     currentTime := 0%Q;
     audios := [(0, mkAudio true)];
     getCurrentAudioSettings := λ _, PannerNode;
     swapAudioType := λ _ audio, mkAudio (negb (isPositionalAudio audio)) |}.

(** The system once "speakers-1" was selected and the hidden element's
    [setSinkId] was fulfilled. *)
Definition sys_speakers : AudioSystem :=
  settleSetSinkId 0 true (updatePrefs env_explicit sys0).2.

(** The outbound connection refuses to create an offer; every other step
    succeeds. *)
Definition offer_refused : Oracle :=
  {| failure := λ st,
       match st with
       | CreateOffer => Some (OperationError "InvalidStateError")
       | _ => None
       end;
     latency := λ _, 0;
     offer_sdp := opus_fmtp; answer_sdp := opus_fmtp |}.

Definition desktop_chrome : Device :=
  {| isMobile := false;
     userAgent := "Mozilla/5.0 (X11; Linux x86_64) AppleWebKit/537.36 (KHTML, like Gecko) Chrome/120.0.0.0 Safari/537.36";
     disableEchoCancellation := false |}.

Definition desktop_firefox : Device :=
  {| isMobile := false;
     userAgent := "Mozilla/5.0 (X11; Linux x86_64; rv:120.0) Gecko/20100101 Firefox/120.0";
     disableEchoCancellation := false |}.

(** * Properties *)

(** ** Frame rules for the steps *)

Section Frames.
Context {S X : Type} (f : S → X).

Lemma keeps_ret {A} (a : A) : keeps f (mret a : JS S A).
Proof. by intros s. Qed.

Lemma keeps_throw {A} e : keeps f (throw e : JS S A).
Proof. by intros s. Qed.

Lemma keeps_get : keeps f get.
Proof. by intros s. Qed.

Lemma keeps_modify g : (∀ s, f (g s) = f s) → keeps f (modify g).
Proof. intros Hg s. apply Hg. Qed.

Lemma keeps_bind {A B} (m : JS S A) (k : A → JS S B) :
  keeps f m → (∀ a, keeps f (k a)) → keeps f (m ≫= k).
Proof.
  intros Hm Hk s. unfold mbind, JS_bind.
  specialize (Hm s). destruct (m s) as [[a|e] s']; simpl in *.
  - by rewrite Hk.
  - done.
Qed.

Lemma keeps_try_catch {A} (m : JS S A) h :
  keeps f m → (∀ e, keeps f (h e)) → keeps f (try_catch m h).
Proof.
  intros Hm Hh s. unfold try_catch.
  specialize (Hm s). destruct (m s) as [[a|e] s']; simpl in *.
  - done.
  - by rewrite Hh.
Qed.
End Frames.

(** ** Running a sequence of steps *)

Lemma bind_run {S A B} (m : JS S A) (k : A → JS S B) s a s' :
  m s = (Normal a, s') → (m ≫= k) s = k a s'.
Proof. intros H. unfold mbind, JS_bind. by rewrite H. Qed.

Lemma bind_get {S B} (k : S → JS S B) s : (get ≫= k) s = k s s.
Proof. done. Qed.
Lemma bind_modify {S B} (f : S → S) (k : unit → JS S B) s :
  (modify f ≫= k) s = k tt (f s).
Proof. done. Qed.
Lemma bind_ret {S A B} (a : A) (k : A → JS S B) s : (mret a ≫= k) s = k a s.
Proof. done. Qed.

Lemma bind_assoc {S A B C} (m : JS S A) (k : A → JS S B) (k' : B → JS S C) s :
  ((m ≫= k) ≫= k') s = (m ≫= (λ a, k a ≫= k')) s.
Proof. unfold mbind, JS_bind. by destruct (m s) as [[a|e] s']. Qed.

(** ** The loopback: timers and sessions *)

Arguments activate : simpl never.

Lemma call_keeps o st : keeps reconnect_state (call o st).
Proof.
  unfold call. apply keeps_bind; [by apply keeps_modify|intros _].
  destruct (failure o st); [apply keeps_throw|apply keeps_ret].
Qed.

Lemma fire_keeps o st : keeps reconnect_state (fire o st).
Proof. unfold fire. by apply keeps_modify. Qed.

Lemma await_keeps o st : keeps reconnect_state (await o st).
Proof.
  unfold await.
  repeat (apply keeps_bind; [by apply keeps_modify|intros _]).
  destruct (failure o st); [apply keeps_throw|apply keeps_ret].
Qed.

Lemma negotiate_keeps o g lb : keeps reconnect_state (negotiate o g lb).
Proof.
  unfold negotiate.
  repeat (apply keeps_bind;
          [first [apply call_keeps | apply await_keeps | apply fire_keeps
                 | by apply keeps_modify]
          |intros _]).
  by apply keeps_modify.
Qed.

Lemma activate_reconnect_state o g p :
  reconnect_state (activate o g p) = reconnect_state (createSession g p).2.
Proof.
  unfold activate, enableChromeAEC.
  destruct (createSession g p) as [sess p'] eqn:E.
  transitivity (reconnect_state (try_catch (negotiate o g (loopbackDestination sess))
                                   onError p').2); [done|].
  apply (keeps_try_catch reconnect_state).
  - apply negotiate_keeps.
  - intros e. by apply keeps_modify.
Qed.

Lemma activate_timers o g p :
  timeouts (activate o g p) = timeouts p
  ∧ delayedReconnectTimeout (activate o g p) = delayedReconnectTimeout p
  ∧ next_handle (activate o g p) = next_handle p.
Proof.
  pose proof (activate_reconnect_state o g p) as H.
  unfold reconnect_state, createSession in H. simpl in H.
  by simplify_eq.
Qed.

Lemma activate_sessions o g p :
  sessions (activate o g p) = sessions p ++ [(createSession g p).1].
Proof.
  pose proof (activate_reconnect_state o g p) as H.
  unfold reconnect_state, createSession in *. simpl in *.
  by simplify_eq.
Qed.

Lemma clearTimeout_inv p h :
  timer_inv p → delayedReconnectTimeout p = Some h → timeouts (clearTimeout h p) = [].
Proof.
  intros [Hnil|(t & Ht & Hv)] Hh; unfold clearTimeout; simpl.
  - by rewrite Hnil.
  - rewrite Ht. simplify_eq. rewrite filter_cons, decide_False; [done|].
    by intros H; apply H.
Qed.

Lemma performDelayedReconnect_timers g p :
  timer_inv p →
  timeouts (performDelayedReconnect g p) = [mkTimeout (next_handle p) 10000 g]
  ∧ delayedReconnectTimeout (performDelayedReconnect g p) = Some (next_handle p)
  ∧ sessions (performDelayedReconnect g p) = sessions p.
Proof.
  intros Hinv. unfold performDelayedReconnect.
  destruct (delayedReconnectTimeout p) as [h|] eqn:Hv.
  - pose proof (clearTimeout_inv p h Hinv Hv) as Hc.
    unfold setTimeout. simpl in *. by rewrite Hc.
  - destruct Hinv as [Hnil|(t & Ht & Hv')]; [|congruence].
    unfold setTimeout. simpl. by rewrite Hnil.
Qed.

Lemma on_iceconnectionstatechange_inv sess c state p :
  timer_inv p → timer_inv (on_iceconnectionstatechange sess c state p).
Proof.
  intros Hinv. unfold on_iceconnectionstatechange.
  assert (timer_inv (record ConsoleWarn p)) as Hinv' by done.
  destruct state; simpl; try done.
  - destruct (delayedReconnectTimeout p) as [h|] eqn:Hv; [|done].
    left. by apply (clearTimeout_inv (record ConsoleWarn p)).
  - right. eexists. 
    destruct (performDelayedReconnect_timers (session_gainNode sess) _ Hinv')
      as (Ht & Hv & _).
    split; [exact Ht|]. by rewrite Hv.
Qed.


Lemma page_step_inv ev p : timer_inv p → timer_inv (page_step ev p).
Proof.
  intros Hinv. destruct ev as [o g|i c state|i c accepted|h o]; simpl.
  - destruct (activate_timers o g p) as (Ht & Hv & _).
    unfold timer_inv. by rewrite Ht, Hv.
  - destruct (sessions p !! i); [|done].
    by apply on_iceconnectionstatechange_inv.
  - destruct (sessions p !! i); [|done].
    unfold on_icecandidate. by destruct accepted.
  - destruct (filter _ (timeouts p)) as [|t l] eqn:Hf; [done|].
    left. unfold delayedReconnect_callback.
    destruct (activate_timers o (timeout_gainNode t)
                (record ConsoleWarn (set_delayedReconnectTimeout None (clearTimeout h p))))
      as (Ht & _). rewrite Ht. simpl.
    destruct Hinv as [Hnil|(t' & Ht' & Hv)].
    + by rewrite Hnil.
    + rewrite Ht' in *. rewrite filter_cons in Hf.
      rewrite filter_cons. case_decide; [|done].
      rewrite decide_False; [done|]. by intros H'; apply H'.
Qed.

Lemma page_run_snoc evs ev p :
  page_run (evs ++ [ev]) p = page_step ev (page_run evs p).
Proof. unfold page_run. by rewrite foldl_app. Qed.

Lemma reachable_inv ctx p : reachable ctx p → timer_inv p.
Proof.
  intros [evs ->]. induction evs as [|ev evs IH] using rev_ind.
  - by left.
  - rewrite page_run_snoc. by apply page_step_inv.
Qed.

Lemma TimeoutFires_pending o p t :
  timer_inv p → t ∈ timeouts p →
  timeouts (page_step (TimeoutFires (handle t) o) p) = []
  ∧ delayedReconnectTimeout (page_step (TimeoutFires (handle t) o) p) = None
  ∧ sessions (page_step (TimeoutFires (handle t) o) p)
    = sessions p ++ [mkSession (timeout_gainNode t) (host_objects p)
                       (length (nodes (page_ctx p)))
                       (S (host_objects p)) (S (S (host_objects p)))].
Proof.
  intros Hinv Hin.
  assert (timeouts p = [t]) as Ht.
  { destruct Hinv as [Hnil|(t' & Ht' & _)].
    - rewrite Hnil in Hin. by apply elem_of_nil in Hin.
    - rewrite Ht' in Hin. apply list_elem_of_singleton in Hin. by subst. }
  cbn [page_step]. rewrite Ht, filter_cons, decide_True by done.
  unfold delayedReconnect_callback.
  set (q := record ConsoleWarn _).
  destruct (activate_timers o (timeout_gainNode t) q) as (Ht' & Hv' & _).
  rewrite Ht', Hv', activate_sessions. subst q. simpl.
  rewrite Ht, filter_cons, decide_False; [done|]. by intros H; apply H.
Qed.

(** ** The negotiation, for every answer of the browser *)

Lemma bind_call {B} o st (k : unit → JS Page B) p :
  (call o st ≫= k) p
  = match failure o st with
    | Some e => (Throw e, record (Called st (step_ok o st)) p)
    | None => k tt (record (Called st (step_ok o st)) p)
    end.
Proof.
  unfold call. rewrite bind_assoc, bind_modify.
  by destruct (failure o st).
Qed.

Lemma bind_await {B} o st (k : unit → JS Page B) p :
  (await o st ≫= k) p
  = match failure o st with
    | Some e => (Throw e, record (Settled st (step_ok o st))
                            (suspend (record (Started st) p)))
    | None => k tt (record (Settled st (step_ok o st))
                      (suspend (record (Started st) p)))
    end.
Proof.
  unfold await. rewrite bind_assoc, bind_modify, bind_assoc, bind_modify,
    bind_assoc, bind_modify.
  by destruct (failure o st).
Qed.

Lemma bind_fire {B} o st (k : unit → JS Page B) p :
  (fire o st ≫= k) p
  = k tt (set_pending (λ l, l ++ [mkPromise st (step_ok o st) (latency o st)])
            (record (Started st) p)).
Proof. done. Qed.

(** What the negotiation does to the graph is decided by the caught steps
    alone: the outcome of the three description assignments that are not
    awaited plays no part in it. *)
Lemma negotiate_run o g lb p :
  (negotiate o g lb p).1
  = match first_failure o with Some e => Throw e | None => Normal tt end
  ∧ page_ctx (negotiate o g lb p).2
    = match first_failure o with
      | Some _ => page_ctx p
      | None => connect g lb (disconnect g (page_ctx p))
      end.
Proof.
  unfold negotiate, first_failure, caught_steps. cbn [foldr].
  rewrite bind_call. destruct (failure o AddTrack); [done|].
  rewrite bind_await. destruct (failure o CreateOffer); [done|].
  rewrite bind_fire, bind_await.
  destruct (failure o (SetRemoteDescription Inbound _)); [done|].
  rewrite bind_await. destruct (failure o CreateAnswer); [done|].
  rewrite bind_call. destruct (failure o SdpParse); [done|].
  rewrite bind_call. destruct (failure o SdpWrite); [done|].
  rewrite !bind_fire. done.
Qed.

Lemma activate_graph o g p :
  page_ctx (activate o g p)
  = match first_failure o with
    | Some _ => (createMediaStreamDestination (page_ctx p)).2
    | None => connect g (length (nodes (page_ctx p)))
                (disconnect g (createMediaStreamDestination (page_ctx p)).2)
    end.
Proof.
  unfold activate, enableChromeAEC, createSession, createMediaStreamDestination,
    createNode.
  cbv beta iota zeta. unfold try_catch.
  match goal with |- context [negotiate o g ?lb ?q] =>
    destruct (negotiate_run o g lb q) as [H1 H2];
    destruct (negotiate o g lb q) as [[[]|e] q'] eqn:E
  end; simpl in *.
  - destruct (first_failure o); [done|]. by rewrite H2.
  - destruct (first_failure o); [|done]. by rewrite H2.
Qed.

Lemma first_failure_None o :
  first_failure o = None ↔ Forall (λ st, failure o st = None) (caught_steps o).
Proof.
  unfold first_failure. induction (caught_steps o) as [|st l IH]; simpl.
  - split; [constructor|done].
  - rewrite Forall_cons. destruct (failure o st); [|by rewrite IH; intuition].
    split; [done|by intros [? _]].
Qed.

Ltac not_in_list H :=
  repeat (apply elem_of_cons in H as [H|H]; [discriminate H|]);
  by apply elem_of_nil in H.

(** In every activation that re-routes, neither assignment of the answer
    has completed when the final mix node is moved. *)
Lemma reroute_before_answer_settles o g p :
  pending p = [] →
  first_failure o = None →
  ∃ pre post,
    trace (activate o g p)
    = trace p ++ pre
      ++ GainDisconnect g :: GainConnect g (length (nodes (page_ctx p))) :: post
    ∧ (∀ c d ok, Settled (SetLocalDescription c (mkSessionDescription Answer d)) ok ∉ pre)
    ∧ (∀ c d ok, Settled (SetRemoteDescription c (mkSessionDescription Answer d)) ok ∉ pre)
    ∧ (∃ ok, Settled (SetLocalDescription Inbound
                        (mkSessionDescription Answer (rewriteSdp (answer_sdp o)))) ok
             ∈ post)
    ∧ (∃ ok, Settled (SetRemoteDescription Outbound
                        (mkSessionDescription Answer (rewriteSdp (answer_sdp o)))) ok
             ∈ post).
Proof.
  intros Hp Hff. apply first_failure_None in Hff.
  unfold caught_steps in Hff. rewrite !Forall_cons in Hff.
  destruct Hff as (H1 & H2 & H3 & H4 & H5 & H6 & _).
  unfold activate, enableChromeAEC, createSession, createMediaStreamDestination,
    createNode.
  cbv beta iota zeta. unfold try_catch, negotiate.
  rewrite bind_call, H1, bind_await, H2, bind_fire, bind_await, H3, bind_await, H4,
    bind_call, H5, bind_call, H6, !bind_fire.
  unfold gainNode_disconnect, gainNode_connect. rewrite bind_modify.
  unfold modify, settle_pending, suspend. simpl. rewrite Hp. simpl.
  destruct (latency o _) as [|[|n]]; simpl; rewrite <- !app_assoc; simpl.
  - eexists [_;_;_;_;_;_;_;_;_;_;_;_;_], [_;_]. split; [reflexivity|].
    split_and!.
    + intros c d ok Hin. not_in_list Hin.
    + intros c d ok Hin. not_in_list Hin.
    + eexists. apply list_elem_of_here.
    + eexists. apply list_elem_of_further, list_elem_of_here.
  - eexists [_;_;_;_;_;_;_;_;_;_;_;_;_], [_;_]. split; [reflexivity|].
    split_and!.
    + intros c d ok Hin. not_in_list Hin.
    + intros c d ok Hin. not_in_list Hin.
    + eexists. apply list_elem_of_here.
    + eexists. apply list_elem_of_further, list_elem_of_here.
  - eexists [_;_;_;_;_;_;_;_;_;_;_;_], [_;_;_]. split; [reflexivity|].
    split_and!.
    + intros c d ok Hin. not_in_list Hin.
    + intros c d ok Hin. not_in_list Hin.
    + eexists. apply list_elem_of_further, list_elem_of_here.
    + eexists. do 2 apply list_elem_of_further. apply list_elem_of_here.
Qed.

(** ** C1, C2: the negotiation and the re-routing *)

(** C1 (the code departs from the claim). The inbound connection rejects
    the rewritten answer as its local description. The promise of that call
    is not awaited, so the rejection reaches no [catch]: nothing is logged,
    and the final mix node, which fed the real destination before the
    activation, is disconnected from it and feeds the loopback sink alone. *)
Theorem rejected_description_still_reroutes :
  trace (activate answer_rejected (destinationGain sys0) page0)
  = [Called AddTrack true;
     Started CreateOffer; Settled CreateOffer true;
     Started (SetLocalDescription Outbound the_offer);
     Started (SetRemoteDescription Inbound the_offer);
     Settled (SetLocalDescription Outbound the_offer) true;
     Settled (SetRemoteDescription Inbound the_offer) true;
     Started CreateAnswer; Settled CreateAnswer true;
     Called SdpParse true; Called SdpWrite true;
     Started (SetLocalDescription Inbound the_answer);
     Started (SetRemoteDescription Outbound the_answer);
     GainDisconnect (destinationGain sys0);
     GainConnect (destinationGain sys0) 10;
     Settled (SetLocalDescription Inbound the_answer) false;
     Settled (SetRemoteDescription Outbound the_answer) true]
  ∧ outputs (destinationGain sys0) (page_ctx page0) = [ctx_destination]
  ∧ outputs (destinationGain sys0)
      (page_ctx (activate answer_rejected (destinationGain sys0) page0)) = [10]
  ∧ nodes (page_ctx (activate answer_rejected (destinationGain sys0) page0)) !! 10
    = Some MediaStreamAudioDestinationNode.
Proof. by vm_compute. Qed.

(** C2 (the code departs from the claim). In the activation in which every
    step succeeds, the final mix node is moved to the loopback sink right
    after the two calls that hand the answer to the connections, in the same
    run of synchronous statements: both of these description assignments
    complete after the re-routing, not before it. *)
Theorem reroute_precedes_answer_descriptions :
  trace (activate all_ok (destinationGain sys0) page0)
  = [Called AddTrack true;
     Started CreateOffer; Settled CreateOffer true;
     Started (SetLocalDescription Outbound the_offer);
     Started (SetRemoteDescription Inbound the_offer);
     Settled (SetLocalDescription Outbound the_offer) true;
     Settled (SetRemoteDescription Inbound the_offer) true;
     Started CreateAnswer; Settled CreateAnswer true;
     Called SdpParse true; Called SdpWrite true;
     Started (SetLocalDescription Inbound the_answer);
     Started (SetRemoteDescription Outbound the_answer);
     GainDisconnect (destinationGain sys0);
     GainConnect (destinationGain sys0) 10;
     Settled (SetLocalDescription Inbound the_answer) true;
     Settled (SetRemoteDescription Outbound the_answer) true].
Proof. by vm_compute. Qed.

(** ** C3, C4: the reconnect timer *)

(** C3, the claim as it is stated, fails: after an activation, a
    "disconnected" event and the firing of the reconnect timer, two sessions
    are live, the first one among them. *)
Lemma liveSessions_exceed_one :
  ¬ (length (liveSessions
               (page_run [Activate all_ok (destinationGain sys0);
                          IceConnectionStateChange 0 Inbound IceDisconnected;
                          TimeoutFires 1 all_ok] page0)) ≤ 1)
  ∧ timeouts page_disconnected = [mkTimeout 1 10000 (destinationGain sys0)].
Proof. vm_compute. split; [lia|done]. Qed.

(** C3, amended. On every reachable page at most one reconnect timer is
    scheduled. When it fires, no timer is left, exactly one new session is
    created, and every session that was live stays live: its peer
    connections are not closed. *)
Theorem one_reconnect_timer_sessions_accumulate ctx p t o :
  reachable ctx p →
  length (timeouts p) ≤ 1
  ∧ (t ∈ timeouts p →
     timeouts (page_step (TimeoutFires (handle t) o) p) = []
     ∧ liveSessions (page_step (TimeoutFires (handle t) o) p)
       = liveSessions p ++ [mkSession (timeout_gainNode t) (host_objects p)
                              (length (nodes (page_ctx p)))
                              (S (host_objects p)) (S (S (host_objects p)))]).
Proof.
  intros Hr. pose proof (reachable_inv _ _ Hr) as Hinv. split.
  - destruct Hinv as [->|(t' & -> & _)]; simpl; lia.
  - intros Hin. destruct (TimeoutFires_pending o p t Hinv Hin) as (H1 & _ & H3).
    done.
Qed.

Lemma one_reconnect_timer_sessions_accumulate_witness :
  length (timeouts page_disconnected) ≤ 1
  ∧ timeouts (page_step (TimeoutFires (handle (mkTimeout 1 10000 2)) all_ok)
                page_disconnected) = []
  ∧ liveSessions (page_step (TimeoutFires (handle (mkTimeout 1 10000 2)) all_ok)
                    page_disconnected)
    = liveSessions page_disconnected
      ++ [mkSession (timeout_gainNode (mkTimeout 1 10000 2))
            (host_objects page_disconnected)
            (length (nodes (page_ctx page_disconnected)))
            (S (host_objects page_disconnected))
            (S (S (host_objects page_disconnected)))].
Proof.
  destruct (one_reconnect_timer_sessions_accumulate (audioContext sys0)
              page_disconnected (mkTimeout 1 10000 2) all_ok) as [H1 H2].
  - eexists. reflexivity.
  - split; [exact H1|]. apply H2. vm_compute. apply list_elem_of_here.
Defined.

(** C4. On a reachable page, for either connection of any session: a
    change to "disconnected" leaves exactly one timer scheduled, a new one
    with a delay of 10000 ms that replaces the one that was pending; a change
    to "connected" leaves no timer scheduled and creates no session, and no
    firing can follow it. *)
Theorem ice_state_drives_reconnect_timer ctx p i c sess :
  reachable ctx p →
  sessions p !! i = Some sess →
  (timeouts (page_step (IceConnectionStateChange i c IceDisconnected) p)
   = [mkTimeout (next_handle p) 10000 (session_gainNode sess)]
   ∧ sessions (page_step (IceConnectionStateChange i c IceDisconnected) p) = sessions p)
  ∧ (timeouts (page_step (IceConnectionStateChange i c IceConnected) p) = []
     ∧ sessions (page_step (IceConnectionStateChange i c IceConnected) p) = sessions p
     ∧ ∀ h o, page_step (TimeoutFires h o)
                (page_step (IceConnectionStateChange i c IceConnected) p)
              = page_step (IceConnectionStateChange i c IceConnected) p).
Proof.
  intros Hr Hs. pose proof (reachable_inv _ _ Hr) as Hinv.
  assert (timer_inv (record ConsoleWarn p)) as Hinv' by done.
  cbn [page_step]. rewrite Hs. unfold on_iceconnectionstatechange.
  rewrite (bool_decide_true (IceDisconnected = IceDisconnected)) by done.
  rewrite (bool_decide_false (IceDisconnected = IceConnected)) by done.
  rewrite (bool_decide_false (IceConnected = IceDisconnected)) by done.
  rewrite (bool_decide_true (IceConnected = IceConnected)) by done.
  split.
  - destruct (performDelayedReconnect_timers (session_gainNode sess) _ Hinv')
      as (Ht & _ & Hss). by rewrite Ht, Hss.
  - change (delayedReconnectTimeout (record ConsoleWarn p))
      with (delayedReconnectTimeout p).
    assert (timeouts (match delayedReconnectTimeout p with
                      | Some h => clearTimeout h (record ConsoleWarn p)
                      | None => record ConsoleWarn p
                      end) = []) as Hnil.
    { destruct (delayedReconnectTimeout p) as [h|] eqn:Hv.
      - by apply (clearTimeout_inv (record ConsoleWarn p)).
      - destruct Hinv as [Hnil|(t & _ & Hv')]; [done|congruence]. }
    split; [done|]. split.
    + by destruct (delayedReconnectTimeout p).
    + intros h o. by rewrite Hnil.
Qed.

Lemma ice_state_drives_reconnect_timer_witness :
  timeouts (page_step (IceConnectionStateChange 0 Outbound IceDisconnected)
              page_disconnected)
  = [mkTimeout (next_handle page_disconnected) 10000
       (session_gainNode (mkSession 2 0 10 1 2))]
  ∧ timeouts (page_step (IceConnectionStateChange 0 Outbound IceConnected)
                page_disconnected) = []
  ∧ sessions (page_step (IceConnectionStateChange 0 Outbound IceConnected)
                page_disconnected) = sessions page_disconnected.
Proof.
  destruct (ice_state_drives_reconnect_timer (audioContext sys0)
              page_disconnected 0 Outbound (mkSession 2 0 10 1 2))
    as [[H1 _] [H2 [H3 _]]].
  - eexists. reflexivity.
  - vm_compute. reflexivity.
  - split; [exact H1|]. split; [exact H2|exact H3].
Defined.

(** ** The audio system: running its methods *)



Lemma emit_emit_all e s : emit e s = emit_all [e] s.
Proof. done. Qed.

Lemma emit_all_nil s : emit_all [] s = s.
Proof. destruct s. unfold emit_all. simpl. by rewrite app_nil_r. Qed.

Lemma emit_all_app l1 l2 s : emit_all l2 (emit_all l1 s) = emit_all (l1 ++ l2) s.
Proof. unfold emit_all. simpl. by rewrite app_assoc. Qed.

Lemma mixer_node_run key n s :
  mixer s !! key = Some n → mixer_node key s = (Normal n, s).
Proof.
  intros H. unfold mixer_node, mbind, JS_bind, get, mixer_get.
  cbv beta iota. by rewrite H.
Qed.

Lemma mixer_setTargetAtTime_run env key g n s :
  mixer s !! key = Some n →
  mixer_setTargetAtTime env key g s
  = (Normal tt, emit (EParamSetTargetAtTime n g (currentTime env) (GAIN_TIME_CONST env)) s).
Proof.
  intros H. unfold mixer_setTargetAtTime.
  by rewrite (bind_run _ _ _ _ _ (mixer_node_run _ _ _ H)).
Qed.

Lemma mixer_disconnect_run key n s :
  mixer s !! key = Some n →
  mixer_disconnect key s
  = (Normal tt, emit (ENodeDisconnect n) (set_audioContext (disconnect n) s)).
Proof.
  intros H. unfold mixer_disconnect.
  by rewrite (bind_run _ _ _ _ _ (mixer_node_run _ _ _ H)).
Qed.

Lemma mixer_connect_run key dest n s :
  mixer s !! key = Some n →
  mixer_connect key dest s
  = (Normal tt, emit (ENodeConnect n dest) (set_audioContext (connect n dest) s)).
Proof.
  intros H. unfold mixer_connect.
  by rewrite (bind_run _ _ _ _ _ (mixer_node_run _ _ _ H)).
Qed.

Lemma updateAudio_run env r u k audio s :
  updateAudio env r u k audio s = (Normal tt, emit_all (audio_calls env r u (k, audio)) s).
Proof.
  unfold updateAudio, audio_calls, technique_mismatch.
  destruct r.
  - destruct (_ || _); [|by rewrite emit_all_nil].
    destruct (isPositionalAudio (swapAudioType env k audio)).
    + unfold mbind, JS_bind, modify. cbv beta iota.
      by rewrite !emit_emit_all, emit_all_app.
    + unfold mbind, JS_bind, modify, mret, JS_ret. cbv beta iota.
      by rewrite emit_emit_all.
  - destruct u; [done|by rewrite emit_all_nil].
Qed.

Lemma forEach_updateAudio env r u l s :
  forEach l (λ '(elOrEid, audio), updateAudio env r u elOrEid audio) s
  = (Normal tt, emit_all (flat_map (audio_calls env r u) l) s).
Proof.
  revert s. induction l as [|[k audio] l IH]; intros s.
  - cbn. by rewrite emit_all_nil.
  - cbn [forEach flat_map].
    rewrite (bind_run _ _ _ _ _ (updateAudio_run _ _ _ _ _ _)).
    by rewrite IH, emit_all_app.
Qed.




Ltac js_step :=
  first
    [ rewrite bind_assoc
    | rewrite bind_get
    | rewrite bind_modify
    | rewrite bind_ret
    | erewrite (bind_run (mixer_disconnect _))
        by (apply mixer_disconnect_run; simpl; eassumption)
    | erewrite (bind_run (mixer_connect _ _))
        by (apply mixer_connect_run; simpl; eassumption)
    | erewrite (bind_run (mixer_setTargetAtTime _ _ _))
        by (apply mixer_setTargetAtTime_run; simpl; eassumption) ].

Lemma rerouteOutput_run env mdm s a m f :
  mixer_wired env s a m f →
  ∃ s' rest,
    rerouteOutput env mdm s = (Normal tt, s')
    ∧ mixer s' = mixer s
    ∧ disableLeftRightPanning s' = disableLeftRightPanning s
    ∧ audioPanningQuality s' = audioPanningQuality s
    ∧ effects s' = effects s ++
        reroute_calls a m f
          (if bool_decide (selectedSpeakersDeviceId mdm = defaultOutputDeviceId mdm)
           then destinationGain s else audioDestination s) (mixerAnalyser s) ++ rest
    ∧ Forall (λ e, is_node_call e = false ∧ is_param_call e = false
                   ∧ is_panning_call e = false) rest.
Proof.
  intros (Ha & Hm & Hf). unfold rerouteOutput.
  repeat js_step.
  destruct (bool_decide (selectedSpeakersDeviceId mdm = defaultOutputDeviceId mdm)).
  - destruct (outputMediaAudio s) as [el|].
    + repeat js_step. eexists _, _. split; [reflexivity|].
      simpl. rewrite <- !app_assoc. simpl.
      split_and!; [reflexivity..|repeat constructor].
    + eexists _, []. split; [reflexivity|].
      simpl. rewrite <- !app_assoc. simpl.
        split_and!; [reflexivity..|constructor].
  - destruct (outputMediaAudio s) as [el|] eqn:Hel.
    + repeat js_step. 
      match goal with |- context [bool_decide ?P] => destruct (bool_decide P) end.
      * eexists _, _. split; [reflexivity|].
        simpl. rewrite <- !app_assoc. simpl.
        split_and!; [reflexivity..|repeat constructor].
      * eexists _, []. split; [reflexivity|].
        simpl. rewrite <- !app_assoc. simpl.
        split_and!; [reflexivity..|constructor].
    + repeat js_step.
      match goal with |- context [bool_decide ?P] => destruct (bool_decide P) end.
      * eexists _, _. split; [reflexivity|].
        simpl. rewrite <- !app_assoc. simpl.
        split_and!; [reflexivity..|repeat constructor].
      * eexists _, []. split; [reflexivity|].
        simpl. rewrite <- !app_assoc. simpl.
        split_and!; [reflexivity..|constructor].
Qed.


Lemma shouldReroute_false s mdm :
  shouldReroute s mdm = false ↔
  (outputMediaAudio_sinkId s = Some (selectedSpeakersDeviceId mdm)
   ∨ (outputMediaAudio s = None
      ∧ selectedSpeakersDeviceId mdm = defaultOutputDeviceId mdm)).
Proof.
  unfold shouldReroute.
  rewrite andb_false_iff, orb_false_iff, negb_false_iff, !bool_decide_eq_false,
    bool_decide_eq_true.
  split.
  - intros [[Hel Hd]|Hs].
    + right. split; [|done]. destruct (outputMediaAudio s); [|done].
      exfalso. apply Hel. by eexists.
    + left. destruct (decide (Some (selectedSpeakersDeviceId mdm)
                              = outputMediaAudio_sinkId s)) as [<-|Hne]; [done|].
      by destruct Hs.
  - intros [Hs|[Hel Hd]].
    + right. intros Hne. by rewrite Hs in Hne.
    + left. split; [|done]. rewrite Hel. by intros [? ?].
Qed.

Lemma routeOutput_run env s a m f :
  mixer_wired env s a m f →
  ∃ s' route,
    routeOutput env s = (Normal tt, s')
    ∧ mixer s' = mixer s
    ∧ disableLeftRightPanning s' = disableLeftRightPanning s
    ∧ audioPanningQuality s' = audioPanningQuality s
    ∧ effects s' = effects s ++ route
    ∧ Forall (λ e, is_param_call e = false ∧ is_panning_call e = false) route
    ∧ (output_in_place env s → route = [])
    ∧ (¬ output_in_place env s →
       ∃ mdm rest,
         mediaDevicesManager env = Some mdm
         ∧ route = reroute_calls a m f
             (if bool_decide (selectedSpeakersDeviceId mdm = defaultOutputDeviceId mdm)
              then destinationGain s else audioDestination s) (mixerAnalyser s) ++ rest
         ∧ Forall (λ e, is_node_call e = false) rest).
Proof.
  intros Hw. unfold routeOutput, output_in_place.
  destruct (isAudioOutputSelectEnabled env).
  2:{ exists s, []. rewrite app_nil_r. split_and!; try done.
      intros H. destruct H. by left. }
  destruct (mediaDevicesManager env) as [mdm|].
  2:{ exists s, []. rewrite app_nil_r. split_and!; try done.
      intros H. destruct H. by right. }
  rewrite bind_get.
  destruct (shouldReroute s mdm) eqn:Hg.
  - destruct (rerouteOutput_run env mdm s a m f Hw)
      as (s' & rest & Hrun & Hmix & Hd & Hq & Heff & Hrest).
    exists s', (reroute_calls a m f
      (if bool_decide (selectedSpeakersDeviceId mdm = defaultOutputDeviceId mdm)
       then destinationGain s else audioDestination s) (mixerAnalyser s) ++ rest).
    split_and!; try done.
    + apply Forall_app. split.
      * repeat constructor.
      * eapply Forall_impl; [exact Hrest|]. by intros e (_ & ? & ?).
    + intros [?|Hin]; [done|]. apply shouldReroute_false in Hin. congruence.
    + intros _. exists mdm, rest. split_and!; try done.
      eapply Forall_impl; [exact Hrest|]. by intros e (? & _ & _).
  - exists s, []. rewrite app_nil_r. split_and!; try done.
    intros H. destruct H. right. by apply shouldReroute_false.
Qed.

Lemma updatePrefs_run env s a m f :
  mixer_wired env s a m f →
  ∃ route,
    (updatePrefs env s).1 = Normal tt
    ∧ effects (updatePrefs env s).2 = effects s ++
        [EParamSetTargetAtTime m (globalMediaVolume (preferences env) / 100)%Q
           (currentTime env) (GAIN_TIME_CONST env);
         EParamSetTargetAtTime f (globalSFXVolume (preferences env) / 100)%Q
           (currentTime env) (GAIN_TIME_CONST env);
         EParamSetTargetAtTime a (globalVoiceVolume (preferences env) / 100)%Q
           (currentTime env) (GAIN_TIME_CONST env)]
        ++ route
        ++ flat_map
             (audio_calls env
                (bool_decide (disableLeftRightPanning s
                              ≠ pref_disableLeftRightPanning (preferences env)))
                (bool_decide (audioPanningQuality s
                              ≠ pref_audioPanningQuality (preferences env))))
             (audios env)
    ∧ Forall (λ e, is_param_call e = false ∧ is_panning_call e = false) route
    ∧ (output_in_place env s → route = [])
    ∧ (¬ output_in_place env s →
       ∃ mdm rest,
         mediaDevicesManager env = Some mdm
         ∧ route = reroute_calls a m f
             (if bool_decide (selectedSpeakersDeviceId mdm = defaultOutputDeviceId mdm)
              then destinationGain s else audioDestination s) (mixerAnalyser s) ++ rest
         ∧ Forall (λ e, is_node_call e = false) rest).
Proof.
  intros Hw. pose proof Hw as (Ha & Hm & Hf). unfold updatePrefs.
  do 3 js_step.
  match goal with |- context [(routeOutput env ≫= _) ?s0] => set (s1 := s0) end.
  destruct (routeOutput_run env s1 a m f Hw)
    as (s' & route & Hrun & Hmix & Hd & Hq & Heff & Hparam & Hin & Hout).
  exists route.
  rewrite (bind_run _ _ _ _ _ Hrun), bind_get, bind_modify, forEach_updateAudio.
  rewrite Hd, Hq. split_and!; try done.
  simpl. rewrite Heff. simpl. by rewrite <- !app_assoc.
Qed.



Lemma issued_app {A} (m : JS AudioSystem A) s l :
  effects (m s).2 = effects s ++ l → issued m s = l.
Proof. intros H. unfold issued. by rewrite H, drop_app_length. Qed.

Lemma audio_calls_not_param env r u l :
  Forall (λ e, is_param_call e = false) (flat_map (audio_calls env r u) l).
Proof.
  induction l as [|[k audio] l IH]; [constructor|].
  cbn [flat_map]. apply Forall_app. split; [|done].
  unfold audio_calls. destruct r.
  - destruct (technique_mismatch _ _ _); [|constructor].
    destruct (isPositionalAudio _); repeat constructor.
  - destruct u; repeat constructor.
Qed.

Lemma audio_calls_not_node env r u l :
  Forall (λ e, is_node_call e = false) (flat_map (audio_calls env r u) l).
Proof.
  induction l as [|[k audio] l IH]; [constructor|].
  cbn [flat_map]. apply Forall_app. split; [|done].
  unfold audio_calls. destruct r.
  - destruct (technique_mismatch _ _ _); [|constructor].
    destruct (isPositionalAudio _); repeat constructor.
  - destruct u; repeat constructor.
Qed.

Lemma volume_in_range (v : Q) :
  (0 <= v)%Q → (v <= 100)%Q → (0 <= v / 100)%Q ∧ (v / 100 <= 1)%Q.
Proof.
  intros H0 H1. split.
  - apply Qle_shift_div_l; [reflexivity|]. by rewrite Qmult_0_l.
  - apply Qle_shift_div_r; [reflexivity|]. by rewrite Qmult_1_l.
Qed.

(** ** C5: a rejected redirect

    The update moves the category nodes before the redirect settles and
    attaches a fulfilment callback only. The statement that holds of every
    such update comes with the properties of the routing step further
    down, as C5, amended. *)


(** ** C6: output routing *)

Lemma filter_node_calls_none (l : list Effect) :
  Forall (λ e, is_node_call e = false) l → filter is_node_call l = [].
Proof.
  induction 1 as [|e l He Hl IH]; [done|].
  rewrite filter_cons, decide_False; [exact IH|].
  rewrite He. by intros [].
Qed.

(** C6, amended. A preference update disconnects and reconnects the
    category gain nodes exactly when the output is not in place: output
    selection is on, a media-devices manager exists, and the selected sink id
    differs from the sink id the hidden element is on, where a missing hidden
    element differs from every sink id but the default one. When the output
    is in place the update makes no connect or disconnect call; otherwise it
    makes the nine calls that move the three category nodes. *)
Theorem reroute_only_when_output_not_in_place env s a m f :
  mixer_wired env s a m f →
  (output_in_place env s → filter is_node_call (issued (updatePrefs env) s) = [])
  ∧ (¬ output_in_place env s →
     ∃ mdm,
       mediaDevicesManager env = Some mdm
       ∧ filter is_node_call (issued (updatePrefs env) s)
         = reroute_calls a m f
             (if bool_decide (selectedSpeakersDeviceId mdm = defaultOutputDeviceId mdm)
              then destinationGain s else audioDestination s) (mixerAnalyser s)).
Proof.
  intros Hw.
  destruct (updatePrefs_run env s a m f Hw) as (route & _ & Heff & _ & Hin & Hout).
  rewrite (issued_app _ _ _ Heff).
  rewrite !filter_app.
  rewrite (filter_node_calls_none (flat_map _ _)) by apply audio_calls_not_node.
  rewrite app_nil_r. split.
  - intros H. by rewrite (Hin H).
  - intros H. destruct (Hout H) as (mdm & rest & Hmdm & -> & Hrest).
    exists mdm. split; [done|].
    rewrite filter_app, (filter_node_calls_none rest) by done.
    by rewrite app_nil_r.
Qed.

Lemma reroute_only_when_output_not_in_place_witness :
  ∃ mdm,
    mediaDevicesManager env_explicit = Some mdm
    ∧ filter is_node_call (issued (updatePrefs env_explicit) sys0)
      = reroute_calls 7 6 8
          (if bool_decide (selectedSpeakersDeviceId mdm = defaultOutputDeviceId mdm)
           then destinationGain sys0 else audioDestination sys0)
          (mixerAnalyser sys0).
Proof.
  apply (reroute_only_when_output_not_in_place env_explicit sys0 7 6 8).
  - by vm_compute.
  - intros H. vm_compute in H. destruct H as [H|[H|[_ H]]]; discriminate H.
Defined.

(** C6, the claim as it is stated, fails: "speakers-1" is selected, the
    redirect of the hidden element to it is rejected, and the next
    preference update, with the same device still selected, disconnects and
    reconnects the three category nodes again. *)
Lemma unchanged_device_rerouted_again :
  selectedSpeakersDeviceId <$> mediaDevicesManager env_explicit = Some "speakers-1"
  ∧ filter is_node_call (issued (updatePrefs env_explicit) sys0)
    = reroute_calls 7 6 8 3 9
  ∧ filter is_node_call
      (issued (updatePrefs env_explicit)
         (settleSetSinkId 0 false (updatePrefs env_explicit sys0).2))
    = reroute_calls 7 6 8 3 9.
Proof. by vm_compute. Qed.

(** ** C7: the outbound stream registry *)

Lemma outputs_disconnect_eq a ctx : outputs a (disconnect a ctx) = [].
Proof.
  unfold outputs, disconnect. simpl. rewrite list_filter_filter.
  induction (edges ctx) as [|[x y] l IH]; [done|].
  rewrite filter_cons, decide_False; [done|]. by intros [? ?].
Qed.

Lemma outputs_disconnect_ne a c ctx :
  a ≠ c → outputs c (disconnect a ctx) = outputs c ctx.
Proof.
  intros Hne. unfold outputs, disconnect. simpl. f_equal.
  rewrite list_filter_filter. apply list_filter_iff.
  intros [x y]. simpl. split; [by intros [? _]|]. intros ->. split; [done|congruence].
Qed.

Lemma outputs_disconnect_nil a c ctx :
  outputs c ctx = [] → outputs c (disconnect a ctx) = [].
Proof.
  intros H. destruct (decide (a = c)) as [->|Hne].
  - apply outputs_disconnect_eq.
  - by rewrite outputs_disconnect_ne.
Qed.

Lemma outputs_connect_ne a b c ctx :
  a ≠ c → outputs c (connect a b ctx) = outputs c ctx.
Proof.
  intros Hne. unfold outputs, connect. case_bool_decide; [done|]. simpl.
  rewrite filter_app, filter_cons, decide_False by done.
  by rewrite filter_nil, app_nil_r.
Qed.

Lemma outputs_connect_new a b ctx :
  outputs a ctx = [] → outputs a (connect a b ctx) = [b].
Proof.
  intros Hnil. unfold connect. case_bool_decide as Hin.
  - exfalso. unfold outputs in Hnil.
    assert (b ∈ (filter (λ e, e.1 = a) (edges ctx)).*2) as Hb.
    { apply list_elem_of_fmap. exists (a, b). split; [done|].
      by apply list_elem_of_filter. }
    rewrite Hnil in Hb. by apply elem_of_nil in Hb.
  - unfold outputs in *. simpl.
    rewrite filter_app, fmap_app, Hnil, filter_cons, decide_True by done.
    done.
Qed.

Lemma outputs_createNode k c ctx : outputs c (createNode k ctx).2 = outputs c ctx.
Proof. done. Qed.

Lemma outputs_fresh ctx n :
  ctx_wf ctx → length (nodes ctx) ≤ n → outputs n ctx = [].
Proof.
  unfold ctx_wf, outputs. intros Hwf Hn.
  induction Hwf as [|[x y] l Hx _ IH]; [done|].
  rewrite filter_cons, decide_False; [done|]. simpl in *. lia.
Qed.

Lemma ctx_wf_disconnect a ctx : ctx_wf ctx → ctx_wf (disconnect a ctx).
Proof.
  unfold ctx_wf, disconnect. simpl. rewrite !Forall_forall.
  intros H e [_ He]%list_elem_of_filter. by apply H.
Qed.

Lemma ctx_wf_connect a b ctx :
  a < length (nodes ctx) → ctx_wf ctx → ctx_wf (connect a b ctx).
Proof.
  intros Ha Hwf. unfold ctx_wf, connect. case_bool_decide; [done|]. simpl.
  apply Forall_app. split; [done|]. by constructor.
Qed.

Lemma ctx_wf_createNode k ctx : ctx_wf ctx → ctx_wf (createNode k ctx).2.
Proof.
  unfold ctx_wf, createNode. simpl. intros H.
  eapply Forall_impl; [exact H|]. intros e He. simpl in *.
  rewrite length_app. simpl. lia.
Qed.

Lemma removeStream_run id s :
  ∃ s', removeStreamFromOutboundAudio id s = (Normal tt, s')
    ∧ audioNodes s' = delete id (audioNodes s)
    ∧ nodes (audioContext s') = nodes (audioContext s)
    ∧ outboundGainNode s' = outboundGainNode s
    ∧ (ctx_wf (audioContext s) → ctx_wf (audioContext s'))
    ∧ (∀ c, outputs c (audioContext s) = [] → outputs c (audioContext s') = [])
    ∧ (∀ src g, audioNodes s !! id = Some (src, g) →
         outputs src (audioContext s') = [] ∧ outputs g (audioContext s') = []).
Proof.
  unfold removeStreamFromOutboundAudio. rewrite bind_get.
  destruct (audioNodes s !! id) as [[src g]|] eqn:Hid.
  - eexists. split; [reflexivity|]. simpl. split_and!; try done.
    + intros Hwf. by do 2 apply ctx_wf_disconnect.
    + intros c Hc. by do 2 apply outputs_disconnect_nil.
    + intros ? ? [= <- <-]. split.
      * apply outputs_disconnect_nil, outputs_disconnect_eq.
      * apply outputs_disconnect_eq.
  - exists s. split; [done|]. split_and!; try done.
    by rewrite delete_id.
Qed.

Lemma nodes_connect a b ctx : nodes (connect a b ctx) = nodes ctx.
Proof. unfold connect. by case_bool_decide. Qed.

Lemma removeStream_if id s :
  (if bool_decide (is_Some (audioNodes s !! id))
   then removeStreamFromOutboundAudio id else mret tt) s
  = removeStreamFromOutboundAudio id s.
Proof.
  case_bool_decide as H; [done|].
  unfold removeStreamFromOutboundAudio. rewrite bind_get.
  destruct (audioNodes s !! id) as [[src g]|]; [|done].
  destruct H. by eexists.
Qed.

Lemma addStream_run id ms s :
  ctx_wf (audioContext s) →
  ∃ s', addStreamToOutboundAudio id ms s = (Normal tt, s')
    ∧ audioNodes s'
      = <[id := (length (nodes (audioContext s)), S (length (nodes (audioContext s))))]>
          (audioNodes s)
    ∧ nodes (audioContext s')
      = nodes (audioContext s) ++ [MediaStreamAudioSourceNode ms; GainNode]
    ∧ outboundGainNode s' = outboundGainNode s
    ∧ ctx_wf (audioContext s')
    ∧ outputs (length (nodes (audioContext s))) (audioContext s')
      = [S (length (nodes (audioContext s)))]
    ∧ outputs (S (length (nodes (audioContext s)))) (audioContext s')
      = [outboundGainNode s]
    ∧ (∀ src g, audioNodes s !! id = Some (src, g) →
         src < length (nodes (audioContext s)) → g < length (nodes (audioContext s)) →
         outputs src (audioContext s') = [] ∧ outputs g (audioContext s') = []).
Proof.
  intros Hwf. unfold addStreamToOutboundAudio.
  rewrite bind_get.
  destruct (removeStream_run id s)
    as (s0 & Hrun & Hreg & Hnodes & Hout & Hwf0 & Hnil & Hold).
  specialize (Hwf0 Hwf).
  rewrite (bind_run _ _ _ _ _ (eq_trans (removeStream_if id s) Hrun)).
  rewrite bind_get.
  unfold createMediaStreamSource, createGain, createNode, node_connect.
  cbv beta iota zeta. repeat js_step.
  set (n := length (nodes (audioContext s))).
  eexists. split; [reflexivity|]. simpl. rewrite Hnodes, Hreg, Hout.
  rewrite (length_app (nodes (audioContext s))). simpl length.
  rewrite Nat.add_1_r. fold n.
  assert (outputs n (audioContext s0) = []) as Hn.
  { apply Hnil, outputs_fresh; [done|]. subst n. lia. }
  assert (outputs (S n) (audioContext s0) = []) as HSn.
  { apply Hnil, outputs_fresh; [done|]. subst n. lia. }
  set (ctx1 := {| nodes := _; edges := edges (audioContext s0) |}).
  assert (length (nodes ctx1) = S (S n)) as Hlen.
  { subst ctx1 n. simpl. rewrite !length_app. simpl. lia. }
  assert (ctx_wf ctx1) as Hwf1.
  { unfold ctx_wf in *. rewrite Hlen.
    eapply Forall_impl; [exact Hwf0|]. intros e He. simpl in *.
    rewrite Hnodes in He. fold n in He. lia. }
  assert (outputs n ctx1 = []) as Hn1 by done.
  assert (outputs (S n) ctx1 = []) as HSn1 by done.
  split_and!.
  - by rewrite insert_delete_eq.
  - rewrite !nodes_connect. subst ctx1. simpl. by rewrite <- app_assoc.
  - done.
  - apply ctx_wf_connect.
    + rewrite nodes_connect. lia.
    + apply ctx_wf_connect; [lia|done].
  - rewrite outputs_connect_ne by lia. by apply outputs_connect_new.
  - apply outputs_connect_new. by rewrite outputs_connect_ne by lia.
  - intros src g Hid Hsrc Hg. destruct (Hold src g Hid) as [H1 H2].
    rewrite !outputs_connect_ne by lia. done.
Qed.

(** C7. After [addStreamToOutboundAudio (id, ms1)] and then
    [addStreamToOutboundAudio (id, ms2)], both of which return normally, the
    registry holds under [id] the pair created by the second call: a source
    node of [ms2] connected to its gain node alone, which is connected to the
    outbound gain node alone. The pair the first call had registered is
    disconnected, and no other identifier's entry has changed. *)
Theorem addStream_twice_leaves_one_pair id ms1 ms2 s s1 s2 n :
  ctx_wf (audioContext s) →
  n = length (nodes (audioContext s)) →
  s1 = (addStreamToOutboundAudio id ms1 s).2 →
  s2 = (addStreamToOutboundAudio id ms2 s1).2 →
  (addStreamToOutboundAudio id ms1 s).1 = Normal tt
  ∧ (addStreamToOutboundAudio id ms2 s1).1 = Normal tt
  ∧ audioNodes s1 !! id = Some (n, S n)
  ∧ audioNodes s2 !! id = Some (S (S n), S (S (S n)))
  ∧ nodes (audioContext s2) !! S (S n) = Some (MediaStreamAudioSourceNode ms2)
  ∧ nodes (audioContext s2) !! S (S (S n)) = Some GainNode
  ∧ outputs (S (S n)) (audioContext s2) = [S (S (S n))]
  ∧ outputs (S (S (S n))) (audioContext s2) = [outboundGainNode s]
  ∧ outputs n (audioContext s2) = []
  ∧ outputs (S n) (audioContext s2) = []
  ∧ (∀ k, k ≠ id → audioNodes s2 !! k = audioNodes s !! k).
Proof.
  intros Hwf -> -> ->.
  destruct (addStream_run id ms1 s Hwf)
    as (s1 & Hrun1 & Hreg1 & Hnodes1 & Hout1 & Hwf1 & _).
  rewrite Hrun1. simpl.
  destruct (addStream_run id ms2 s1 Hwf1)
    as (s2 & Hrun2 & Hreg2 & Hnodes2 & Hout2 & _ & Hsrc & Hg & Hold).
  rewrite Hrun2. simpl.
  assert (length (nodes (audioContext s1)) = S (S (length (nodes (audioContext s)))))
    as Hlen.
  { rewrite Hnodes1, length_app. simpl. lia. }
  rewrite Hlen in Hsrc, Hg, Hold.
  assert (audioNodes s1 !! id
          = Some (length (nodes (audioContext s)), S (length (nodes (audioContext s)))))
    as Hid1 by (by rewrite Hreg1, lookup_insert_eq).
  destruct (Hold _ _ Hid1) as [Hold1 Hold2]; [lia..|].
  split_and!; try done.
  - by rewrite Hreg2, Hlen, lookup_insert_eq.
  - rewrite Hnodes2, lookup_app_r by lia.
    by rewrite Hlen, Nat.sub_diag.
  - rewrite Hnodes2, lookup_app_r by lia.
    rewrite Hlen. by replace (S (S (S _)) - S (S _)) with 1 by lia.
  - by rewrite Hg, Hout1.
  - intros k Hk. by rewrite Hreg2, Hreg1, !lookup_insert_ne.
Qed.

Lemma addStream_twice_leaves_one_pair_witness :
  (addStreamToOutboundAudio "microphone" 1 sys0).1 = Normal tt
  ∧ (addStreamToOutboundAudio "microphone" 2 sys_mic1).1 = Normal tt
  ∧ audioNodes sys_mic1 !! "microphone" = Some (10, 11)
  ∧ audioNodes sys_mic2 !! "microphone" = Some (12, 13)
  ∧ nodes (audioContext sys_mic2) !! 12 = Some (MediaStreamAudioSourceNode 2)
  ∧ nodes (audioContext sys_mic2) !! 13 = Some GainNode
  ∧ outputs 12 (audioContext sys_mic2) = [13]
  ∧ outputs 13 (audioContext sys_mic2) = [outboundGainNode sys0]
  ∧ outputs 10 (audioContext sys_mic2) = []
  ∧ outputs 11 (audioContext sys_mic2) = []
  ∧ (∀ k, k ≠ "microphone" → audioNodes sys_mic2 !! k = audioNodes sys0 !! k).
Proof.
  apply (addStream_twice_leaves_one_pair "microphone" 1 2 sys0 sys_mic1 sys_mic2 10).
  - apply (bool_decide_unpack _). by vm_compute.
  - by vm_compute.
  - reflexivity.
  - reflexivity.
Defined.

(** ** C8: volumes

    C8. A preference update issues, before anything else, one
    [setTargetAtTime] per category gain node (media, effects, voice), with
    the volume divided by 100 as target, the current audio-clock time as
    start and [GAIN_TIME_CONST] as time constant; it makes no other call on
    an AudioParam, so no gain is set instantaneously; for volumes between 0
    and 100 the targets lie between 0 and 1. *)
Theorem updatePrefs_applies_volumes_smoothly env s a m f :
  mixer_wired env s a m f →
  (0 <= globalVoiceVolume (preferences env) <= 100)%Q →
  (0 <= globalMediaVolume (preferences env) <= 100)%Q →
  (0 <= globalSFXVolume (preferences env) <= 100)%Q →
  ∃ rest,
    issued (updatePrefs env) s
    = [EParamSetTargetAtTime m (globalMediaVolume (preferences env) / 100)%Q
         (currentTime env) (GAIN_TIME_CONST env);
       EParamSetTargetAtTime f (globalSFXVolume (preferences env) / 100)%Q
         (currentTime env) (GAIN_TIME_CONST env);
       EParamSetTargetAtTime a (globalVoiceVolume (preferences env) / 100)%Q
         (currentTime env) (GAIN_TIME_CONST env)] ++ rest
    ∧ Forall (λ e, is_param_call e = false) rest
    ∧ (0 <= globalMediaVolume (preferences env) / 100 <= 1)%Q
    ∧ (0 <= globalSFXVolume (preferences env) / 100 <= 1)%Q
    ∧ (0 <= globalVoiceVolume (preferences env) / 100 <= 1)%Q.
Proof.
  intros Hw [Hv0 Hv1] [Hm0 Hm1] [Hf0 Hf1].
  destruct (updatePrefs_run env s a m f Hw) as (route & _ & Heff & Hparam & _).
  eexists. split; [by apply issued_app|]. split.
  - apply Forall_app. split; [|apply audio_calls_not_param].
    eapply Forall_impl; [exact Hparam|]. by intros e [? _].
  - split_and!; by apply volume_in_range.
Qed.

Lemma updatePrefs_applies_volumes_smoothly_witness :
  ∃ rest,
    issued (updatePrefs env_explicit) sys0
    = [EParamSetTargetAtTime 6 (globalMediaVolume (preferences env_explicit) / 100)%Q
         (currentTime env_explicit) (GAIN_TIME_CONST env_explicit);
       EParamSetTargetAtTime 8 (globalSFXVolume (preferences env_explicit) / 100)%Q
         (currentTime env_explicit) (GAIN_TIME_CONST env_explicit);
       EParamSetTargetAtTime 7 (globalVoiceVolume (preferences env_explicit) / 100)%Q
         (currentTime env_explicit) (GAIN_TIME_CONST env_explicit)] ++ rest
    ∧ Forall (λ e, is_param_call e = false) rest
    ∧ (0 <= globalMediaVolume (preferences env_explicit) / 100 <= 1)%Q
    ∧ (0 <= globalSFXVolume (preferences env_explicit) / 100 <= 1)%Q
    ∧ (0 <= globalVoiceVolume (preferences env_explicit) / 100 <= 1)%Q.
Proof.
  apply (updatePrefs_applies_volumes_smoothly env_explicit sys0 7 6 8).
  - by vm_compute.
  - split; by vm_compute.
  - split; by vm_compute.
  - split; by vm_compute.
Defined.

(** ** C9: panning preferences *)

Lemma elem_of_audio_calls_swap env r u k entry :
  ESwapAudioType k ∈ audio_calls env r u entry ↔
  entry.1 = k ∧ r = true ∧ technique_mismatch env k entry.2 = true.
Proof.
  destruct entry as [k' audio]. unfold audio_calls. simpl.
  destruct r.
  - destruct (technique_mismatch env k' audio) eqn:Hmm.
    + rewrite elem_of_cons. split.
      * intros [[= ->]|Hin]; [done|].
        destruct (isPositionalAudio _).
        -- apply list_elem_of_singleton in Hin. done.
        -- by apply elem_of_nil in Hin.
      * intros (-> & _ & _). by left.
    + split; [by intros ?%elem_of_nil|]. intros (-> & _ & ?). congruence.
  - destruct u.
    + rewrite list_elem_of_singleton. split; [done|]. by intros (_ & ? & _).
    + split; [by intros ?%elem_of_nil|]. by intros (_ & ? & _).
Qed.

Lemma elem_of_audio_calls_update env r u k entry :
  EUpdateAudioSettings k ∈ audio_calls env r u entry ↔
  entry.1 = k ∧ r = false ∧ u = true.
Proof.
  destruct entry as [k' audio]. unfold audio_calls. simpl.
  destruct r.
  - destruct (technique_mismatch env k' audio) eqn:Hmm.
    + rewrite elem_of_cons. split.
      * intros [[=]|Hin].
        destruct (isPositionalAudio _).
        -- apply list_elem_of_singleton in Hin. done.
        -- by apply elem_of_nil in Hin.
      * by intros (_ & ? & _).
    + split; [by intros ?%elem_of_nil|]. by intros (_ & ? & _).
  - destruct u.
    + rewrite list_elem_of_singleton. split; [by intros [= ->]|].
      by intros (-> & _ & _).
    + split; [by intros ?%elem_of_nil|]. by intros (_ & _ & ?).
Qed.


Lemma audios_key_unique {A B} (l : list (A * B)) k x y :
  NoDup l.*1 → (k, x) ∈ l → (k, y) ∈ l → x = y.
Proof.
  induction l as [|[k' z] l IH]; simpl; intros Hnd Hx Hy.
  - by apply elem_of_nil in Hx.
  - apply NoDup_cons in Hnd as [Hk Hnd].
    apply elem_of_cons in Hx as [Hx|Hx];
      apply elem_of_cons in Hy as [Hy|Hy]; simplify_eq; try done.
    + destruct Hk. apply list_elem_of_fmap. by exists (k', y).
    + destruct Hk. apply list_elem_of_fmap. by exists (k', x).
    + by apply IH.
Qed.

Lemma elem_of_flat_map {A B} (f : A → list B) (l : list A) (x : B) :
  x ∈ flat_map f l ↔ ∃ y, y ∈ l ∧ x ∈ f y.
Proof.
  rewrite list_elem_of_In, in_flat_map.
  by setoid_rewrite list_elem_of_In.
Qed.

Lemma not_panning_not_in_route (route : list Effect) e :
  Forall (λ e, is_param_call e = false ∧ is_panning_call e = false) route →
  is_panning_call e = true → e ∉ route.
Proof.
  intros Hall He Hin. rewrite Forall_forall in Hall.
  destruct (Hall e Hin) as [_ H]. congruence.
Qed.

Lemma elem_of_issued_swap env s a m f k audio :
  mixer_wired env s a m f →
  NoDup (audios env).*1 →
  (k, audio) ∈ audios env →
  ESwapAudioType k ∈ issued (updatePrefs env) s ↔
  disableLeftRightPanning s ≠ pref_disableLeftRightPanning (preferences env)
  ∧ technique_mismatch env k audio = true.
Proof.
  intros Hw Hnd Hin.
  destruct (updatePrefs_run env s a m f Hw) as (route & _ & Heff & Hroute & _).
  rewrite (issued_app _ _ _ Heff), !elem_of_app, elem_of_flat_map.
  split.
  - intros [Hv|[Hr|(entry & Hentry & Hc)]].
    + repeat (apply elem_of_cons in Hv as [Hv|Hv]; [done|]).
      by apply elem_of_nil in Hv.
    + by apply not_panning_not_in_route in Hr.
    + apply elem_of_audio_calls_swap in Hc as (Hk & Hr & Hmm).
      destruct entry as [k' audio']. simpl in *.
      subst k'. rewrite (audios_key_unique _ _ _ _ Hnd Hin Hentry).
      split; [|done]. by apply bool_decide_eq_true in Hr.
  - intros [Hr Hmm]. right. right. exists (k, audio).
    split; [done|].
    apply elem_of_audio_calls_swap. split_and!; try done.
    by apply bool_decide_eq_true.
Qed.

Lemma elem_of_issued_update env s a m f k audio :
  mixer_wired env s a m f →
  (k, audio) ∈ audios env →
  EUpdateAudioSettings k ∈ issued (updatePrefs env) s ↔
  disableLeftRightPanning s = pref_disableLeftRightPanning (preferences env)
  ∧ audioPanningQuality s ≠ pref_audioPanningQuality (preferences env).
Proof.
  intros Hw Hin.
  destruct (updatePrefs_run env s a m f Hw) as (route & _ & Heff & Hroute & _).
  rewrite (issued_app _ _ _ Heff), !elem_of_app, elem_of_flat_map.
  split.
  - intros [Hv|[Hr|(entry & Hentry & Hc)]].
    + repeat (apply elem_of_cons in Hv as [Hv|Hv]; [done|]).
      by apply elem_of_nil in Hv.
    + by apply not_panning_not_in_route in Hr.
    + apply elem_of_audio_calls_update in Hc as (Hk & Hr & Hu).
      apply bool_decide_eq_false in Hr. apply bool_decide_eq_true in Hu.
      split; [|done]. by apply dec_stable.
  - intros [Hr Hu]. right. right. exists (k, audio).
    split; [done|].
    apply elem_of_audio_calls_update. split_and!; try done.
    + apply bool_decide_eq_false. by intros ?.
    + by apply bool_decide_eq_true.
Qed.

(** C9, amended. Among the calls of one preference update, for every
    source in [APP.audios]: never both a switch of technique and a
    re-application of settings. When the panning mode changed, the technique
    is switched exactly when the source's technique is not the one its
    settings ask for, and the settings are not re-applied; when only the
    panning quality changed, the settings are re-applied and the technique is
    not switched; when neither changed, neither happens. *)
Theorem panning_change_dispatch env s a m f k audio calls :
  mixer_wired env s a m f →
  NoDup (audios env).*1 →
  (k, audio) ∈ audios env →
  calls = issued (updatePrefs env) s →
  ¬ (ESwapAudioType k ∈ calls ∧ EUpdateAudioSettings k ∈ calls)
  ∧ (disableLeftRightPanning s ≠ pref_disableLeftRightPanning (preferences env) →
     (ESwapAudioType k ∈ calls ↔ technique_mismatch env k audio = true)
     ∧ (EUpdateAudioSettings k ∉ calls))
  ∧ (disableLeftRightPanning s = pref_disableLeftRightPanning (preferences env) →
     audioPanningQuality s ≠ pref_audioPanningQuality (preferences env) →
     EUpdateAudioSettings k ∈ calls ∧ (ESwapAudioType k ∉ calls))
  ∧ (disableLeftRightPanning s = pref_disableLeftRightPanning (preferences env) →
     audioPanningQuality s = pref_audioPanningQuality (preferences env) →
     (ESwapAudioType k ∉ calls) ∧ (EUpdateAudioSettings k ∉ calls)).
Proof.
  intros Hw Hnd Hin ->.
  pose proof (elem_of_issued_swap env s a m f k audio Hw Hnd Hin) as Hswap.
  pose proof (elem_of_issued_update env s a m f k audio Hw Hin) as Hupd.
  rewrite Hswap, Hupd. split_and!.
  - intros [[Hne _] [Heq _]]. done.
  - intros Hne. split; [|by intros [Heq _]].
    split; [by intros [_ ?]|by intros ?].
  - intros Heq Hq. split; [done|]. intros [Hne _]. done.
  - intros Heq Hq. split; [intros [Hne _]|intros [_ Hne]]; done.
Qed.

Lemma panning_change_dispatch_witness :
  (ESwapAudioType 0 ∈ issued (updatePrefs env_panning) sys0
   ↔ technique_mismatch env_panning 0 (mkAudio true) = true)
  ∧ (EUpdateAudioSettings 0 ∉ issued (updatePrefs env_panning) sys0).
Proof.
  apply (panning_change_dispatch env_panning sys0 7 6 8 0 (mkAudio true)
           (issued (updatePrefs env_panning) sys0)).
  - by vm_compute.
  - apply (bool_decide_unpack _). by vm_compute.
  - apply list_elem_of_here.
  - reflexivity.
  - intros H. vm_compute in H. discriminate H.
Defined.

(** C9, the claim as it is stated, fails, in the case it spells out and
    outside it. The user switches left/right panning off while one source
    is playing that is a stereo source already, as its settings ask: the
    panning mode has changed, and the update makes its three volume calls
    and nothing else, so the source's technique is not switched (nor are its
    settings re-applied). And the user moves the media volume slider, with
    neither panning preference changed: again the three volume calls and
    nothing else. *)
Lemma unchanged_technique_touches_no_source :
  (disableLeftRightPanning sys0
   ≠ pref_disableLeftRightPanning (preferences env_panning_stereo))
  ∧ (0, mkAudio false) ∈ audios env_panning_stereo
  ∧ technique_mismatch env_panning_stereo 0 (mkAudio false) = false
  ∧ issued (updatePrefs env_panning_stereo) sys0
    = [EParamSetTargetAtTime 6 (50 / 100)%Q 0%Q (2 # 10)%Q;
       EParamSetTargetAtTime 8 (0 / 100)%Q 0%Q (2 # 10)%Q;
       EParamSetTargetAtTime 7 (100 / 100)%Q 0%Q (2 # 10)%Q]
  ∧ (0, mkAudio true) ∈ audios env_volume
  ∧ issued (updatePrefs env_volume) sys0
    = [EParamSetTargetAtTime 6 (30 / 100)%Q 0%Q (2 # 10)%Q;
       EParamSetTargetAtTime 8 (0 / 100)%Q 0%Q (2 # 10)%Q;
       EParamSetTargetAtTime 7 (100 / 100)%Q 0%Q (2 # 10)%Q].
Proof.
  split_and!; [by vm_compute|apply list_elem_of_here|by vm_compute|by vm_compute
              |apply list_elem_of_here|by vm_compute].
Qed.

(** ** C10: the category table *)

Lemma constructor_mixer st prefs ctx :
  mixer (AudioSystem_constructor st prefs ctx)
  = <[SFX st := 7 + length (nodes ctx)]>
      (<[AUDIO_TARGET st := 5 + length (nodes ctx)]>
         (<[MEDIA_VIDEO st := 5 + length (nodes ctx)]>
            (<[AVATAR_AUDIO_SOURCE st := 6 + length (nodes ctx)]> ∅)))
  ∧ mediaGain (AudioSystem_constructor st prefs ctx) = 5 + length (nodes ctx).
Proof.
  unfold AudioSystem_constructor, createMediaStreamDestination, createGain,
    createAnalyser, createNode.
  cbv beta iota zeta. cbn [mixer mediaGain nodes].
  rewrite !nodes_connect. cbn [nodes]. rewrite !length_app. cbn [length].
  by replace (length (nodes ctx) + 1 + 1 + 1 + 1 + 1) with (5 + length (nodes ctx)) by lia;
     replace (5 + length (nodes ctx) + 1) with (6 + length (nodes ctx)) by lia;
     replace (6 + length (nodes ctx) + 1) with (7 + length (nodes ctx)) by lia.
Qed.

(** Every system built over distinct keys has its three category nodes
    under them. *)
Lemma constructor_wired env prefs ctx :
  NoDup [AVATAR_AUDIO_SOURCE (SourceType env); MEDIA_VIDEO (SourceType env);
         AUDIO_TARGET (SourceType env); SFX (SourceType env)] →
  mixer_wired env (AudioSystem_constructor (SourceType env) prefs ctx)
    (6 + length (nodes ctx)) (5 + length (nodes ctx)) (7 + length (nodes ctx)).
Proof.
  intros Hnd. destruct (constructor_mixer (SourceType env) prefs ctx) as [Hm _].
  apply NoDup_cons in Hnd as [H1 Hnd]. apply NoDup_cons in Hnd as [H2 Hnd].
  apply NoDup_cons in Hnd as [H3 _].
  apply not_elem_of_cons in H1 as [Ham H1]. apply not_elem_of_cons in H1 as [Hat H1].
  apply not_elem_of_cons in H1 as [Has _].
  apply not_elem_of_cons in H2 as [Hmt H2]. apply not_elem_of_cons in H2 as [Hms _].
  apply not_elem_of_cons in H3 as [Hts _].
  unfold mixer_wired. rewrite Hm. split_and!.
  - by rewrite !lookup_insert_ne, lookup_insert_eq by done.
  - by rewrite !lookup_insert_ne, lookup_insert_eq by done.
  - by rewrite lookup_insert_eq.
Qed.

Lemma addAudio_known node key g s :
  mixer s !! key = Some g →
  (addAudio node key s).1 = Normal tt
  ∧ outputs node (audioContext (addAudio node key s).2) = [g].
Proof.
  intros Hkey. unfold addAudio, node_disconnect, node_connect.
  rewrite bind_modify.
  erewrite bind_run by (apply mixer_node_run; simpl; exact Hkey).
  simpl. split; [done|]. apply outputs_connect_new, outputs_disconnect_eq.
Qed.

Lemma addAudio_unknown node key s :
  mixer s !! key = None →
  (addAudio node key s).1 = Throw TypeError
  ∧ outputs node (audioContext (addAudio node key s).2) = [].
Proof.
  intros Hkey. unfold addAudio, node_disconnect, node_connect.
  rewrite bind_modify.
  unfold mixer_node, mbind, JS_bind, get, mixer_get. cbv beta iota.
  simpl. rewrite Hkey.
  destruct (bool_decide (key ∈ Object_prototype_keys)); simpl;
    (split; [done|apply outputs_disconnect_eq]).
Qed.

(** C10. With the four keys of [SourceType] distinct, the mixer of a
    system owns exactly these four keys; media-video and audio-target hold
    the same gain node, which is neither the voice node nor the effects node.
    [addAudio] returns normally for each of the four keys, leaving the node
    connected to that key's gain node alone. For any other key the lookup
    gives [undefined] or a member inherited from [Object.prototype], and
    [addAudio] throws a TypeError, the node being left without connection. *)
Theorem addAudio_category_table st prefs ctx s node key :
  NoDup [AVATAR_AUDIO_SOURCE st; MEDIA_VIDEO st; AUDIO_TARGET st; SFX st] →
  mixer s = mixer (AudioSystem_constructor st prefs ctx) →
  dom (mixer s)
  = ({[AVATAR_AUDIO_SOURCE st; MEDIA_VIDEO st; AUDIO_TARGET st; SFX st]} : gset string)
  ∧ mixer s !! MEDIA_VIDEO st = mixer s !! AUDIO_TARGET st
  ∧ mixer s !! AVATAR_AUDIO_SOURCE st ≠ mixer s !! MEDIA_VIDEO st
  ∧ mixer s !! SFX st ≠ mixer s !! MEDIA_VIDEO st
  ∧ mixer s !! AVATAR_AUDIO_SOURCE st ≠ mixer s !! SFX st
  ∧ (key ∈ [AVATAR_AUDIO_SOURCE st; MEDIA_VIDEO st; AUDIO_TARGET st; SFX st] →
     ∃ g, mixer s !! key = Some g
          ∧ (addAudio node key s).1 = Normal tt
          ∧ outputs node (audioContext (addAudio node key s).2) = [g])
  ∧ (key ∉ [AVATAR_AUDIO_SOURCE st; MEDIA_VIDEO st; AUDIO_TARGET st; SFX st] →
     mixer_get (mixer s) key ∈ [JSUndefined; JSInherited]
     ∧ (addAudio node key s).1 = Throw TypeError
     ∧ outputs node (audioContext (addAudio node key s).2) = []).
Proof.
  intros Hnd Hmix.
  destruct (constructor_mixer st prefs ctx) as [Hm _]. rewrite Hm in Hmix. clear Hm.
  apply NoDup_cons in Hnd as [H1 Hnd]. apply NoDup_cons in Hnd as [H2 Hnd].
  apply NoDup_cons in Hnd as [H3 _].
  assert (AVATAR_AUDIO_SOURCE st ≠ MEDIA_VIDEO st) as Ham by set_solver.
  assert (AVATAR_AUDIO_SOURCE st ≠ AUDIO_TARGET st) as Hat by set_solver.
  assert (AVATAR_AUDIO_SOURCE st ≠ SFX st) as Has by set_solver.
  assert (MEDIA_VIDEO st ≠ AUDIO_TARGET st) as Hmt by set_solver.
  assert (MEDIA_VIDEO st ≠ SFX st) as Hms by set_solver.
  assert (AUDIO_TARGET st ≠ SFX st) as Hts by set_solver.
  clear H1 H2 H3.
  assert (mixer s !! AVATAR_AUDIO_SOURCE st = Some (6 + length (nodes ctx))) as Ha.
  { rewrite Hmix. by rewrite !lookup_insert_ne, lookup_insert_eq by done. }
  assert (mixer s !! MEDIA_VIDEO st = Some (5 + length (nodes ctx))) as Hmv.
  { rewrite Hmix. by rewrite !lookup_insert_ne, lookup_insert_eq by done. }
  assert (mixer s !! AUDIO_TARGET st = Some (5 + length (nodes ctx))) as Hta.
  { rewrite Hmix. by rewrite !lookup_insert_ne, lookup_insert_eq by done. }
  assert (mixer s !! SFX st = Some (7 + length (nodes ctx))) as Hsf.
  { rewrite Hmix. by rewrite lookup_insert_eq. }
  split_and!.
  - rewrite Hmix, !dom_insert_L, dom_empty_L. apply set_eq. intros x.
    rewrite !elem_of_union, !elem_of_singleton, elem_of_empty. tauto.
  - by rewrite Hmv, Hta.
  - rewrite Ha, Hmv. intros [=]. lia.
  - rewrite Hsf, Hmv. intros [=]. lia.
  - rewrite Ha, Hsf. intros [=]. lia.
  - rewrite !elem_of_cons. intros [->|[->|[->|[->|Hin]]]].
    + eexists. split; [exact Ha|]. by apply addAudio_known.
    + eexists. split; [exact Hmv|]. by apply addAudio_known.
    + eexists. split; [exact Hta|]. by apply addAudio_known.
    + eexists. split; [exact Hsf|]. by apply addAudio_known.
    + by apply elem_of_nil in Hin.
  - intros Hk.
    assert (AVATAR_AUDIO_SOURCE st ≠ key) as Hk1 by set_solver.
    assert (MEDIA_VIDEO st ≠ key) as Hk2 by set_solver.
    assert (AUDIO_TARGET st ≠ key) as Hk3 by set_solver.
    assert (SFX st ≠ key) as Hk4 by set_solver.
    assert (mixer s !! key = None) as Hnone.
    { rewrite Hmix. by rewrite !lookup_insert_ne, lookup_empty by done. }
    split; [|by apply addAudio_unknown].
    unfold mixer_get. rewrite Hnone.
    destruct (bool_decide _); set_solver.
Qed.

Lemma addAudio_category_table_witness :
  mixer_get (mixer sys_emitter) "audio-zone" ∈ [JSUndefined; JSInherited]
  ∧ (addAudio 10 "audio-zone" sys_emitter).1 = Throw TypeError
  ∧ outputs 10 (audioContext (addAudio 10 "audio-zone" sys_emitter).2) = [].
Proof.
  apply (addAudio_category_table hubs_SourceType prefs0 newAudioContext sys_emitter
           10 "audio-zone").
  - apply (bool_decide_unpack _). by vm_compute.
  - reflexivity.
  - apply (bool_decide_unpack _). by vm_compute.
Defined.

(** * More of the module *)

(** ** The graph: more on connections *)

Lemma elem_of_outputs a b ctx : b ∈ outputs a ctx ↔ (a, b) ∈ edges ctx.
Proof.
  unfold outputs. rewrite list_elem_of_fmap. split.
  - intros ([x y] & -> & [Hx Hin]%list_elem_of_filter). simpl in *. by subst.
  - intros Hin. exists (a, b). split; [done|]. by apply list_elem_of_filter.
Qed.

Lemma outputs_connect_eq a b ctx :
  outputs a (connect a b ctx)
  = if bool_decide (b ∈ outputs a ctx) then outputs a ctx else outputs a ctx ++ [b].
Proof.
  unfold connect. rewrite <- (bool_decide_ext _ _ (elem_of_outputs a b ctx)).
  case_bool_decide; [done|].
  unfold outputs. simpl.
  by rewrite filter_app, fmap_app, filter_cons, decide_True by done.
Qed.

Lemma edges_disconnect_fresh a ctx :
  outputs a ctx = [] → edges (disconnect a ctx) = edges ctx.
Proof.
  intros Hnil. unfold disconnect. simpl.
  assert (∀ e, e ∈ edges ctx → e.1 ≠ a) as Hall.
  { intros [x y] Hin Heq. simpl in Heq. subst x.
    apply elem_of_outputs in Hin. rewrite Hnil in Hin. by apply elem_of_nil in Hin. }
  induction (edges ctx) as [|e l IH]; [done|].
  rewrite filter_cons, decide_True by (apply Hall; left).
  rewrite IH; [done|]. intros e' He'. apply Hall. by right.
Qed.

Lemma disconnect_idemp a ctx : disconnect a (disconnect a ctx) = disconnect a ctx.
Proof.
  unfold disconnect. simpl. f_equal. rewrite list_filter_filter.
  apply list_filter_iff. intros e. tauto.
Qed.

(** ** Emitters and categories *)

Lemma addAudio_run node key g s :
  mixer s !! key = Some g →
  addAudio node key s
  = (Normal tt,
     emit (ENodeConnect node g)
       (set_audioContext (connect node g)
          (emit (ENodeDisconnect node) (set_audioContext (disconnect node) s)))).
Proof.
  intros Hkey. unfold addAudio, node_disconnect, node_connect.
  rewrite bind_modify.
  by erewrite bind_run by (apply mixer_node_run; simpl; exact Hkey).
Qed.

(** X1. A source handed to [addAudio] under one category and then under
    another feeds the gain node of the second category alone: the first
    connection is gone. Both calls return normally, no other node's
    connections change, and [removeAudio] after [addAudio] leaves the source
    without any connection. *)
Theorem addAudio_moves_source_between_categories node key1 key2 g1 g2 s :
  mixer s !! key1 = Some g1 →
  mixer s !! key2 = Some g2 →
  (addAudio node key1 s).1 = Normal tt
  ∧ (addAudio node key2 (addAudio node key1 s).2).1 = Normal tt
  ∧ outputs node (audioContext (addAudio node key1 s).2) = [g1]
  ∧ outputs node (audioContext (addAudio node key2 (addAudio node key1 s).2).2) = [g2]
  ∧ (∀ c, c ≠ node →
       outputs c (audioContext (addAudio node key2 (addAudio node key1 s).2).2)
       = outputs c (audioContext s))
  ∧ (removeAudio node (addAudio node key1 s).2).1 = Normal tt
  ∧ outputs node (audioContext (removeAudio node (addAudio node key1 s).2).2) = [].
Proof.
  intros H1 H2. rewrite (addAudio_run node key1 g1 s H1). cbn [fst snd].
  rewrite (addAudio_run node key2 g2) by exact H2.
  unfold removeAudio, node_disconnect, modify.
  cbn [fst snd audioContext emit set_audioContext].
  split_and!; try done.
  - apply outputs_connect_new, outputs_disconnect_eq.
  - apply outputs_connect_new, outputs_disconnect_eq.
  - intros c Hc.
    by rewrite !outputs_connect_ne, !outputs_disconnect_ne,
      !outputs_connect_ne, !outputs_disconnect_ne by done.
  - apply outputs_disconnect_eq.
Qed.

Lemma addAudio_moves_source_between_categories_witness :
  (addAudio 10 "media-video" sys_emitter).1 = Normal tt
  ∧ (addAudio 10 "sfx" (addAudio 10 "media-video" sys_emitter).2).1 = Normal tt
  ∧ outputs 10 (audioContext (addAudio 10 "media-video" sys_emitter).2) = [6]
  ∧ outputs 10
      (audioContext (addAudio 10 "sfx" (addAudio 10 "media-video" sys_emitter).2).2)
    = [8]
  ∧ (∀ c, c ≠ 10 →
       outputs c
         (audioContext (addAudio 10 "sfx" (addAudio 10 "media-video" sys_emitter).2).2)
       = outputs c (audioContext sys_emitter))
  ∧ (removeAudio 10 (addAudio 10 "media-video" sys_emitter).2).1 = Normal tt
  ∧ outputs 10
      (audioContext (removeAudio 10 (addAudio 10 "media-video" sys_emitter).2).2)
    = [].
Proof.
  apply (addAudio_moves_source_between_categories 10 "media-video" "sfx" 6 8
           sys_emitter).
  - by vm_compute.
  - by vm_compute.
Defined.

(** ** Outbound streams: removal, round trip, registry *)

(** X2. [removeStreamFromOutboundAudio] returns normally for every
    identifier and leaves none registered under it; removing the same
    identifier again changes nothing, and removing an identifier that is not
    registered changes nothing and is no error. *)
Theorem removeStream_idempotent id s :
  (removeStreamFromOutboundAudio id s).1 = Normal tt
  ∧ audioNodes (removeStreamFromOutboundAudio id s).2 !! id = None
  ∧ removeStreamFromOutboundAudio id (removeStreamFromOutboundAudio id s).2
    = (Normal tt, (removeStreamFromOutboundAudio id s).2)
  ∧ (audioNodes s !! id = None → removeStreamFromOutboundAudio id s = (Normal tt, s)).
Proof.
  destruct (removeStream_run id s) as (s' & Hrun & Hreg & _).
  rewrite Hrun. simpl.
  assert (audioNodes s' !! id = None) as Hnone by (by rewrite Hreg, lookup_delete_eq).
  split_and!; try done.
  - unfold removeStreamFromOutboundAudio. rewrite bind_get. by rewrite Hnone.
  - intros H. unfold removeStreamFromOutboundAudio in *. rewrite bind_get in *.
    rewrite H in *. by simplify_eq.
Qed.

Lemma filter_all {A} (P : A → Prop) `{!∀ x, Decision (P x)} (l : list A) :
  Forall P l → filter P l = l.
Proof.
  induction 1 as [|x l Hx Hl IH]; [done|].
  by rewrite filter_cons, decide_True, IH by done.
Qed.

Lemma edges_connect_fresh a b ctx :
  outputs a ctx = [] → edges (connect a b ctx) = edges ctx ++ [(a, b)].
Proof.
  intros Hnil. unfold connect. case_bool_decide as Hin; [|done].
  apply elem_of_outputs in Hin. rewrite Hnil in Hin. by apply elem_of_nil in Hin.
Qed.

Lemma addStream_new id ms s :
  ctx_wf (audioContext s) →
  audioNodes s !! id = None →
  addStreamToOutboundAudio id ms s
  = (Normal tt,
     set_audioNodes
       (<[id := (length (nodes (audioContext s)), S (length (nodes (audioContext s))))]>)
       (emit (ENodeConnect (S (length (nodes (audioContext s)))) (outboundGainNode s))
          (set_audioContext
             (connect (S (length (nodes (audioContext s)))) (outboundGainNode s))
             (emit (ENodeConnect (length (nodes (audioContext s)))
                      (S (length (nodes (audioContext s)))))
                (set_audioContext
                   (connect (length (nodes (audioContext s)))
                      (S (length (nodes (audioContext s)))))
                   (set_audioContext
                      (λ _, (createGain
                               (createMediaStreamSource ms (audioContext s)).2).2)
                      s)))))).
Proof.
  intros Hwf Hnone. unfold addStreamToOutboundAudio.
  rewrite bind_get, Hnone.
  rewrite bool_decide_false by (by intros [? ?]).
  rewrite bind_ret, bind_get.
  unfold createMediaStreamSource, createGain, createNode, node_connect.
  cbv beta iota zeta. repeat js_step.
  cbn [nodes]. rewrite !(length_app (nodes (audioContext s))). simpl length.
  rewrite !Nat.add_1_r. reflexivity.
Qed.

(** X3. On a well-formed graph, adding a stream under an identifier that
    is not registered and removing it again gives back the registry and the
    connections of the graph as they were. The two nodes the addition
    created stay in the graph, without connections. *)
Theorem addStream_then_remove_restores id ms s :
  ctx_wf (audioContext s) →
  audioNodes s !! id = None →
  (removeStreamFromOutboundAudio id (addStreamToOutboundAudio id ms s).2).1 = Normal tt
  ∧ audioNodes (removeStreamFromOutboundAudio id (addStreamToOutboundAudio id ms s).2).2
    = audioNodes s
  ∧ edges (audioContext
             (removeStreamFromOutboundAudio id (addStreamToOutboundAudio id ms s).2).2)
    = edges (audioContext s)
  ∧ nodes (audioContext
             (removeStreamFromOutboundAudio id (addStreamToOutboundAudio id ms s).2).2)
    = nodes (audioContext s) ++ [MediaStreamAudioSourceNode ms; GainNode].
Proof.
  intros Hwf Hnone. rewrite (addStream_new id ms s Hwf Hnone). cbn [snd].
  unfold removeStreamFromOutboundAudio. rewrite bind_get. cbn [audioNodes set_audioNodes].
  rewrite lookup_insert_eq. unfold node_disconnect. repeat js_step.
  unfold modify.
  cbn [fst snd audioNodes audioContext set_audioNodes set_audioContext emit].
  set (n := length (nodes (audioContext s))).
  set (ctx1 := (createGain (createMediaStreamSource ms (audioContext s)).2).2).
  assert (ctx_wf ctx1) as Hwf1 by (by do 2 apply ctx_wf_createNode).
  assert (length (nodes ctx1) = S (S n)) as Hlen.
  { subst ctx1 n. simpl. rewrite !length_app. simpl. lia. }
  assert (edges ctx1 = edges (audioContext s)) as He1 by done.
  assert (outputs n ctx1 = []) as Hn
    by (apply (outputs_fresh (audioContext s)); [done|lia]).
  assert (outputs (S n) ctx1 = []) as HSn
    by (apply (outputs_fresh (audioContext s)); [done|subst n; lia]).
  split_and!.
  - done.
  - by rewrite delete_insert_eq, delete_id.
  - unfold disconnect at 1 2. cbn [edges].
    rewrite edges_connect_fresh by (by rewrite outputs_connect_ne by lia).
    rewrite edges_connect_fresh by done.
    rewrite He1, <- app_assoc, list_filter_filter, filter_app. simpl.
    rewrite filter_cons, decide_False by (simpl; intros [? ?]; lia).
    rewrite filter_cons, decide_False by (simpl; intros [? ?]; lia).
    rewrite filter_nil, app_nil_r. apply filter_all.
    unfold ctx_wf in Hwf. eapply Forall_impl; [exact Hwf|].
    intros e He. simpl in *. fold n in He. lia.
  - unfold disconnect. cbn [nodes]. rewrite !nodes_connect.
    subst ctx1. simpl. by rewrite <- app_assoc.
Qed.

Lemma addStream_then_remove_restores_witness :
  (removeStreamFromOutboundAudio "microphone"
     (addStreamToOutboundAudio "microphone" 1 sys0).2).1 = Normal tt
  ∧ audioNodes (removeStreamFromOutboundAudio "microphone"
                  (addStreamToOutboundAudio "microphone" 1 sys0).2).2
    = audioNodes sys0
  ∧ edges (audioContext
             (removeStreamFromOutboundAudio "microphone"
                (addStreamToOutboundAudio "microphone" 1 sys0).2).2)
    = edges (audioContext sys0)
  ∧ nodes (audioContext
             (removeStreamFromOutboundAudio "microphone"
                (addStreamToOutboundAudio "microphone" 1 sys0).2).2)
    = nodes (audioContext sys0) ++ [MediaStreamAudioSourceNode 1; GainNode].
Proof.
  apply (addStream_then_remove_restores "microphone" 1 sys0).
  - apply (bool_decide_unpack _). by vm_compute.
  - by vm_compute.
Defined.

(** *** The registry under any sequence of calls *)

Lemma removeStream_state id s :
  removeStreamFromOutboundAudio id s
  = (Normal tt,
     match audioNodes s !! id with
     | Some (src, g) =>
         set_audioNodes (delete id)
           (emit (ENodeDisconnect g)
              (set_audioContext (disconnect g)
                 (emit (ENodeDisconnect src) (set_audioContext (disconnect src) s))))
     | None => s
     end).
Proof.
  unfold removeStreamFromOutboundAudio. rewrite bind_get.
  by destruct (audioNodes s !! id) as [[src g]|].
Qed.

Lemma removeStream_fields id s :
  audioNodes (removeStreamFromOutboundAudio id s).2 = delete id (audioNodes s)
  ∧ outboundGainNode (removeStreamFromOutboundAudio id s).2 = outboundGainNode s
  ∧ nodes (audioContext (removeStreamFromOutboundAudio id s).2)
    = nodes (audioContext s)
  ∧ (∀ c, (∀ src g, audioNodes s !! id = Some (src, g) → c ≠ src ∧ c ≠ g) →
       outputs c (audioContext (removeStreamFromOutboundAudio id s).2)
       = outputs c (audioContext s)).
Proof.
  rewrite removeStream_state. cbn [snd].
  destruct (audioNodes s !! id) as [[src g]|] eqn:Hid; simpl.
  - split_and!; try done. intros c Hc. destruct (Hc src g eq_refl) as [? ?].
    by rewrite !outputs_disconnect_ne.
  - split_and!; try done. by rewrite delete_id.
Qed.

Lemma removeStream_normal id s :
  removeStreamFromOutboundAudio id s
  = (Normal tt, (removeStreamFromOutboundAudio id s).2).
Proof. by rewrite removeStream_state. Qed.

Lemma addStream_fields id ms s :
  (addStreamToOutboundAudio id ms s).1 = Normal tt
  ∧ audioContext (addStreamToOutboundAudio id ms s).2
    = connect (S (length (nodes (audioContext s)))) (outboundGainNode s)
        (connect (length (nodes (audioContext s))) (S (length (nodes (audioContext s))))
           (createGain
              (createMediaStreamSource ms
                 (audioContext (removeStreamFromOutboundAudio id s).2)).2).2)
  ∧ audioNodes (addStreamToOutboundAudio id ms s).2
    = <[id := (length (nodes (audioContext s)), S (length (nodes (audioContext s))))]>
        (audioNodes s)
  ∧ outboundGainNode (addStreamToOutboundAudio id ms s).2 = outboundGainNode s.
Proof.
  destruct (removeStream_fields id s) as (Hreg & Hout & Hnodes & _).
  unfold addStreamToOutboundAudio. rewrite bind_get.
  rewrite (bind_run _ _ _ _ _
             (eq_trans (removeStream_if id s) (removeStream_normal id s))).
  rewrite bind_get.
  unfold createMediaStreamSource, createGain, createNode, node_connect.
  cbv beta iota zeta. repeat js_step. unfold modify.
  cbn [fst snd nodes audioContext audioNodes outboundGainNode set_audioContext
         set_audioNodes emit].
  rewrite Hnodes, Hreg, Hout, insert_delete_eq.
  rewrite !(length_app (nodes (audioContext s))). simpl length.
  by rewrite !Nat.add_1_r.
Qed.

Lemma registry_wired_lt s id src g :
  registry_wired s → audioNodes s !! id = Some (src, g) →
  src < length (nodes (audioContext s)) ∧ g < length (nodes (audioContext s)).
Proof.
  intros Hw Hid. destruct (Hw id src g Hid) as ([ms Hs] & Hg & _).
  split; by eapply lookup_lt_Some.
Qed.

Lemma registry_inv_remove id s :
  registry_inv s → registry_inv (removeStreamFromOutboundAudio id s).2.
Proof.
  intros (Hwf & Hw & Hd).
  destruct (removeStream_fields id s) as (Hreg & Hout & Hnodes & Hframe).
  destruct (removeStream_run id s) as (s' & Hrun & _ & _ & _ & Hwf' & _).
  split_and!.
  - rewrite Hrun. by apply Hwf'.
  - intros id' src g. rewrite Hreg, Hout, Hnodes. intros Hid.
    apply lookup_delete_Some in Hid as [Hne Hid].
    destruct (Hw id' src g Hid) as (Hs & Hg & Hos & Hog).
    split_and!; try done.
    + rewrite Hframe; [done|]. intros src0 g0 H0.
      destruct (Hd id' id src g src0 g0) as (? & ? & ? & ?); auto.
    + rewrite Hframe; [done|]. intros src0 g0 H0.
      destruct (Hd id' id src g src0 g0) as (? & ? & ? & ?); auto.
  - intros id1 id2 src1 g1 src2 g2 Hne. rewrite Hreg.
    intros [_ H1]%lookup_delete_Some [_ H2]%lookup_delete_Some.
    by eapply Hd.
Qed.

Lemma registry_inv_add id ms s :
  registry_inv s → registry_inv (addStreamToOutboundAudio id ms s).2.
Proof.
  intros (Hwf & Hw & Hd).
  destruct (addStream_fields id ms s) as (_ & Hctx & Hreg & Hout).
  destruct (addStream_run id ms s Hwf)
    as (s' & Hrun & _ & Hnodes & _ & Hwf' & Hon & HoSn & _).
  destruct (removeStream_fields id s) as (_ & _ & _ & Hframe).
  assert (addStreamToOutboundAudio id ms s
          = (Normal tt, (addStreamToOutboundAudio id ms s).2)) as Hsp
    by (by rewrite Hrun).
  rewrite Hsp in Hrun. simplify_eq. clear Hsp.
  assert (∀ id' src g, id' ≠ id → audioNodes s !! id' = Some (src, g) →
            outputs src (audioContext (addStreamToOutboundAudio id ms s).2)
            = outputs src (audioContext s)
            ∧ outputs g (audioContext (addStreamToOutboundAudio id ms s).2)
              = outputs g (audioContext s)) as Hold.
  { intros id' src g Hne Hid.
    destruct (registry_wired_lt s id' src g Hw Hid) as [Hs Hg].
    rewrite Hctx. rewrite !outputs_connect_ne by lia.
    unfold createGain, createMediaStreamSource. rewrite !outputs_createNode.
    split; (rewrite Hframe; [done|]); intros src0 g0 H0;
      destruct (Hd id' id src g src0 g0) as (? & ? & ? & ?); auto. }
  split_and!.
  - done.
  - intros id' src g. rewrite Hreg, Hout, Hnodes. intros Hid.
    apply lookup_insert_Some in Hid as [[<- [= <- <-]]|[Hne Hid]].
    + split_and!; try done.
      * exists ms. rewrite lookup_app_r by done. by rewrite Nat.sub_diag.
      * rewrite lookup_app_r by lia.
        by replace (S (length (nodes (audioContext s))) - length (nodes (audioContext s)))
          with 1 by lia.
    + destruct (Hw id' src g Hid) as ([ms' Hs] & Hg & Hos & Hog).
      destruct (Hold id' src g) as [-> ->]; [done..|].
      split_and!; try done.
      * exists ms'. by apply lookup_app_l_Some.
      * by apply lookup_app_l_Some.
  - intros id1 id2 src1 g1 src2 g2 Hne. rewrite Hreg.
    intros [[<- [= <- <-]]|[Hne1 H1]]%lookup_insert_Some
           [[<- [= <- <-]]|[Hne2 H2]]%lookup_insert_Some; try done.
    + destruct (registry_wired_lt s id2 src2 g2 Hw H2). lia.
    + destruct (registry_wired_lt s id1 src1 g1 Hw H1). lia.
    + exact (Hd id1 id2 _ _ _ _ Hne H1 H2).
Qed.

Lemma stream_run_snoc ops op s :
  stream_run (ops ++ [op]) s = stream_step op (stream_run ops s).
Proof. unfold stream_run. by rewrite foldl_app. Qed.

(** X4. Starting from a well-formed graph and an empty registry, after
    any sequence of additions and removals of outbound streams every
    registered pair is wired: its source node exists and feeds its gain node
    alone, which exists and feeds the outbound gain node alone; and no node
    belongs to two identifiers. *)
Theorem outbound_registry_stays_wired ops s :
  ctx_wf (audioContext s) →
  audioNodes s = ∅ →
  registry_wired (stream_run ops s) ∧ registry_disjoint (stream_run ops s).
Proof.
  intros Hwf Hempty.
  assert (registry_inv (stream_run ops s)) as (_ & ? & ?); [|done].
  induction ops as [|op ops IH] using rev_ind.
  - change (stream_run [] s) with s. split_and!; [done|..].
    + intros id src g. by rewrite Hempty, lookup_empty.
    + intros id1 id2 src1 g1 src2 g2 _. by rewrite Hempty, lookup_empty.
  - rewrite stream_run_snoc. destruct op as [id ms|id]; simpl.
    + by apply registry_inv_add.
    + by apply registry_inv_remove.
Qed.

Lemma outbound_registry_stays_wired_witness :
  registry_wired
    (stream_run [AddStream "microphone" 1; AddStream "camera" 2;
                 RemoveStream "microphone"; AddStream "camera" 3] sys0)
  ∧ registry_disjoint
      (stream_run [AddStream "microphone" 1; AddStream "camera" 2;
                   RemoveStream "microphone"; AddStream "camera" 3] sys0).
Proof.
  apply (outbound_registry_stays_wired
           [AddStream "microphone" 1; AddStream "camera" 2;
            RemoveStream "microphone"; AddStream "camera" 3] sys0).
  - apply (bool_decide_unpack _). by vm_compute.
  - reflexivity.
Defined.

(** ** The graph the constructor builds *)

Lemma edges_connect_ext a b c1 c2 :
  edges c1 = edges c2 → edges (connect a b c1) = edges (connect a b c2).
Proof. intros H. unfold connect. rewrite H. by repeat case_bool_decide. Qed.

Lemma outputs_ext a c1 c2 : edges c1 = edges c2 → outputs a c1 = outputs a c2.
Proof. intros H. unfold outputs. by rewrite H. Qed.

Lemma own_lookup (m : gmap string nat) key n : m !! key = Some n → own m key = n.
Proof. intros H. unfold own. by rewrite H. Qed.

Lemma constructor_context st prefs ctx :
  NoDup [AVATAR_AUDIO_SOURCE st; MEDIA_VIDEO st; AUDIO_TARGET st; SFX st] →
  nodes (audioContext (AudioSystem_constructor st prefs ctx))
  = nodes ctx ++ [MediaStreamAudioDestinationNode; GainNode;
                  MediaStreamAudioDestinationNode; GainNode; AnalyserNode;
                  GainNode; GainNode; GainNode; AnalyserNode]
  ∧ edges (audioContext (AudioSystem_constructor st prefs ctx))
    = edges
        (connect (7 + length (nodes ctx)) (8 + length (nodes ctx))
        (connect (5 + length (nodes ctx)) (8 + length (nodes ctx))
        (connect (6 + length (nodes ctx)) (8 + length (nodes ctx))
        (connect (7 + length (nodes ctx)) (1 + length (nodes ctx))
        (connect (5 + length (nodes ctx)) (1 + length (nodes ctx))
        (connect (6 + length (nodes ctx)) (1 + length (nodes ctx))
        (connect (4 + length (nodes ctx)) (length (nodes ctx))
        (connect (3 + length (nodes ctx)) (4 + length (nodes ctx))
        (connect (1 + length (nodes ctx)) ctx_destination ctx)))))))))
  ∧ mediaStreamDestinationNode (AudioSystem_constructor st prefs ctx) = length (nodes ctx)
  ∧ destinationGain (AudioSystem_constructor st prefs ctx) = 1 + length (nodes ctx)
  ∧ audioDestination (AudioSystem_constructor st prefs ctx) = 2 + length (nodes ctx)
  ∧ outboundGainNode (AudioSystem_constructor st prefs ctx) = 3 + length (nodes ctx)
  ∧ outboundAnalyser (AudioSystem_constructor st prefs ctx) = 4 + length (nodes ctx)
  ∧ mixerAnalyser (AudioSystem_constructor st prefs ctx) = 8 + length (nodes ctx).
Proof.
  intros Hnd.
  pose proof (constructor_wired (mkEnv st 0%Q prefs false None 0%Q [] (λ _, Stereo)
                                   (λ _ a, a)) prefs ctx Hnd) as (Ha & Hm & Hf).
  destruct (constructor_mixer st prefs ctx) as [Hmix _].
  cbn [SourceType] in Ha, Hm, Hf. rewrite Hmix in Ha, Hm, Hf. clear Hmix.
  unfold AudioSystem_constructor, createMediaStreamDestination, createGain,
    createAnalyser, createNode.
  cbv beta iota zeta.
  cbn [audioContext mediaStreamDestinationNode destinationGain audioDestination
         outboundGainNode outboundAnalyser mixerAnalyser].
  repeat (rewrite ?nodes_connect; cbn [nodes]).
  rewrite !length_app. cbn [length].
  replace (length (nodes ctx) + 1) with (1 + length (nodes ctx)) by lia.
  replace (1 + length (nodes ctx) + 1) with (2 + length (nodes ctx)) by lia.
  replace (2 + length (nodes ctx) + 1) with (3 + length (nodes ctx)) by lia.
  replace (3 + length (nodes ctx) + 1) with (4 + length (nodes ctx)) by lia.
  replace (4 + length (nodes ctx) + 1) with (5 + length (nodes ctx)) by lia.
  replace (5 + length (nodes ctx) + 1) with (6 + length (nodes ctx)) by lia.
  replace (6 + length (nodes ctx) + 1) with (7 + length (nodes ctx)) by lia.
  replace (7 + length (nodes ctx) + 1) with (8 + length (nodes ctx)) by lia.
  rewrite !(own_lookup _ _ _ Ha), !(own_lookup _ _ _ Hm), !(own_lookup _ _ _ Hf).
  split_and!; try done.
  - by rewrite <- !app_assoc.
  - repeat (cbn [edges]; apply edges_connect_ext). done.
Qed.

Lemma AudioContext_eq c1 c2 : nodes c1 = nodes c2 → edges c1 = edges c2 → c1 = c2.
Proof. destruct c1, c2. simpl. by intros -> ->. Qed.

(** X5. The graph the constructor builds over a well-formed context,
    with the four keys of [SourceType] distinct: the gain node of every
    category feeds the final mix node and the mixer analyser, and nothing
    else; the final mix node feeds the context's destination alone; the
    outbound gain node feeds the outbound analyser alone, which feeds the
    outbound stream destination alone; the two stream destinations and the
    mixer analyser feed nothing. The graph stays well-formed and the
    connections of the nodes that were there are unchanged. *)
Theorem constructor_wiring st prefs ctx s key :
  ctx_wf ctx →
  NoDup [AVATAR_AUDIO_SOURCE st; MEDIA_VIDEO st; AUDIO_TARGET st; SFX st] →
  s = AudioSystem_constructor st prefs ctx →
  key ∈ [AVATAR_AUDIO_SOURCE st; MEDIA_VIDEO st; AUDIO_TARGET st; SFX st] →
  (∃ g, mixer s !! key = Some g
        ∧ outputs g (audioContext s) = [destinationGain s; mixerAnalyser s])
  ∧ outputs (destinationGain s) (audioContext s) = [ctx_destination]
  ∧ outputs (outboundGainNode s) (audioContext s) = [outboundAnalyser s]
  ∧ outputs (outboundAnalyser s) (audioContext s) = [mediaStreamDestinationNode s]
  ∧ outputs (audioDestination s) (audioContext s) = []
  ∧ outputs (mixerAnalyser s) (audioContext s) = []
  ∧ outputs (mediaStreamDestinationNode s) (audioContext s) = []
  ∧ ctx_wf (audioContext s)
  ∧ (∀ c, c < length (nodes ctx) → outputs c (audioContext s) = outputs c ctx).
Proof.
  intros Hwf Hnd -> Hkey.
  destruct (constructor_context st prefs ctx Hnd)
    as (Hnodes & Hedges & -> & -> & -> & -> & -> & ->).
  destruct (constructor_mixer st prefs ctx) as [Hmix _].
  set (n := length (nodes ctx)) in *.
  set (ctxN := mkAudioContext
                 (nodes ctx ++ [MediaStreamAudioDestinationNode; GainNode;
                                MediaStreamAudioDestinationNode; GainNode; AnalyserNode;
                                GainNode; GainNode; GainNode; AnalyserNode])
                 (edges ctx)).
  assert (audioContext (AudioSystem_constructor st prefs ctx)
          = connect (7 + n) (8 + n) (connect (5 + n) (8 + n) (connect (6 + n) (8 + n)
            (connect (7 + n) (1 + n) (connect (5 + n) (1 + n) (connect (6 + n) (1 + n)
            (connect (4 + n) n (connect (3 + n) (4 + n)
            (connect (1 + n) ctx_destination ctxN))))))))) as ->.
  { apply AudioContext_eq.
    - rewrite !nodes_connect. exact Hnodes.
    - rewrite Hedges. repeat apply edges_connect_ext. reflexivity. }
  assert (length (nodes ctxN) = 9 + n) as Hlen.
  { subst ctxN n. cbn [nodes]. rewrite length_app. simpl. lia. }
  assert (ctx_wf ctxN) as HwfN.
  { unfold ctx_wf in Hwf |- *. rewrite Hlen. eapply Forall_impl; [exact Hwf|].
    intros e He. simpl in He |- *. fold n in He. lia. }
  assert (∀ c, n ≤ c → outputs c ctxN = []) as Hfresh.
  { intros c Hc. by apply (outputs_fresh ctx). }
  assert (mixer (AudioSystem_constructor st prefs ctx) !! AVATAR_AUDIO_SOURCE st
          = Some (6 + n)
          ∧ mixer (AudioSystem_constructor st prefs ctx) !! MEDIA_VIDEO st = Some (5 + n)
          ∧ mixer (AudioSystem_constructor st prefs ctx) !! SFX st = Some (7 + n))
    as (Ha & Hm & Hf).
  { exact (constructor_wired (mkEnv st 0%Q prefs false None 0%Q [] (λ _, Stereo)
                                (λ _ a, a)) prefs ctx Hnd). }
  assert (mixer (AudioSystem_constructor st prefs ctx) !! AUDIO_TARGET st = Some (5 + n))
    as Ht.
  { apply NoDup_cons in Hnd as [_ Hnd]. apply NoDup_cons in Hnd as [_ Hnd].
    apply NoDup_cons in Hnd as [H3 _].
    apply not_elem_of_cons in H3 as [Hts _].
    rewrite Hmix. by rewrite lookup_insert_ne, lookup_insert_eq by done. }
  assert (∀ g, g = 5 + n ∨ g = 6 + n ∨ g = 7 + n →
            outputs g
              (connect (7 + n) (8 + n) (connect (5 + n) (8 + n) (connect (6 + n) (8 + n)
              (connect (7 + n) (1 + n) (connect (5 + n) (1 + n) (connect (6 + n) (1 + n)
              (connect (4 + n) n (connect (3 + n) (4 + n)
              (connect (1 + n) ctx_destination ctxN)))))))))
            = [1 + n; 8 + n]) as Hcat.
  { intros g Hg.
    destruct Hg as [-> | [-> | ->]];
      repeat first
        [ rewrite outputs_connect_ne by lia
        | rewrite outputs_connect_eq ];
      rewrite Hfresh by lia; simpl;
      repeat (rewrite bool_decide_false
                by (intros ?%list_elem_of_singleton; lia) || simpl); done. }
  split_and!.
  - repeat (apply elem_of_cons in Hkey as [->|Hkey]);
      [eexists; split; [eassumption|by apply Hcat; auto]..|].
    by apply elem_of_nil in Hkey.
  - rewrite !outputs_connect_ne by lia. apply outputs_connect_new, Hfresh. lia.
  - rewrite !outputs_connect_ne by lia. apply outputs_connect_new.
    rewrite outputs_connect_ne by lia. apply Hfresh. lia.
  - rewrite !outputs_connect_ne by lia. apply outputs_connect_new.
    rewrite !outputs_connect_ne by lia. apply Hfresh. lia.
  - rewrite !outputs_connect_ne by lia. apply Hfresh. lia.
  - rewrite !outputs_connect_ne by lia. apply Hfresh. lia.
  - rewrite !outputs_connect_ne by lia. apply Hfresh. lia.
  - repeat (apply ctx_wf_connect; [rewrite ?nodes_connect; lia|]). done.
  - intros c Hc. by rewrite !outputs_connect_ne by lia.
Qed.

Lemma constructor_wiring_witness :
  (∃ g, mixer sys0 !! "audio-target" = Some g
        ∧ outputs g (audioContext sys0) = [destinationGain sys0; mixerAnalyser sys0])
  ∧ outputs (destinationGain sys0) (audioContext sys0) = [ctx_destination]
  ∧ outputs (outboundGainNode sys0) (audioContext sys0) = [outboundAnalyser sys0]
  ∧ outputs (outboundAnalyser sys0) (audioContext sys0)
    = [mediaStreamDestinationNode sys0]
  ∧ outputs (audioDestination sys0) (audioContext sys0) = []
  ∧ outputs (mixerAnalyser sys0) (audioContext sys0) = []
  ∧ outputs (mediaStreamDestinationNode sys0) (audioContext sys0) = []
  ∧ ctx_wf (audioContext sys0)
  ∧ (∀ c, c < length (nodes newAudioContext) →
       outputs c (audioContext sys0) = outputs c newAudioContext).
Proof.
  apply (constructor_wiring hubs_SourceType prefs0 newAudioContext sys0 "audio-target").
  - apply (bool_decide_unpack _). by vm_compute.
  - apply (bool_decide_unpack _). by vm_compute.
  - reflexivity.
  - apply (bool_decide_unpack _). by vm_compute.
Defined.

(** ** Output routing: where the categories end up *)

Lemma outputs_rerouted a m f sink analyser ctx :
  NoDup [a; m; f] → sink ≠ analyser →
  outputs a (rerouted a m f sink analyser ctx) = [sink; analyser]
  ∧ outputs m (rerouted a m f sink analyser ctx) = [sink; analyser]
  ∧ outputs f (rerouted a m f sink analyser ctx) = [sink; analyser]
  ∧ (∀ c, c ∉ [a; m; f] →
       outputs c (rerouted a m f sink analyser ctx) = outputs c ctx).
Proof.
  intros Hnd Hsa.
  apply NoDup_cons in Hnd as [H1 Hnd]. apply NoDup_cons in Hnd as [H2 _].
  apply not_elem_of_cons in H1 as [Ham H1]. apply not_elem_of_cons in H1 as [Haf _].
  apply not_elem_of_cons in H2 as [Hmf _].
  assert (∀ x c, outputs x c = [] →
            outputs x (connect x analyser (connect x sink c)) = [sink; analyser]) as Hone.
  { intros x c Hx. rewrite outputs_connect_eq, (outputs_connect_new _ _ _ Hx).
    rewrite bool_decide_false; [done|].
    intros ?%list_elem_of_singleton. congruence. }
  unfold rerouted. split_and!.
  - rewrite !(outputs_connect_ne f), (outputs_disconnect_ne f) by done.
    rewrite !(outputs_connect_ne m), (outputs_disconnect_ne m) by done.
    apply Hone, outputs_disconnect_eq.
  - rewrite !(outputs_connect_ne f), (outputs_disconnect_ne f) by done.
    apply Hone, outputs_disconnect_eq.
  - apply Hone, outputs_disconnect_eq.
  - intros c Hc.
    apply not_elem_of_cons in Hc as [Hca Hc]. apply not_elem_of_cons in Hc as [Hcm Hc].
    apply not_elem_of_cons in Hc as [Hcf _].
    by rewrite !outputs_connect_ne, !outputs_disconnect_ne,
      !outputs_connect_ne, !outputs_disconnect_ne,
      !outputs_connect_ne, !outputs_disconnect_ne by done.
Qed.

Lemma audioContext_emit_set e g s :
  audioContext (emit e (set_audioContext g s)) = g (audioContext s).
Proof. done. Qed.

Lemma reroute_nodes_run env s a m f sink an (k : JS AudioSystem unit) :
  mixer_wired env s a m f →
  ∃ s9,
    (mixer_disconnect (AVATAR_AUDIO_SOURCE (SourceType env));;
     mixer_connect (AVATAR_AUDIO_SOURCE (SourceType env)) sink;;
     mixer_connect (AVATAR_AUDIO_SOURCE (SourceType env)) an;;
     mixer_disconnect (MEDIA_VIDEO (SourceType env));;
     mixer_connect (MEDIA_VIDEO (SourceType env)) sink;;
     mixer_connect (MEDIA_VIDEO (SourceType env)) an;;
     mixer_disconnect (SFX (SourceType env));;
     mixer_connect (SFX (SourceType env)) sink;;
     mixer_connect (SFX (SourceType env)) an;;
     k) s = k s9
    ∧ audioContext s9 = rerouted a m f sink an (audioContext s)
    ∧ effects s9 = effects s ++ reroute_calls a m f sink an
    ∧ elements s9 = elements s ∧ sinkRequests s9 = sinkRequests s
    ∧ outputMediaAudio s9 = outputMediaAudio s ∧ mixer s9 = mixer s
    ∧ mixerAnalyser s9 = mixerAnalyser s ∧ destinationGain s9 = destinationGain s
    ∧ audioDestination s9 = audioDestination s
    ∧ audioNodes s9 = audioNodes s
    ∧ disableLeftRightPanning s9 = disableLeftRightPanning s
    ∧ audioPanningQuality s9 = audioPanningQuality s.
Proof.
  intros (Ha & Hm & Hf).
  do 9 js_step.
  eexists. split; [reflexivity|].
  split_and!.
  - unfold rerouted. by rewrite !audioContext_emit_set.
  - cbn. rewrite <- !app_assoc. reflexivity.
  - reflexivity.
  - reflexivity.
  - reflexivity.
  - reflexivity.
  - reflexivity.
  - reflexivity.
  - reflexivity.
  - reflexivity.
  - reflexivity.
  - reflexivity.
Qed.

(** What a preference update leaves behind, from what the routing step
    leaves behind. *)
Lemma updatePrefs_unfold env s a m f :
  mixer_wired env s a m f →
  ∃ s1 s2,
    s1 = emit_all
           [EParamSetTargetAtTime m (globalMediaVolume (preferences env) / 100)%Q
              (currentTime env) (GAIN_TIME_CONST env);
            EParamSetTargetAtTime f (globalSFXVolume (preferences env) / 100)%Q
              (currentTime env) (GAIN_TIME_CONST env);
            EParamSetTargetAtTime a (globalVoiceVolume (preferences env) / 100)%Q
              (currentTime env) (GAIN_TIME_CONST env)] s
    ∧ routeOutput env s1 = (Normal tt, s2)
    ∧ updatePrefs env s
      = (Normal tt,
         emit_all
           (flat_map
              (audio_calls env
                 (bool_decide (disableLeftRightPanning s
                               ≠ pref_disableLeftRightPanning (preferences env)))
                 (bool_decide (audioPanningQuality s
                               ≠ pref_audioPanningQuality (preferences env))))
              (audios env))
           (set_panning (pref_disableLeftRightPanning (preferences env))
              (pref_audioPanningQuality (preferences env)) s2)).
Proof.
  intros Hw. pose proof Hw as (Ha & Hm & Hf). unfold updatePrefs.
  do 3 js_step.
  match goal with |- context [(routeOutput env ≫= _) ?s0] => set (s1 := s0) end.
  destruct (routeOutput_run env s1 a m f Hw)
    as (s2 & route & Hrun & Hmix & Hd & Hq & _).
  exists s1, s2. split; [|split; [done|]].
  - subst s1. rewrite !emit_emit_all, !emit_all_app. done.
  - rewrite (bind_run _ _ _ _ _ Hrun), bind_get, bind_modify, forEach_updateAudio.
    by rewrite Hd, Hq.
Qed.

Lemma alter_app_new {A} (g : A → A) (l : list A) (x : A) :
  alter g (length l) (l ++ [x]) = l ++ [g x].
Proof.
  induction l as [|y l IH]; [done|]. simpl. by rewrite <- IH.
Qed.

Lemma routeOutput_to_explicit env s mdm a m f :
  mixer_wired env s a m f →
  isAudioOutputSelectEnabled env = true →
  mediaDevicesManager env = Some mdm →
  selectedSpeakersDeviceId mdm ≠ defaultOutputDeviceId mdm →
  selectedSpeakersDeviceId mdm ≠ "" →
  outputMediaAudio s = None →
  ∃ s', routeOutput env s = (Normal tt, s')
    ∧ audioContext s'
      = rerouted a m f (audioDestination s) (mixerAnalyser s) (audioContext s)
    ∧ outputMediaAudio s' = Some (length (elements s))
    ∧ elements s'
      = elements s ++ [mkAudioElement "" (Some (audioDestination s)) true]
    ∧ sinkRequests s'
      = sinkRequests s ++ [(length (elements s), selectedSpeakersDeviceId mdm)]
    ∧ mixer s' = mixer s
    ∧ mixerAnalyser s' = mixerAnalyser s
    ∧ destinationGain s' = destinationGain s
    ∧ audioDestination s' = audioDestination s.
Proof.
  intros Hw Hen Hmdm Hnd Hne Hel. pose proof Hw as (Ha & Hm & Hf).
  unfold routeOutput. rewrite Hen, Hmdm, bind_get.
  assert (shouldReroute s mdm = true) as ->.
  { unfold shouldReroute, outputMediaAudio_sinkId. rewrite Hel. simpl.
    rewrite (bool_decide_false _ Hnd). done. }
  unfold rerouteOutput. rewrite (bool_decide_false _ Hnd), bind_get.
  edestruct (reroute_nodes_run env s a m f (audioDestination s) (mixerAnalyser s))
    as (s9 & Hrun & Hctx & _ & Hels & Hreq & Hout & Hmix & Han & Hdg & Had & _);
    [exact Hw|].
  rewrite Hrun, Hel. clear Hrun.
  repeat js_step.
  cbn [outputMediaAudio_sinkId outputMediaAudio elements audioDestination
         set_outputMediaAudio set_elements default mbind option_bind].
  unfold id. rewrite alter_app_new, lookup_app_r, Nat.sub_diag by lia.
  cbn [lookup list_lookup fmap option_fmap option_map element_set_srcObject
         newAudio sinkId].
  rewrite bool_decide_true by (intros [= E]; by apply Hne).
  unfold modify. eexists. split; [reflexivity|].
  cbn. rewrite Hctx, Hels, Hreq, Hmix, Han, Hdg, Had, alter_app_new. done.
Qed.

Ltac fields :=
  cbn [audioContext audioNodes mediaStreamDestinationNode destinationGain
       audioDestination outboundGainNode outboundAnalyser mediaGain mixer
       mixerAnalyser outputMediaAudio disableLeftRightPanning audioPanningQuality
       elements sinkRequests effects emit emit_all set_panning set_elements
       set_outputMediaAudio set_sinkRequests set_audioContext set_audioNodes].

Lemma routeOutput_to_default env s mdm a m f el :
  mixer_wired env s a m f →
  isAudioOutputSelectEnabled env = true →
  mediaDevicesManager env = Some mdm →
  selectedSpeakersDeviceId mdm = defaultOutputDeviceId mdm →
  outputMediaAudio s = Some el →
  outputMediaAudio_sinkId s ≠ Some (selectedSpeakersDeviceId mdm) →
  ∃ s', routeOutput env s = (Normal tt, s')
    ∧ audioContext s'
      = rerouted a m f (destinationGain s) (mixerAnalyser s) (audioContext s)
    ∧ outputMediaAudio s' = None
    ∧ elements s'
      = alter (element_set_srcObject None) el (alter element_pause el (elements s))
    ∧ sinkRequests s' = sinkRequests s
    ∧ mixer s' = mixer s
    ∧ mixerAnalyser s' = mixerAnalyser s
    ∧ destinationGain s' = destinationGain s
    ∧ audioDestination s' = audioDestination s.
Proof.
  intros Hw Hen Hmdm Hd Hel Hsink.
  unfold routeOutput. rewrite Hen, Hmdm, bind_get.
  assert (shouldReroute s mdm = true) as ->.
  { unfold shouldReroute. rewrite Hel.
    rewrite (bool_decide_true (is_Some _)) by by eexists.
    rewrite (bool_decide_true (Some _ ≠ _)); [done|]. by intros E. }
  unfold rerouteOutput. rewrite (bool_decide_true _ Hd), bind_get.
  edestruct (reroute_nodes_run env s a m f (destinationGain s) (mixerAnalyser s))
    as (s9 & Hrun & Hctx & _ & Hels & Hreq & Hout & Hmix & Han & Hdg & Had & _);
    [exact Hw|].
  rewrite Hrun, Hel. clear Hrun.
  repeat js_step. unfold modify. eexists. split; [reflexivity|].
  fields. by rewrite Hctx, Hels, Hreq, Hmix, Han, Hdg, Had.
Qed.

(** Whatever the selection, the routing step moves at most the three
    category nodes, creates no node and leaves the registry of outbound
    streams alone. *)
Lemma routeOutput_graph env s a m f :
  mixer_wired env s a m f →
  ∃ s', routeOutput env s = (Normal tt, s')
    ∧ (audioContext s' = audioContext s
       ∨ ∃ sink, audioContext s'
                 = rerouted a m f sink (mixerAnalyser s) (audioContext s))
    ∧ audioNodes s' = audioNodes s.
Proof.
  intros Hw. unfold routeOutput.
  destruct (isAudioOutputSelectEnabled env); [|by exists s; auto].
  destruct (mediaDevicesManager env) as [mdm|]; [|by exists s; auto].
  rewrite bind_get.
  destruct (shouldReroute s mdm); [|by exists s; auto].
  unfold rerouteOutput. rewrite bind_get.
  edestruct (reroute_nodes_run env s a m f
               (if bool_decide (selectedSpeakersDeviceId mdm = defaultOutputDeviceId mdm)
                then destinationGain s else audioDestination s) (mixerAnalyser s))
    as (s9 & Hrun & Hctx & _ & _ & _ & _ & _ & _ & _ & _ & Hnodes & _);
    [exact Hw|].
  rewrite Hrun. clear Hrun.
  destruct (bool_decide (selectedSpeakersDeviceId mdm = defaultOutputDeviceId mdm)).
  - destruct (outputMediaAudio s) as [el|].
    + repeat js_step. unfold modify. eexists. split; [reflexivity|].
      fields. rewrite Hctx, Hnodes. eauto.
    + eexists. split; [reflexivity|]. rewrite Hctx, Hnodes. eauto.
  - destruct (outputMediaAudio s) as [el|].
    + repeat js_step.
      match goal with |- context [bool_decide ?P] => destruct (bool_decide P) end.
      * unfold modify. eexists. split; [reflexivity|].
        fields. rewrite Hctx, Hnodes. eauto.
      * eexists. split; [reflexivity|]. rewrite Hctx, Hnodes. eauto.
    + repeat js_step.
      match goal with |- context [bool_decide ?P] => destruct (bool_decide P) end.
      * unfold modify. eexists. split; [reflexivity|].
        fields. rewrite Hctx, Hnodes. eauto.
      * eexists. split; [reflexivity|]. fields. rewrite Hctx, Hnodes. eauto.
Qed.

Lemma outputs_rerouted_other a m f sink an ctx c :
  c ∉ [a; m; f] → outputs c (rerouted a m f sink an ctx) = outputs c ctx.
Proof.
  intros Hc. unfold rerouted.
  apply not_elem_of_cons in Hc as [Hca Hc]. apply not_elem_of_cons in Hc as [Hcm Hc].
  apply not_elem_of_cons in Hc as [Hcf _].
  by rewrite !outputs_connect_ne, !outputs_disconnect_ne,
    !outputs_connect_ne, !outputs_disconnect_ne,
    !outputs_connect_ne, !outputs_disconnect_ne by done.
Qed.

Lemma filter_bool_none {A} (P : A → bool) (l : list A) :
  Forall (λ e, P e = false) l → filter P l = [].
Proof.
  induction 1 as [|e l He Hl IH]; [done|].
  rewrite filter_cons, decide_False; [exact IH|].
  rewrite He. by intros [].
Qed.

Lemma nodes_rerouted a m f sink an ctx :
  nodes (rerouted a m f sink an ctx) = nodes ctx.
Proof.
  unfold rerouted.
  do 3 (rewrite !nodes_connect; cbn [disconnect nodes]). done.
Qed.

(** ** Output routing: the preference update *)

Lemma routeOutput_in_place env s mdm :
  isAudioOutputSelectEnabled env = true →
  mediaDevicesManager env = Some mdm →
  shouldReroute s mdm = false →
  routeOutput env s = (Normal tt, s).
Proof.
  intros Hen Hmdm Hno. unfold routeOutput. by rewrite Hen, Hmdm, bind_get, Hno.
Qed.


(** The state a preference update ends in, field by field, from the state
    its routing step ends in. *)
Lemma updatePrefs_fields env s a m f :
  mixer_wired env s a m f →
  ∃ vols s2,
    routeOutput env (emit_all vols s) = (Normal tt, s2)
    ∧ Forall (λ e, is_node_call e = false ∧ is_panning_call e = false) vols
    ∧ (updatePrefs env s).1 = Normal tt
    ∧ audioContext (updatePrefs env s).2 = audioContext s2
    ∧ audioNodes (updatePrefs env s).2 = audioNodes s2
    ∧ mixer (updatePrefs env s).2 = mixer s2
    ∧ mixerAnalyser (updatePrefs env s).2 = mixerAnalyser s2
    ∧ destinationGain (updatePrefs env s).2 = destinationGain s2
    ∧ audioDestination (updatePrefs env s).2 = audioDestination s2
    ∧ outputMediaAudio (updatePrefs env s).2 = outputMediaAudio s2
    ∧ elements (updatePrefs env s).2 = elements s2
    ∧ sinkRequests (updatePrefs env s).2 = sinkRequests s2
    ∧ disableLeftRightPanning (updatePrefs env s).2
      = pref_disableLeftRightPanning (preferences env)
    ∧ audioPanningQuality (updatePrefs env s).2
      = pref_audioPanningQuality (preferences env)
    ∧ effects (updatePrefs env s).2
      = effects s2
        ++ flat_map
             (audio_calls env
                (bool_decide (disableLeftRightPanning s
                              ≠ pref_disableLeftRightPanning (preferences env)))
                (bool_decide (audioPanningQuality s
                              ≠ pref_audioPanningQuality (preferences env))))
             (audios env).
Proof.
  intros Hw.
  destruct (updatePrefs_unfold env s a m f Hw) as (s1 & s2 & -> & Hroute & ->).
  eexists _, s2. split; [exact Hroute|]. split; [by repeat constructor|].
  cbn [fst snd]. fields. by split_and!.
Qed.

(** X6. An explicit output device is selected for the first time
    (selection is on, the device is neither the default one nor the empty
    id, no hidden element exists yet). The update returns normally; each of
    the three category nodes then feeds the intermediate stream destination
    and the mixer analyser and nothing else, so none feeds the final mix
    node any more; no other node's connections change; a hidden element is
    created with the intermediate destination as its source, still paused
    and on the default sink, and one [setSinkId] request for the selected
    device is pending. *)
Theorem updatePrefs_moves_output_to_selected_device env s mdm a m f :
  mixer_wired env s a m f →
  NoDup [a; m; f] →
  audioDestination s ≠ mixerAnalyser s →
  isAudioOutputSelectEnabled env = true →
  mediaDevicesManager env = Some mdm →
  selectedSpeakersDeviceId mdm ≠ defaultOutputDeviceId mdm →
  selectedSpeakersDeviceId mdm ≠ "" →
  outputMediaAudio s = None →
  (updatePrefs env s).1 = Normal tt
  ∧ outputs a (audioContext (updatePrefs env s).2)
    = [audioDestination s; mixerAnalyser s]
  ∧ outputs m (audioContext (updatePrefs env s).2)
    = [audioDestination s; mixerAnalyser s]
  ∧ outputs f (audioContext (updatePrefs env s).2)
    = [audioDestination s; mixerAnalyser s]
  ∧ (∀ c, c ∉ [a; m; f] →
       outputs c (audioContext (updatePrefs env s).2) = outputs c (audioContext s))
  ∧ outputMediaAudio (updatePrefs env s).2 = Some (length (elements s))
  ∧ elements (updatePrefs env s).2
    = elements s
      ++ [{| sinkId := ""; srcObject := Some (audioDestination s); paused := true |}]
  ∧ sinkRequests (updatePrefs env s).2
    = sinkRequests s ++ [(length (elements s), selectedSpeakersDeviceId mdm)].
Proof.
  intros Hw Hnd Hsa Hen Hmdm Hsel Hne Hel.
  destruct (updatePrefs_unfold env s a m f Hw) as (s1 & s2 & -> & Hroute & ->).
  match type of Hroute with routeOutput _ ?st = _ =>
    destruct (routeOutput_to_explicit env st mdm a m f Hw Hen Hmdm Hsel Hne Hel)
      as (s' & Hr & Hctx & Ho & Hels & Hreq & _)
  end.
  rewrite Hroute in Hr. injection Hr as <-.
  cbn [fst snd]. fields. rewrite Hctx, Ho, Hels, Hreq. fields.
  destruct (outputs_rerouted a m f (audioDestination s) (mixerAnalyser s)
              (audioContext s) Hnd Hsa) as (Ha & Hm & Hf & Hc).
  by split_and!.
Qed.

Lemma updatePrefs_moves_output_to_selected_device_witness :
  (updatePrefs env_explicit sys0).1 = Normal tt
  ∧ outputs 7 (audioContext (updatePrefs env_explicit sys0).2)
    = [audioDestination sys0; mixerAnalyser sys0]
  ∧ outputs 6 (audioContext (updatePrefs env_explicit sys0).2)
    = [audioDestination sys0; mixerAnalyser sys0]
  ∧ outputs 8 (audioContext (updatePrefs env_explicit sys0).2)
    = [audioDestination sys0; mixerAnalyser sys0]
  ∧ (∀ c, c ∉ [7; 6; 8] →
       outputs c (audioContext (updatePrefs env_explicit sys0).2)
       = outputs c (audioContext sys0))
  ∧ outputMediaAudio (updatePrefs env_explicit sys0).2 = Some (length (elements sys0))
  ∧ elements (updatePrefs env_explicit sys0).2
    = elements sys0
      ++ [{| sinkId := ""; srcObject := Some (audioDestination sys0); paused := true |}]
  ∧ sinkRequests (updatePrefs env_explicit sys0).2
    = sinkRequests sys0
      ++ [(length (elements sys0),
           selectedSpeakersDeviceId
             {| selectedSpeakersDeviceId := "speakers-1";
                defaultOutputDeviceId := "default" |})].
Proof.
  apply (updatePrefs_moves_output_to_selected_device env_explicit sys0
           {| selectedSpeakersDeviceId := "speakers-1";
              defaultOutputDeviceId := "default" |} 7 6 8).
  - by vm_compute.
  - apply (bool_decide_unpack _). by vm_compute.
  - by vm_compute.
  - reflexivity.
  - reflexivity.
  - by vm_compute.
  - by vm_compute.
  - reflexivity.
Defined.

(** X7. The default device is selected again while a hidden element
    exists that is not on it. The update returns normally; each of the
    three category nodes then feeds the final mix node and the mixer
    analyser and nothing else; no other node's connections change; the
    hidden element is paused, loses its source and is dropped from the
    system, every other element is untouched, and no [setSinkId] request is
    started. *)
Theorem updatePrefs_returns_output_to_default_device env s mdm a m f el :
  mixer_wired env s a m f →
  NoDup [a; m; f] →
  destinationGain s ≠ mixerAnalyser s →
  isAudioOutputSelectEnabled env = true →
  mediaDevicesManager env = Some mdm →
  selectedSpeakersDeviceId mdm = defaultOutputDeviceId mdm →
  outputMediaAudio s = Some el →
  sinkId <$> elements s !! el ≠ Some (selectedSpeakersDeviceId mdm) →
  (updatePrefs env s).1 = Normal tt
  ∧ outputs a (audioContext (updatePrefs env s).2)
    = [destinationGain s; mixerAnalyser s]
  ∧ outputs m (audioContext (updatePrefs env s).2)
    = [destinationGain s; mixerAnalyser s]
  ∧ outputs f (audioContext (updatePrefs env s).2)
    = [destinationGain s; mixerAnalyser s]
  ∧ (∀ c, c ∉ [a; m; f] →
       outputs c (audioContext (updatePrefs env s).2) = outputs c (audioContext s))
  ∧ outputMediaAudio (updatePrefs env s).2 = None
  ∧ elements (updatePrefs env s).2 !! el
    = (λ e, {| sinkId := sinkId e; srcObject := None; paused := true |})
        <$> elements s !! el
  ∧ (∀ i, i ≠ el → elements (updatePrefs env s).2 !! i = elements s !! i)
  ∧ sinkRequests (updatePrefs env s).2 = sinkRequests s.
Proof.
  intros Hw Hnd Hsa Hen Hmdm Hsel Hel Hsink.
  destruct (updatePrefs_unfold env s a m f Hw) as (s1 & s2 & -> & Hroute & ->).
  match type of Hroute with routeOutput _ ?st = _ =>
    destruct (routeOutput_to_default env st mdm a m f el Hw Hen Hmdm Hsel Hel)
      as (s' & Hr & Hctx & Ho & Hels & Hreq & _)
  end.
  { unfold outputMediaAudio_sinkId. fields. by rewrite Hel. }
  rewrite Hroute in Hr. injection Hr as <-.
  cbn [fst snd]. fields. rewrite Hctx, Ho, Hels, Hreq. fields.
  destruct (outputs_rerouted a m f (destinationGain s) (mixerAnalyser s)
              (audioContext s) Hnd Hsa) as (Ha & Hm & Hf & Hc).
  split_and!; try done.
  - rewrite !list_lookup_alter. rewrite !decide_True by done.
    by destruct (elements s !! el).
  - intros i Hi. by rewrite !list_lookup_alter_ne.
Qed.

Lemma updatePrefs_returns_output_to_default_device_witness :
  (updatePrefs env_default sys_speakers).1 = Normal tt
  ∧ outputs 7 (audioContext (updatePrefs env_default sys_speakers).2)
    = [destinationGain sys_speakers; mixerAnalyser sys_speakers]
  ∧ outputs 6 (audioContext (updatePrefs env_default sys_speakers).2)
    = [destinationGain sys_speakers; mixerAnalyser sys_speakers]
  ∧ outputs 8 (audioContext (updatePrefs env_default sys_speakers).2)
    = [destinationGain sys_speakers; mixerAnalyser sys_speakers]
  ∧ (∀ c, c ∉ [7; 6; 8] →
       outputs c (audioContext (updatePrefs env_default sys_speakers).2)
       = outputs c (audioContext sys_speakers))
  ∧ outputMediaAudio (updatePrefs env_default sys_speakers).2 = None
  ∧ elements (updatePrefs env_default sys_speakers).2 !! 0
    = (λ e, {| sinkId := sinkId e; srcObject := None; paused := true |})
        <$> elements sys_speakers !! 0
  ∧ (∀ i, i ≠ 0 →
       elements (updatePrefs env_default sys_speakers).2 !! i
       = elements sys_speakers !! i)
  ∧ sinkRequests (updatePrefs env_default sys_speakers).2 = sinkRequests sys_speakers.
Proof.
  apply (updatePrefs_returns_output_to_default_device env_default sys_speakers
           {| selectedSpeakersDeviceId := "default";
              defaultOutputDeviceId := "default" |} 7 6 8 0).
  - by vm_compute.
  - apply (bool_decide_unpack _). by vm_compute.
  - by vm_compute.
  - reflexivity.
  - reflexivity.
  - reflexivity.
  - by vm_compute.
  - by vm_compute.
Defined.

(** *** Settling the request *)

Lemma delete_app_new {A} (l : list A) (x : A) : delete (length l) (l ++ [x]) = l.
Proof.
  induction l as [|y l IH]; [done|]. cbn [length app]. cbn. f_equal. exact IH.
Qed.

(** The request the last update started is settled. *)
Lemma settle_last s1 els e reqs sel b :
  elements s1 = els ++ [e] →
  sinkRequests s1 = reqs ++ [(length els, sel)] →
  outputMediaAudio s1 = Some (length els) →
  elements (settleSetSinkId (length reqs) b s1)
  = els ++ [if b then element_play (element_set_sinkId sel e) else e]
  ∧ sinkRequests (settleSetSinkId (length reqs) b s1) = reqs
  ∧ outputMediaAudio (settleSetSinkId (length reqs) b s1) = Some (length els)
  ∧ audioContext (settleSetSinkId (length reqs) b s1) = audioContext s1
  ∧ mixer (settleSetSinkId (length reqs) b s1) = mixer s1
  ∧ mixerAnalyser (settleSetSinkId (length reqs) b s1) = mixerAnalyser s1
  ∧ destinationGain (settleSetSinkId (length reqs) b s1) = destinationGain s1
  ∧ audioDestination (settleSetSinkId (length reqs) b s1) = audioDestination s1
  ∧ disableLeftRightPanning (settleSetSinkId (length reqs) b s1)
    = disableLeftRightPanning s1
  ∧ audioPanningQuality (settleSetSinkId (length reqs) b s1) = audioPanningQuality s1.
Proof.
  intros Hels Hreq Ho. unfold settleSetSinkId.
  rewrite Hreq, lookup_app_r, Nat.sub_diag by lia. cbn [lookup list_lookup].
  destruct b; fields.
  - rewrite Ho. fields. rewrite Hels, Hreq, !alter_app_new, delete_app_new. done.
  - rewrite Hreq, Hels, delete_app_new. done.
Qed.

(** An explicit device is selected for the first time and the request the
    update started is settled, either way. *)
Lemma explicit_then_settled env s mdm a m f b s' :
  mixer_wired env s a m f →
  isAudioOutputSelectEnabled env = true →
  mediaDevicesManager env = Some mdm →
  selectedSpeakersDeviceId mdm ≠ defaultOutputDeviceId mdm →
  selectedSpeakersDeviceId mdm ≠ "" →
  outputMediaAudio s = None →
  s' = settleSetSinkId (length (sinkRequests s)) b (updatePrefs env s).2 →
  audioContext s'
  = rerouted a m f (audioDestination s) (mixerAnalyser s) (audioContext s)
  ∧ elements s'
    = elements s
      ++ [if b
          then {| sinkId := selectedSpeakersDeviceId mdm;
                  srcObject := Some (audioDestination s); paused := false |}
          else {| sinkId := ""; srcObject := Some (audioDestination s);
                  paused := true |}]
  ∧ sinkRequests s' = sinkRequests s
  ∧ outputMediaAudio s' = Some (length (elements s))
  ∧ mixer s' = mixer s
  ∧ mixerAnalyser s' = mixerAnalyser s
  ∧ destinationGain s' = destinationGain s
  ∧ audioDestination s' = audioDestination s
  ∧ disableLeftRightPanning s' = pref_disableLeftRightPanning (preferences env)
  ∧ audioPanningQuality s' = pref_audioPanningQuality (preferences env)
  ∧ audioContext s' = audioContext (updatePrefs env s).2.
Proof.
  intros Hw Hen Hmdm Hsel Hne Hel ->.
  destruct (updatePrefs_fields env s a m f Hw)
    as (vols & s2 & Hroute & _ & _ & Hctx & _ & Hmix & Han & Hdg & Had & Ho & Hels
        & Hreq & Hd & Hq & _).
  destruct (routeOutput_to_explicit env (emit_all vols s) mdm a m f Hw Hen Hmdm
              Hsel Hne Hel)
    as (s2' & Hr & Hctx2 & Ho2 & Hels2 & Hreq2 & Hmix2 & Han2 & Hdg2 & Had2).
  rewrite Hroute in Hr. injection Hr as <-.
  revert Hctx2 Ho2 Hels2 Hreq2 Hmix2 Han2 Hdg2 Had2. fields.
  intros Hctx2 Ho2 Hels2 Hreq2 Hmix2 Han2 Hdg2 Had2.
  rewrite Hels2 in Hels. rewrite Hreq2 in Hreq. rewrite Ho2 in Ho.
  destruct (settle_last _ _ _ _ _ b Hels Hreq Ho)
    as (-> & -> & -> & -> & -> & -> & -> & -> & -> & ->).
  rewrite Hctx, Hctx2, Hmix, Hmix2, Han, Han2, Hdg, Hdg2, Had, Had2, Hd, Hq.
  by split_and!.
Qed.

(** *** C5, amended: a rejected redirect *)




(** X8. Once the [setSinkId] request of a first explicit selection is
    fulfilled, the hidden element is on the selected device and playing, and
    a further update with the same selection returns normally, makes no
    connect or disconnect call, leaves the graph and the elements as they
    are and starts no further request. *)
Theorem fulfilled_selection_is_stable env s mdm a m f :
  mixer_wired env s a m f →
  isAudioOutputSelectEnabled env = true →
  mediaDevicesManager env = Some mdm →
  selectedSpeakersDeviceId mdm ≠ defaultOutputDeviceId mdm →
  selectedSpeakersDeviceId mdm ≠ "" →
  outputMediaAudio s = None →
  elements (settleSetSinkId (length (sinkRequests s)) true (updatePrefs env s).2)
  = elements s
    ++ [{| sinkId := selectedSpeakersDeviceId mdm;
           srcObject := Some (audioDestination s); paused := false |}]
  ∧ (updatePrefs env
       (settleSetSinkId (length (sinkRequests s)) true (updatePrefs env s).2)).1
    = Normal tt
  ∧ filter is_node_call
      (issued (updatePrefs env)
         (settleSetSinkId (length (sinkRequests s)) true (updatePrefs env s).2))
    = []
  ∧ audioContext
      (updatePrefs env
         (settleSetSinkId (length (sinkRequests s)) true (updatePrefs env s).2)).2
    = audioContext (updatePrefs env s).2
  ∧ elements
      (updatePrefs env
         (settleSetSinkId (length (sinkRequests s)) true (updatePrefs env s).2)).2
    = elements (settleSetSinkId (length (sinkRequests s)) true (updatePrefs env s).2)
  ∧ sinkRequests
      (updatePrefs env
         (settleSetSinkId (length (sinkRequests s)) true (updatePrefs env s).2)).2
    = sinkRequests s.
Proof.
  intros Hw Hen Hmdm Hsel Hne Hel.
  destruct (explicit_then_settled env s mdm a m f true _ Hw Hen Hmdm Hsel Hne Hel
              eq_refl)
    as (Hctx & Hels & Hreq & Ho & Hmix & Han & Hdg & Had & Hd & Hq & Hsame).
  set (s' := settleSetSinkId (length (sinkRequests s)) true (updatePrefs env s).2)
    in *.
  assert (mixer_wired env s' a m f) as Hw'.
  { unfold mixer_wired. by rewrite Hmix. }
  destruct (updatePrefs_fields env s' a m f Hw')
    as (vols & s2 & Hroute & Hvols & Hnormal & Hctx' & _ & _ & _ & _ & _ & _ & Hels'
        & Hreq' & _ & _ & Heff).
  rewrite (routeOutput_in_place env _ mdm Hen Hmdm) in Hroute.
  2:{ apply shouldReroute_false. left.
      unfold outputMediaAudio_sinkId. fields. rewrite Ho. cbn [mbind option_bind].
      by rewrite Hels, lookup_app_r, Nat.sub_diag by lia. }
  injection Hroute as <-. revert Hctx' Hels' Hreq' Heff. fields.
  intros Hctx' Hels' Hreq' Heff. rewrite <- app_assoc in Heff.
  split_and!; try done.
  - rewrite (issued_app _ _ _ Heff), filter_app.
    rewrite (filter_node_calls_none vols), filter_node_calls_none; [done| |].
    + apply audio_calls_not_node.
    + eapply Forall_impl; [exact Hvols|]. by intros e [He _].
  - by rewrite Hctx'.
  - by rewrite Hreq'.
Qed.

Lemma fulfilled_selection_is_stable_witness :
  elements (settleSetSinkId (length (sinkRequests sys0)) true
              (updatePrefs env_explicit sys0).2)
  = elements sys0
    ++ [{| sinkId :=
             selectedSpeakersDeviceId
               {| selectedSpeakersDeviceId := "speakers-1";
                  defaultOutputDeviceId := "default" |};
           srcObject := Some (audioDestination sys0); paused := false |}]
  ∧ (updatePrefs env_explicit
       (settleSetSinkId (length (sinkRequests sys0)) true
          (updatePrefs env_explicit sys0).2)).1
    = Normal tt
  ∧ filter is_node_call
      (issued (updatePrefs env_explicit)
         (settleSetSinkId (length (sinkRequests sys0)) true
            (updatePrefs env_explicit sys0).2))
    = []
  ∧ audioContext
      (updatePrefs env_explicit
         (settleSetSinkId (length (sinkRequests sys0)) true
            (updatePrefs env_explicit sys0).2)).2
    = audioContext (updatePrefs env_explicit sys0).2
  ∧ elements
      (updatePrefs env_explicit
         (settleSetSinkId (length (sinkRequests sys0)) true
            (updatePrefs env_explicit sys0).2)).2
    = elements (settleSetSinkId (length (sinkRequests sys0)) true
                  (updatePrefs env_explicit sys0).2)
  ∧ sinkRequests
      (updatePrefs env_explicit
         (settleSetSinkId (length (sinkRequests sys0)) true
            (updatePrefs env_explicit sys0).2)).2
    = sinkRequests sys0.
Proof.
  apply (fulfilled_selection_is_stable env_explicit sys0
           {| selectedSpeakersDeviceId := "speakers-1";
              defaultOutputDeviceId := "default" |} 7 6 8).
  - by vm_compute.
  - reflexivity.
  - reflexivity.
  - by vm_compute.
  - by vm_compute.
  - reflexivity.
Defined.

Lemma updatePrefs_mixer env s a m f :
  mixer_wired env s a m f → mixer_wired env (updatePrefs env s).2 a m f.
Proof.
  intros Hw.
  destruct (updatePrefs_fields env s a m f Hw)
    as (vols & s2 & Hroute & _ & _ & _ & _ & Hmix & _).
  destruct (routeOutput_run env (emit_all vols s) a m f Hw)
    as (s2' & route & Hr & Hmix2 & _).
  rewrite Hroute in Hr. injection Hr as <-.
  unfold mixer_wired. rewrite Hmix, Hmix2. exact Hw.
Qed.

(** X9. An update stores the panning preferences it has read, so the
    update that follows it under the same preferences makes no call to the
    emitter system: no technique is switched and no settings are re-applied
    a second time. *)
Theorem panning_reaction_is_one_shot env s a m f :
  mixer_wired env s a m f →
  (updatePrefs env (updatePrefs env s).2).1 = Normal tt
  ∧ disableLeftRightPanning (updatePrefs env s).2
    = pref_disableLeftRightPanning (preferences env)
  ∧ audioPanningQuality (updatePrefs env s).2
    = pref_audioPanningQuality (preferences env)
  ∧ filter is_panning_call (issued (updatePrefs env) (updatePrefs env s).2) = [].
Proof.
  intros Hw. pose proof (updatePrefs_mixer env s a m f Hw) as Hw'.
  destruct (updatePrefs_fields env s a m f Hw)
    as (_ & _ & _ & _ & _ & _ & _ & _ & _ & _ & _ & _ & _ & _ & Hd & Hq & _).
  destruct (updatePrefs_fields env _ a m f Hw')
    as (vols & s2 & Hroute & Hvols & Hnormal & _ & _ & _ & _ & _ & _ & _ & _ & _ & _
        & _ & Heff).
  destruct (routeOutput_run env _ a m f
              (Hw' : mixer_wired env (emit_all vols (updatePrefs env s).2) a m f))
    as (s2' & route & Hr & _ & _ & _ & Heff2 & Hnp & _).
  rewrite Hroute in Hr. injection Hr as <-.
  split_and!; try done.
  rewrite Hd, Hq in Heff.
  rewrite !bool_decide_false in Heff by (by intros E).
  rewrite Heff2 in Heff. revert Heff. fields. rewrite <- !app_assoc. intros Heff.
  rewrite (issued_app _ _ _ Heff), !filter_app.
  rewrite (filter_bool_none _ vols), (filter_bool_none _ route).
  - clear. induction (audios env) as [|[k au] l IH]; [done|]. exact IH.
  - eapply Forall_impl; [exact Hnp|]. by intros e [_ He].
  - eapply Forall_impl; [exact Hvols|]. by intros e [_ He].
Qed.

Lemma panning_reaction_is_one_shot_witness :
  (updatePrefs env_panning (updatePrefs env_panning sys0).2).1 = Normal tt
  ∧ disableLeftRightPanning (updatePrefs env_panning sys0).2
    = pref_disableLeftRightPanning (preferences env_panning)
  ∧ audioPanningQuality (updatePrefs env_panning sys0).2
    = pref_audioPanningQuality (preferences env_panning)
  ∧ filter is_panning_call
      (issued (updatePrefs env_panning) (updatePrefs env_panning sys0).2)
    = [].
Proof.
  apply (panning_reaction_is_one_shot env_panning sys0 7 6 8).
  by vm_compute.
Defined.

(** X10. A preference update returns normally, creates no node, leaves
    the registry of outbound streams and the category table as they are, and
    changes the connections of no node other than the three category
    nodes. *)
Theorem updatePrefs_leaves_rest_of_graph env s a m f :
  mixer_wired env s a m f →
  (updatePrefs env s).1 = Normal tt
  ∧ nodes (audioContext (updatePrefs env s).2) = nodes (audioContext s)
  ∧ audioNodes (updatePrefs env s).2 = audioNodes s
  ∧ mixer_wired env (updatePrefs env s).2 a m f
  ∧ (∀ c, c ∉ [a; m; f] →
       outputs c (audioContext (updatePrefs env s).2) = outputs c (audioContext s)).
Proof.
  intros Hw.
  destruct (updatePrefs_fields env s a m f Hw)
    as (vols & s2 & Hroute & _ & Hnormal & Hctx & Hnodes & _).
  destruct (routeOutput_graph env (emit_all vols s) a m f Hw)
    as (s2' & Hr & Hgraph & Hnodes2).
  rewrite Hroute in Hr. injection Hr as <-.
  rewrite Hctx, Hnodes, Hnodes2. revert Hgraph. fields. intros Hgraph.
  split_and!; try done.
  - destruct Hgraph as [->|[sink ->]]; [done|]. apply nodes_rerouted.
  - by apply updatePrefs_mixer.
  - intros c Hc. destruct Hgraph as [->|[sink ->]]; [done|].
    by apply outputs_rerouted_other.
Qed.

Lemma updatePrefs_leaves_rest_of_graph_witness :
  (updatePrefs env_explicit sys0).1 = Normal tt
  ∧ nodes (audioContext (updatePrefs env_explicit sys0).2) = nodes (audioContext sys0)
  ∧ audioNodes (updatePrefs env_explicit sys0).2 = audioNodes sys0
  ∧ mixer_wired env_explicit (updatePrefs env_explicit sys0).2 7 6 8
  ∧ (∀ c, c ∉ [7; 6; 8] →
       outputs c (audioContext (updatePrefs env_explicit sys0).2)
       = outputs c (audioContext sys0)).
Proof.
  apply (updatePrefs_leaves_rest_of_graph env_explicit sys0 7 6 8).
  by vm_compute.
Defined.

(** X11. Round trip of the output selection. From a system whose
    category nodes feed the final mix node and the mixer analyser: an
    explicit device is selected, its [setSinkId] request settles (fulfilled
    or rejected), and the default device is selected again. The second
    update returns normally, and what it does is decided by the sink the
    hidden element is on by then, which is the explicit device after a
    fulfilment and the empty id after a rejection. When the default device's
    id differs from it, every node of the graph has the connections it had
    at the start, the system holds no hidden element, the element that was
    created is paused and without source, and no request is pending beyond
    those of the start. When the default device's id is that very id, the
    second update makes no connect or disconnect call: the graph is as the
    first update left it, with the category nodes on the intermediate
    destination, and the hidden element is kept as it was. *)
Theorem explicit_then_default_round_trip env1 env2 mdm1 mdm2 s a m f b :
  mixer_wired env1 s a m f →
  NoDup [a; m; f] →
  destinationGain s ≠ mixerAnalyser s →
  (∀ g, g ∈ [a; m; f] →
     outputs g (audioContext s) = [destinationGain s; mixerAnalyser s]) →
  outputMediaAudio s = None →
  isAudioOutputSelectEnabled env1 = true →
  mediaDevicesManager env1 = Some mdm1 →
  selectedSpeakersDeviceId mdm1 ≠ defaultOutputDeviceId mdm1 →
  selectedSpeakersDeviceId mdm1 ≠ "" →
  SourceType env2 = SourceType env1 →
  isAudioOutputSelectEnabled env2 = true →
  mediaDevicesManager env2 = Some mdm2 →
  selectedSpeakersDeviceId mdm2 = defaultOutputDeviceId mdm2 →
  (updatePrefs env2
     (settleSetSinkId (length (sinkRequests s)) b (updatePrefs env1 s).2)).1
  = Normal tt
  ∧ (selectedSpeakersDeviceId mdm2
     ≠ (if b then selectedSpeakersDeviceId mdm1 else "") →
     (∀ c,
        outputs c
          (audioContext
             (updatePrefs env2
                (settleSetSinkId (length (sinkRequests s)) b (updatePrefs env1 s).2)).2)
        = outputs c (audioContext s))
     ∧ outputMediaAudio
         (updatePrefs env2
            (settleSetSinkId (length (sinkRequests s)) b (updatePrefs env1 s).2)).2
       = None
     ∧ elements
         (updatePrefs env2
            (settleSetSinkId (length (sinkRequests s)) b (updatePrefs env1 s).2)).2
       = elements s
         ++ [{| sinkId := if b then selectedSpeakersDeviceId mdm1 else "";
                srcObject := None; paused := true |}]
     ∧ sinkRequests
         (updatePrefs env2
            (settleSetSinkId (length (sinkRequests s)) b (updatePrefs env1 s).2)).2
       = sinkRequests s)
  ∧ (selectedSpeakersDeviceId mdm2
     = (if b then selectedSpeakersDeviceId mdm1 else "") →
     filter is_node_call
       (issued (updatePrefs env2)
          (settleSetSinkId (length (sinkRequests s)) b (updatePrefs env1 s).2))
     = []
     ∧ audioContext
         (updatePrefs env2
            (settleSetSinkId (length (sinkRequests s)) b (updatePrefs env1 s).2)).2
       = audioContext (updatePrefs env1 s).2
     ∧ outputMediaAudio
         (updatePrefs env2
            (settleSetSinkId (length (sinkRequests s)) b (updatePrefs env1 s).2)).2
       = Some (length (elements s))
     ∧ elements
         (updatePrefs env2
            (settleSetSinkId (length (sinkRequests s)) b (updatePrefs env1 s).2)).2
       = elements s
         ++ [if b
             then {| sinkId := selectedSpeakersDeviceId mdm1;
                     srcObject := Some (audioDestination s); paused := false |}
             else {| sinkId := ""; srcObject := Some (audioDestination s);
                     paused := true |}]).
Proof.
  intros Hw Hnd Hsa Hinit Hel Hen1 Hmdm1 Hsel1 Hne1 Hst Hen2 Hmdm2 Hsel2.
  destruct (explicit_then_settled env1 s mdm1 a m f b _ Hw Hen1 Hmdm1 Hsel1 Hne1 Hel
              eq_refl)
    as (Hctx & Hels & Hreq & Ho & Hmix & Han & Hdg & Had & _ & _ & Hkeep).
  set (s' := settleSetSinkId (length (sinkRequests s)) b (updatePrefs env1 s).2) in *.
  assert (mixer_wired env2 s' a m f) as Hw'.
  { unfold mixer_wired. rewrite Hmix, Hst. exact Hw. }
  destruct (updatePrefs_fields env2 s' a m f Hw')
    as (vols & s2 & Hroute & Hvols & Hnormal & Hctx' & _ & _ & _ & _ & _ & Ho' & Hels'
        & Hreq' & _ & _ & Heff).
  assert (outputMediaAudio_sinkId (emit_all vols s')
          = Some (if b then selectedSpeakersDeviceId mdm1 else "")) as Hcur.
  { unfold outputMediaAudio_sinkId. fields. rewrite Ho. cbn [mbind option_bind].
    rewrite Hels, lookup_app_r, Nat.sub_diag by lia. cbn [lookup list_lookup].
    by destruct b. }
  split; [done|]. split.
  - intros Hdiff.
    destruct (routeOutput_to_default env2 (emit_all vols s') mdm2 a m f
                (length (elements s)) Hw' Hen2 Hmdm2 Hsel2 Ho)
      as (s2' & Hr & Hctx2 & Ho2 & Hels2 & Hreq2 & _).
    { rewrite Hcur. intros [= E]. by apply Hdiff. }
    rewrite Hroute in Hr. injection Hr as <-.
    revert Hctx2 Ho2 Hels2 Hreq2. fields. intros Hctx2 Ho2 Hels2 Hreq2.
    rewrite Hctx', Hctx2, Ho', Ho2, Hels', Hels2, Hreq', Hreq2, Hctx, Hels, Hreq, Hdg,
      Han.
    split_and!; try done.
    + intros c.
      destruct (outputs_rerouted a m f (destinationGain s) (mixerAnalyser s)
                  (rerouted a m f (audioDestination s) (mixerAnalyser s)
                     (audioContext s))
                  Hnd Hsa) as (Ha & Hm & Hf & Hc).
      destruct (decide (c ∈ [a; m; f])) as [Hin|Hout].
      * rewrite (Hinit c Hin).
        apply elem_of_cons in Hin as [->|Hin]; [done|].
        apply elem_of_cons in Hin as [->|Hin]; [done|].
        apply list_elem_of_singleton in Hin as ->. done.
      * rewrite (Hc c Hout). by apply outputs_rerouted_other.
    + rewrite !alter_app_new. by destruct b.
  - intros Hsame.
    rewrite (routeOutput_in_place env2 _ mdm2 Hen2 Hmdm2) in Hroute.
    2:{ apply shouldReroute_false. left. by rewrite Hcur, Hsame. }
    injection Hroute as <-. revert Hctx' Ho' Hels' Heff. fields.
    intros Hctx' Ho' Hels' Heff. rewrite <- app_assoc in Heff.
    rewrite Hctx', Ho', Hels', <- Hkeep, Ho, Hels.
    split_and!; try done.
    rewrite (issued_app _ _ _ Heff), filter_app.
    rewrite (filter_node_calls_none vols), filter_node_calls_none; [done| |].
    + apply audio_calls_not_node.
    + eapply Forall_impl; [exact Hvols|]. by intros e [He _].
Qed.

Lemma explicit_then_default_round_trip_witness :
  (∀ c,
     outputs c
       (audioContext
          (updatePrefs env_default
             (settleSetSinkId (length (sinkRequests sys0)) true
                (updatePrefs env_explicit sys0).2)).2)
     = outputs c (audioContext sys0))
  ∧ outputMediaAudio
      (updatePrefs env_default
         (settleSetSinkId (length (sinkRequests sys0)) true
            (updatePrefs env_explicit sys0).2)).2
    = None
  ∧ elements
      (updatePrefs env_default
         (settleSetSinkId (length (sinkRequests sys0)) true
            (updatePrefs env_explicit sys0).2)).2
    = elements sys0
      ++ [{| sinkId :=
               if true
               then selectedSpeakersDeviceId
                      {| selectedSpeakersDeviceId := "speakers-1";
                         defaultOutputDeviceId := "default" |}
               else "";
             srcObject := None; paused := true |}]
  ∧ sinkRequests
      (updatePrefs env_default
         (settleSetSinkId (length (sinkRequests sys0)) true
            (updatePrefs env_explicit sys0).2)).2
    = sinkRequests sys0.
Proof.
  destruct (explicit_then_default_round_trip env_explicit env_default
              {| selectedSpeakersDeviceId := "speakers-1";
                 defaultOutputDeviceId := "default" |}
              {| selectedSpeakersDeviceId := "default";
                 defaultOutputDeviceId := "default" |} sys0 7 6 8 true)
    as (_ & Hrestored & _).
  - by vm_compute.
  - apply (bool_decide_unpack _). by vm_compute.
  - by vm_compute.
  - intros g Hg.
    apply elem_of_cons in Hg as [-> | Hg]; [by vm_compute|].
    apply elem_of_cons in Hg as [-> | Hg]; [by vm_compute|].
    apply list_elem_of_singleton in Hg as ->. by vm_compute.
  - reflexivity.
  - reflexivity.
  - reflexivity.
  - by vm_compute.
  - by vm_compute.
  - reflexivity.
  - reflexivity.
  - reflexivity.
  - reflexivity.
  - apply Hrestored. by vm_compute.
Defined.

(** The second case on a concrete host: the redirect to "speakers-1" is
    rejected, and the default device, selected next, has the empty id, the
    one the hidden element is still on. The category nodes stay on the
    intermediate destination and the paused element is kept. *)
Lemma rejected_redirect_then_empty_default_stays_rerouted :
  outputs 7
    (audioContext
       (updatePrefs env_default_empty
          (settleSetSinkId 0 false (updatePrefs env_explicit sys0).2)).2)
  = [audioDestination sys0; mixerAnalyser sys0]
  ∧ outputMediaAudio
      (updatePrefs env_default_empty
         (settleSetSinkId 0 false (updatePrefs env_explicit sys0).2)).2
    = Some 0
  ∧ elements
      (updatePrefs env_default_empty
         (settleSetSinkId 0 false (updatePrefs env_explicit sys0).2)).2
    = [{| sinkId := ""; srcObject := Some (audioDestination sys0); paused := true |}].
Proof. by vm_compute. Qed.

(** ** The loopback: one activation, and any run of the page *)

Lemma enableChromeAEC_run o g p :
  (enableChromeAEC o g p).1 = Normal tt
  ∧ (∀ e, first_failure o = Some e →
       last (trace (enableChromeAEC o g p).2) = Some (ConsoleError e)).
Proof.
  unfold enableChromeAEC. destruct (createSession g p) as [sess p'].
  unfold try_catch.
  destruct (negotiate_run o g (loopbackDestination sess) p') as [H1 _].
  destruct (negotiate o g (loopbackDestination sess) p') as [[[]|e'] q]; simpl in H1.
  - split; [done|]. intros e He. by rewrite He in H1.
  - split; [done|]. intros e He. rewrite He in H1. injection H1 as ->.
    unfold onError, modify, record. cbn [snd trace]. by rewrite last_snoc.
Qed.

Lemma activate_nodes o g p :
  nodes (page_ctx (activate o g p))
  = nodes (page_ctx p) ++ [MediaStreamAudioDestinationNode].
Proof.
  rewrite activate_graph. destruct (first_failure o); [done|].
  by rewrite nodes_connect.
Qed.

Lemma activate_outputs o g p c :
  outputs c (page_ctx (activate o g p))
  = match first_failure o with
    | Some _ => outputs c (page_ctx p)
    | None => if bool_decide (c = g) then [length (nodes (page_ctx p))]
              else outputs c (page_ctx p)
    end.
Proof.
  rewrite activate_graph. unfold createMediaStreamDestination.
  destruct (first_failure o).
  - apply outputs_createNode.
  - case_bool_decide as Hc.
    + subst c. rewrite outputs_connect_eq, outputs_disconnect_eq.
      rewrite bool_decide_false; [done|]. by intros ?%elem_of_nil.
    + by rewrite outputs_connect_ne, outputs_disconnect_ne, outputs_createNode.
Qed.

(** X12. When a step of the negotiation that is called or awaited fails,
    [enableChromeAEC] does not throw: the [catch] logs the error, which is
    the last thing the function does. No connection of the graph changes, so
    the gain node keeps feeding what it fed. The loopback destination node
    and the session, with its two peer connections, have been created all
    the same and stay. *)
Theorem failed_negotiation_keeps_routing o g p e :
  first_failure o = Some e →
  (enableChromeAEC o g p).1 = Normal tt
  ∧ last (trace (enableChromeAEC o g p).2) = Some (ConsoleError e)
  ∧ (∀ c, outputs c (page_ctx (activate o g p)) = outputs c (page_ctx p))
  ∧ nodes (page_ctx (activate o g p))
    = nodes (page_ctx p) ++ [MediaStreamAudioDestinationNode]
  ∧ sessions (activate o g p) = sessions p ++ [(createSession g p).1].
Proof.
  intros He. destruct (enableChromeAEC_run o g p) as [H1 H2].
  split_and!; [done|by apply H2| |apply activate_nodes|apply activate_sessions].
  intros c. by rewrite activate_outputs, He.
Qed.

Lemma failed_negotiation_keeps_routing_witness :
  (enableChromeAEC offer_refused 2 page0).1 = Normal tt
  ∧ last (trace (enableChromeAEC offer_refused 2 page0).2)
    = Some (ConsoleError (OperationError "InvalidStateError"))
  ∧ (∀ c, outputs c (page_ctx (activate offer_refused 2 page0))
          = outputs c (page_ctx page0))
  ∧ nodes (page_ctx (activate offer_refused 2 page0))
    = nodes (page_ctx page0) ++ [MediaStreamAudioDestinationNode]
  ∧ sessions (activate offer_refused 2 page0)
    = sessions page0 ++ [(createSession 2 page0).1].
Proof.
  apply (failed_negotiation_keeps_routing offer_refused 2 page0
           (OperationError "InvalidStateError")).
  by vm_compute.
Defined.

(** X13. When every step that is called or awaited succeeds, whatever
    the promises that are not awaited do, the activation returns normally
    and the gain node feeds the new loopback destination alone: its earlier
    connections, the one to the context's destination among them, are gone.
    No other node's connections change. *)
Theorem successful_negotiation_routes_through_loopback o g p :
  first_failure o = None →
  (enableChromeAEC o g p).1 = Normal tt
  ∧ outputs g (page_ctx (activate o g p)) = [loopbackDestination (createSession g p).1]
  ∧ nodes (page_ctx (activate o g p)) !! loopbackDestination (createSession g p).1
    = Some MediaStreamAudioDestinationNode
  ∧ (∀ c, c ≠ g → outputs c (page_ctx (activate o g p)) = outputs c (page_ctx p)).
Proof.
  intros He. destruct (enableChromeAEC_run o g p) as [H1 _].
  split_and!; [done|..].
  - rewrite activate_outputs, He, bool_decide_true by done. done.
  - rewrite activate_nodes. cbn. by rewrite lookup_app_r, Nat.sub_diag by lia.
  - intros c Hc. by rewrite activate_outputs, He, bool_decide_false.
Qed.

Lemma successful_negotiation_routes_through_loopback_witness :
  (enableChromeAEC answer_rejected 2 page0).1 = Normal tt
  ∧ outputs 2 (page_ctx (activate answer_rejected 2 page0))
    = [loopbackDestination (createSession 2 page0).1]
  ∧ nodes (page_ctx (activate answer_rejected 2 page0))
      !! loopbackDestination (createSession 2 page0).1
    = Some MediaStreamAudioDestinationNode
  ∧ (∀ c, c ≠ 2 →
       outputs c (page_ctx (activate answer_rejected 2 page0))
       = outputs c (page_ctx page0)).
Proof.
  apply (successful_negotiation_routes_through_loopback answer_rejected 2 page0).
  by vm_compute.
Defined.

Lemma Forall_filter_keep {A} (P : A → Prop) (Q : A → Prop) `{∀ x, Decision (Q x)}
    (l : list A) :
  Forall P l → Forall P (filter Q l).
Proof.
  rewrite !Forall_forall. intros Hl x [_ Hx]%list_elem_of_filter. by apply Hl.
Qed.

Lemma performDelayedReconnect_frame g p :
  page_ctx (performDelayedReconnect g p) = page_ctx p
  ∧ sessions (performDelayedReconnect g p) = sessions p
  ∧ (Forall (λ t, timeout_gainNode t = g) (timeouts p) →
     Forall (λ t, timeout_gainNode t = g) (timeouts (performDelayedReconnect g p))).
Proof.
  unfold performDelayedReconnect, setTimeout, clearTimeout.
  destruct (delayedReconnectTimeout p) as [h|]; cbn; split_and!; try done.
  - intros Ht. apply Forall_app. split; [by apply Forall_filter_keep|].
    by repeat constructor.
  - intros Ht. apply Forall_app. split; [done|]. by repeat constructor.
Qed.

Lemma on_iceconnectionstatechange_frame sess c state p :
  page_ctx (on_iceconnectionstatechange sess c state p) = page_ctx p
  ∧ sessions (on_iceconnectionstatechange sess c state p) = sessions p
  ∧ (Forall (λ t, timeout_gainNode t = session_gainNode sess) (timeouts p) →
     Forall (λ t, timeout_gainNode t = session_gainNode sess)
       (timeouts (on_iceconnectionstatechange sess c state p))).
Proof.
  unfold on_iceconnectionstatechange.
  destruct (performDelayedReconnect_frame (session_gainNode sess)
              (record ConsoleWarn p)) as (H1 & H2 & H3).
  destruct state; cbn [bool_decide decide_rel]; simpl; try done.
  destruct (delayedReconnectTimeout p) as [h|]; [|done].
  unfold clearTimeout. cbn. split_and!; try done.
  intros Ht. by apply Forall_filter_keep.
Qed.

Lemma loopback_inv_activate o g ctx p :
  loopback_inv g ctx p → loopback_inv g ctx (activate o g p).
Proof.
  intros (Hs & Ht & Hc & Hg & Hn).
  destruct (activate_timers o g p) as (Ht' & _).
  unfold loopback_inv.
  rewrite activate_sessions, Ht', activate_nodes, Hn, length_app. cbn [length].
  split_and!.
  - apply Forall_app. split; [done|]. by repeat constructor.
  - done.
  - intros c Hne. rewrite activate_outputs.
    destruct (first_failure o); [by apply Hc|].
    rewrite bool_decide_false by done. by apply Hc.
  - rewrite activate_outputs. destruct (first_failure o).
    + destruct Hg as [Hg|(sess & Hin & Hg)]; [by left|].
      right. exists sess. split; [|done]. apply elem_of_app. by left.
    + rewrite bool_decide_true by done. right.
      exists (createSession g p).1. split; [|done].
      apply elem_of_app. right. apply list_elem_of_here.
  - rewrite <- app_assoc. f_equal.
    replace (length (sessions p) + 1) with (S (length (sessions p))) by lia.
    by rewrite replicate_S_end.
Qed.

Lemma loopback_inv_step g ctx ev p :
  activates_only g ev → loopback_inv g ctx p → loopback_inv g ctx (page_step ev p).
Proof.
  intros Hev Hinv. destruct ev as [o g'|i c state|i c accepted|h o]; cbn [page_step].
  - simpl in Hev. subst g'. by apply loopback_inv_activate.
  - destruct (sessions p !! i) as [sess|] eqn:Hi; [|done].
    destruct Hinv as (Hs & Ht & Hc & Hg & Hn).
    assert (session_gainNode sess = g) as Hsg.
    { rewrite Forall_forall in Hs. apply Hs. by eapply list_elem_of_lookup_2. }
    destruct (on_iceconnectionstatechange_frame sess c state p) as (H1 & H2 & H3).
    unfold loopback_inv. rewrite H1, H2. rewrite Hsg in H3. by split_and!; auto.
  - destruct (sessions p !! i) as [sess|]; [|done].
    unfold on_icecandidate. by destruct accepted.
  - destruct (filter _ (timeouts p)) as [|t l] eqn:Hf; [done|].
    destruct Hinv as (Hs & Ht & Hc & Hg & Hn).
    assert (timeout_gainNode t = g) as Htg.
    { rewrite Forall_forall in Ht. apply Ht.
      assert (t ∈ filter (λ t, handle t = h) (timeouts p)) as Hin
        by (rewrite Hf; apply list_elem_of_here).
      by apply list_elem_of_filter in Hin as [_ Hin]. }
    unfold delayedReconnect_callback. rewrite Htg.
    apply loopback_inv_activate. unfold loopback_inv, clearTimeout. cbn.
    split_and!; try done. by apply Forall_filter_keep.
Qed.

(** X14. Over any sequence of activations, connection-state changes,
    candidates and timer firings in which every activation is for the gain
    node [g]: every session and every pending timer is for [g]; no node
    other than [g] ever has its connections changed; [g] feeds either what
    it fed at the start or the loopback destination of one session alone;
    and the graph holds one destination node per session ever created, none
    of which is removed. *)
Theorem loopback_moves_only_its_gain_node g ctx evs :
  Forall (activates_only g) evs →
  loopback_inv g ctx (page_run evs (initialPage ctx)).
Proof.
  induction evs as [|ev evs IH] using rev_ind; intros Hevs.
  - unfold loopback_inv. cbn. rewrite app_nil_r. split_and!; try done. by left.
  - apply Forall_app in Hevs as [Hevs Hev]. rewrite Forall_singleton in Hev.
    rewrite page_run_snoc. apply loopback_inv_step; [done|by apply IH].
Qed.

Lemma loopback_moves_only_its_gain_node_witness :
  loopback_inv 2 (audioContext sys0)
    (page_run [Activate all_ok 2;
               IceConnectionStateChange 0 Inbound IceDisconnected;
               TimeoutFires 1 offer_refused] (initialPage (audioContext sys0))).
Proof.
  apply (loopback_moves_only_its_gain_node 2 (audioContext sys0)
           [Activate all_ok 2;
            IceConnectionStateChange 0 Inbound IceDisconnected;
            TimeoutFires 1 offer_refused]).
  repeat constructor.
Defined.

(** ** Resuming the context *)

Lemma doc_run_snoc dev g evs ev d :
  doc_run dev g (evs ++ [ev]) d = doc_step dev g ev (doc_run dev g evs d).
Proof. unfold doc_run. by rewrite foldl_app. Qed.

Lemma doc_run_app dev g evs1 evs2 d :
  doc_run dev g (evs1 ++ evs2) d = doc_run dev g evs2 (doc_run dev g evs1 d).
Proof. unfold doc_run. by rewrite foldl_app. Qed.

(** X15. On a device where the resume callback does not start the
    loopback (a mobile device, a user agent without "chrome" in it, or echo
    cancellation switched off in the preferences), no sequence of gestures,
    timeouts, state changes and loopback events ever touches the page of the
    loopback: no session, no timer, no node, no connection, nothing
    logged. *)
Theorem loopback_needs_desktop_chrome dev g ctx st evs :
  usesChromeAEC dev = false →
  doc_page (doc_run dev g evs (initialDocument ctx st)) = initialPage ctx.
Proof.
  intros Hdev. induction evs as [|ev evs IH] using rev_ind; [done|].
  rewrite doc_run_snoc. set (d := doc_run dev g evs (initialDocument ctx st)) in *.
  destruct ev as [| |o|newState|ev]; cbn [doc_step].
  - by destruct (touchend_listener d).
  - by destruct (mouseup_listener d).
  - destruct (resume_timeouts d); [done|]. unfold resume_callback.
    cbn [audioContext_state set_resume_timeouts].
    unfold usesChromeAEC in Hdev. rewrite Hdev.
    by case_bool_decide.
  - unfold onstatechange. cbn [audioContext_state console_log_add set_audioContext_state
      audioContextNeedsToBeResumed].
    repeat case_bool_decide; try done. by destruct (audioContextNeedsToBeResumed d).
  - destruct ev as [o g'|i c state|i c accepted|h o]; [done|..];
      cbn [doc_page set_doc_page]; rewrite IH; done.
Qed.

Lemma loopback_needs_desktop_chrome_witness :
  doc_page
    (doc_run desktop_firefox 2
       [Touchend; StateChange "running"; ResumeTimeoutFires all_ok;
        Loopback (TimeoutFires 1 all_ok)]
       (initialDocument (audioContext sys0) "suspended"))
  = initialPage (audioContext sys0).
Proof.
  apply (loopback_needs_desktop_chrome desktop_firefox 2 (audioContext sys0)
           "suspended"
           [Touchend; StateChange "running"; ResumeTimeoutFires all_ok;
            Loopback (TimeoutFires 1 all_ok)]).
  by vm_compute.
Defined.

Lemma resumed_after_suspended_snoc_suspended log :
  resumed_after_suspended log → resumed_after_suspended (log ++ [audioSuspended]).
Proof.
  intros Hlog pre post E.
  destruct post as [|x post _] using rev_ind.
  - apply (f_equal last) in E. rewrite !last_snoc in E. discriminate E.
  - rewrite app_comm_cons, app_assoc in E. apply app_inj_tail in E as [E _].
    by eapply Hlog.
Qed.

Lemma resumed_after_suspended_snoc_resumed log :
  last log = Some audioSuspended →
  resumed_after_suspended log → resumed_after_suspended (log ++ [audioResumed]).
Proof.
  intros Hlast Hlog pre post E.
  destruct post as [|x post _] using rev_ind.
  - apply app_inj_tail in E as [<- _]. exact Hlast.
  - rewrite app_comm_cons, app_assoc in E. apply app_inj_tail in E as [E _].
    by eapply Hlog.
Qed.

Lemma log_inv_step dev g ev d : log_inv d → log_inv (doc_step dev g ev d).
Proof.
  intros [Hlog Hflag]. destruct ev as [| |o|newState|ev]; cbn [doc_step].
  - by destruct (touchend_listener d).
  - by destruct (mouseup_listener d).
  - destruct (resume_timeouts d); [done|]. unfold resume_callback.
    case_bool_decide; [|done].
    by destruct (_ && _).
  - unfold onstatechange.
    cbn [audioContext_state console_log_add set_audioContext_state
           audioContextNeedsToBeResumed].
    case_bool_decide.
    + split; cbn.
      * by apply resumed_after_suspended_snoc_suspended.
      * intros _. by rewrite last_snoc.
    + case_bool_decide; [|by split].
      destruct (audioContextNeedsToBeResumed d) eqn:Hf. 2:{ split; [done|]. cbn. by rewrite Hf. }
      split; cbn; [|done].
      apply resumed_after_suspended_snoc_resumed; [by apply Hflag|done].
  - by destruct ev.
Qed.

(** X16. Whatever the events, every [audioResumed] message comes right
    after an [audioSuspended] message: a resumption is never announced
    twice, nor before any suspension; and whenever the flag of the
    interruption fix is on, the last message is [audioSuspended]. *)
Theorem audioResumed_only_after_audioSuspended dev g ctx st evs :
  resumed_after_suspended (messages (doc_run dev g evs (initialDocument ctx st)))
  ∧ (audioContextNeedsToBeResumed (doc_run dev g evs (initialDocument ctx st)) = true →
     last (messages (doc_run dev g evs (initialDocument ctx st)))
     = Some audioSuspended).
Proof.
  induction evs as [|ev evs IH] using rev_ind.
  - split; [|done]. intros pre post E. by destruct pre.
  - rewrite doc_run_snoc. by apply log_inv_step.
Qed.

Lemma gestures_run dev g gestures d :
  Forall is_gesture gestures →
  touchend_listener d = true → mouseup_listener d = true →
  doc_run dev g gestures d
  = set_resume_timeouts (resume_timeouts d + length gestures)
      (set_resume_calls (resume_calls d + length gestures) d).
Proof.
  intros Hg. revert d. induction Hg as [|ev gestures Hev Hg IH]; intros d Ht Hm.
  - cbn. rewrite !Nat.add_0_r. by destruct d.
  - change (doc_run dev g (ev :: gestures) d)
      with (doc_run dev g gestures (doc_step dev g ev d)).
    assert (doc_step dev g ev d = _resumeAudioContext d) as ->.
    { destruct Hev as [-> | ->]; cbn [doc_step]; by rewrite ?Ht, ?Hm. }
    rewrite IH by done. unfold _resumeAudioContext. cbn.
    rewrite <- !Nat.add_succ_r. done.
Qed.

Lemma callbacks_run dev g o n d :
  usesChromeAEC dev = true →
  audioContext_state d = "running" →
  resume_timeouts d = n →
  (∃ new,
     sessions (doc_page (doc_run dev g (replicate n (ResumeTimeoutFires o)) d))
     = sessions (doc_page d) ++ new
     ∧ length new = n
     ∧ Forall (λ sess, session_gainNode sess = g) new)
  ∧ resume_timeouts (doc_run dev g (replicate n (ResumeTimeoutFires o)) d) = 0
  ∧ (n ≠ 0 →
     touchend_listener (doc_run dev g (replicate n (ResumeTimeoutFires o)) d) = false
     ∧ mouseup_listener (doc_run dev g (replicate n (ResumeTimeoutFires o)) d) = false)
  ∧ resume_calls (doc_run dev g (replicate n (ResumeTimeoutFires o)) d)
    = resume_calls d.
Proof.
  intros Hdev. revert d. induction n as [|n IH]; intros d Hst Hn.
  - cbn. split_and!; [|done..]. exists []. by rewrite app_nil_r.
  - change (doc_run dev g (replicate (S n) (ResumeTimeoutFires o)) d)
      with (doc_run dev g (replicate n (ResumeTimeoutFires o))
              (doc_step dev g (ResumeTimeoutFires o) d)).
    cbn [doc_step]. rewrite Hn. unfold resume_callback.
    cbn [audioContext_state set_resume_timeouts]. rewrite bool_decide_true by done.
    unfold usesChromeAEC in Hdev. rewrite Hdev.
    match goal with |- context [doc_run _ _ _ ?d0] => set (d1 := d0) end.
    destruct (IH d1) as ((new & H1 & Hlen & Hnew) & H2 & H3 & H4); [done|done|].
    assert (sessions (doc_page d1)
            = sessions (doc_page d) ++ [(createSession g (doc_page d)).1])
      as Hs1 by apply activate_sessions.
    split_and!.
    + exists ((createSession g (doc_page d)).1 :: new).
      rewrite H1, Hs1, <- app_assoc. split_and!; [done|by cbn; rewrite Hlen|].
      constructor; [|done].
      unfold createSession. by destruct (createMediaStreamDestination _).
    + done.
    + intros _. destruct n as [|n]; [by cbn|]. by apply H3.
    + by rewrite H4.
Qed.

(** X17. The listeners of [_resumeAudioContext] are removed by its
    timeout callback only. On a device that uses the loopback, with the
    context running and both listeners registered: when some gestures arrive
    before the first callback runs, each of them calls [resume()] and
    schedules a callback, and each callback starts a loopback of its own for
    the gain node, so as many sessions are created as there were gestures.
    Afterwards both listeners are gone. *)
Theorem every_gesture_before_the_callback_starts_a_loopback dev g o gestures d :
  usesChromeAEC dev = true →
  audioContext_state d = "running" →
  touchend_listener d = true →
  mouseup_listener d = true →
  resume_timeouts d = 0 →
  Forall is_gesture gestures →
  (∃ new,
     sessions
       (doc_page
          (doc_run dev g
             (gestures ++ replicate (length gestures) (ResumeTimeoutFires o)) d))
     = sessions (doc_page d) ++ new
     ∧ length new = length gestures
     ∧ Forall (λ sess, session_gainNode sess = g) new)
  ∧ resume_calls
      (doc_run dev g (gestures ++ replicate (length gestures) (ResumeTimeoutFires o)) d)
    = resume_calls d + length gestures
  ∧ (gestures ≠ [] →
     touchend_listener
       (doc_run dev g (gestures ++ replicate (length gestures) (ResumeTimeoutFires o)) d)
     = false
     ∧ mouseup_listener
         (doc_run dev g
            (gestures ++ replicate (length gestures) (ResumeTimeoutFires o)) d)
       = false).
Proof.
  intros Hdev Hst Ht Hm Hz Hg.
  rewrite doc_run_app, (gestures_run dev g gestures d Hg Ht Hm).
  set (d1 := set_resume_timeouts _ _).
  destruct (callbacks_run dev g o (length gestures) d1 Hdev Hst)
    as ((new & H1 & Hlen & Hnew) & H2 & H3 & H4).
  { subst d1. cbn. by rewrite Hz. }
  split_and!.
  - by exists new.
  - by rewrite H4.
  - intros Hne. apply H3. by destruct gestures.
Qed.

Lemma every_gesture_before_the_callback_starts_a_loopback_witness :
  (∃ new,
     sessions
       (doc_page
          (doc_run desktop_chrome 2
             ([Touchend; Mouseup]
              ++ replicate (length [Touchend; Mouseup]) (ResumeTimeoutFires all_ok))
             (initialDocument (audioContext sys0) "running")))
     = sessions (doc_page (initialDocument (audioContext sys0) "running")) ++ new
     ∧ length new = length [Touchend; Mouseup]
     ∧ Forall (λ sess, session_gainNode sess = 2) new)
  ∧ resume_calls
      (doc_run desktop_chrome 2
         ([Touchend; Mouseup]
          ++ replicate (length [Touchend; Mouseup]) (ResumeTimeoutFires all_ok))
         (initialDocument (audioContext sys0) "running"))
    = resume_calls (initialDocument (audioContext sys0) "running")
      + length [Touchend; Mouseup]
  ∧ ([Touchend; Mouseup] ≠ [] →
     touchend_listener
       (doc_run desktop_chrome 2
          ([Touchend; Mouseup]
           ++ replicate (length [Touchend; Mouseup]) (ResumeTimeoutFires all_ok))
          (initialDocument (audioContext sys0) "running"))
     = false
     ∧ mouseup_listener
         (doc_run desktop_chrome 2
            ([Touchend; Mouseup]
             ++ replicate (length [Touchend; Mouseup]) (ResumeTimeoutFires all_ok))
            (initialDocument (audioContext sys0) "running"))
       = false).
Proof.
  apply (every_gesture_before_the_callback_starts_a_loopback desktop_chrome 2 all_ok
           [Touchend; Mouseup] (initialDocument (audioContext sys0) "running")).
  - by vm_compute.
  - reflexivity.
  - reflexivity.
  - reflexivity.
  - reflexivity.
  - constructor; [by left|]. constructor; [by right|]. constructor.
Defined.
